(** * fconv2d_3x3: a 3x3 double-precision convolution kernel for a RISC-V
      vector unit (apps/fconv2d/fconv2d_3x3.c)

    The kernel is straight-line inline assembly around one [for] loop.  Each
    [asm volatile] statement of the source is one state transformer below; the
    C functions are their compositions, statement by statement and in source
    order ([fconv2d_3x3] is cut at its loop into [prologue], [loop_body] and
    [steady_state]).

    Conventions of the embedding
    - Pointers are byte addresses in [Z] into one flat memory; a [double]
      occupies the cell at its byte address, and [p + n] on a [double *] is
      [ptr_add p n = p + 8 * n].
    - [int64_t] values are in [Z].  Signed overflow is undefined in C and is
      not reached when the buffers of the declared sizes exist.
    - Floating point is an interface ([FloatOps]): [fmul] is the rounded
      product of [vfmul.vf], [fmacc a x acc] the fused multiply-add
      [a * x + acc] of [vfmacc.vf], [fzero] the all-zero bit pattern.  The
      general theorems hold for every instance; [Binary64] is IEEE-754
      binary64 on [spec_float], for the concrete runs and for the scaling
      by powers of two.
    - The vector unit has [VLMAX] lanes per LMUL=2 register group at SEW=64,
      a parameter of the hardware; [vsetvli] grants [min AVL VLMAX] lanes (the
      comment at lines 89-91 of the source: the length "doesn't exceed the
      architectural maximum length").  Tail lanes are agnostic ([ta]): an
      instruction leaves lane [l >= vl] of its destination [d] as
      [tail d l old], for an arbitrary [tail].
    - The state carries a ghost log of the memory cells read and written and
      of the source lanes read by [vslidedown.vi].
    - The loop takes fuel; [fconv2d_3x3] supplies [R] units, which always
      suffice ([fconv2d_3x3_total]).

    The file has the definitions first (machine, kernel, reference,
    invariants, concrete data, further views of a call), then the lemmas, the
    claims of the specification, and further properties of the code. *)

From Stdlib Require Import ZArith List Bool Lia Arith SpecFloat.
Import ListNotations.
Local Open Scope Z_scope.

(** ** Floating-point interface *)

Class FloatOps (F : Type) : Type := {
  fzero : F;
  fmul  : F -> F -> F;
  fmacc : F -> F -> F -> F
}.

(** ** Machine state *)

(** The LMUL=2 register groups the kernel names. *)
Inductive vreg : Set :=
| V0 | V2 | V4 | V6 | V8 | V10 | V12 | V14
| V16 | V18 | V20 | V22 | V24 | V26 | V28 | V30.

Definition vreg_idx (r : vreg) : nat :=
  match r with
  | V0 => 0 | V2 => 2 | V4 => 4 | V6 => 6 | V8 => 8 | V10 => 10
  | V12 => 12 | V14 => 14 | V16 => 16 | V18 => 18 | V20 => 20 | V22 => 22
  | V24 => 24 | V26 => 26 | V28 => 28 | V30 => 30
  end%nat.

Definition vreg_eqb (a b : vreg) : bool := Nat.eqb (vreg_idx a) (vreg_idx b).

(** The ghost log: one event per memory cell a [vle64.v] reads, per cell a
    [fld] reads, per cell a [vse64.v] writes, and per source lane a
    [vslidedown.vi] reads. *)
Inductive event : Set :=
| EvLoad  (a : Z)
| EvFld   (a : Z)
| EvStore (a : Z)
| EvLane  (r : vreg) (l : nat).

Section Machine.

Context {F : Type}.

Definition lanes : Type := nat -> F.
Definition memory : Type := Z -> F.

Record vrf : Type := mkVrf {
  v0  : lanes; v2  : lanes; v4  : lanes; v6  : lanes;
  v8  : lanes; v10 : lanes; v12 : lanes; v14 : lanes;
  v16 : lanes; v18 : lanes; v20 : lanes; v22 : lanes;
  v24 : lanes; v26 : lanes; v28 : lanes; v30 : lanes
}.

Definition rd (r : vreg) (rf : vrf) : lanes :=
  match r with
  | V0 => v0 rf | V2 => v2 rf | V4 => v4 rf | V6 => v6 rf
  | V8 => v8 rf | V10 => v10 rf | V12 => v12 rf | V14 => v14 rf
  | V16 => v16 rf | V18 => v18 rf | V20 => v20 rf | V22 => v22 rf
  | V24 => v24 rf | V26 => v26 rf | V28 => v28 rf | V30 => v30 rf
  end.

Definition wr (r : vreg) (x : lanes) (rf : vrf) : vrf :=
  let k (q : vreg) := if vreg_eqb q r then x else rd q rf in
  mkVrf (k V0) (k V2) (k V4) (k V6) (k V8) (k V10) (k V12) (k V14)
        (k V16) (k V18) (k V20) (k V22) (k V24) (k V26) (k V28) (k V30).

Record state : Type := mkState {
  mem : memory;     (* the flat data memory *)
  vregs : vrf;      (* vector register file *)
  vl : nat;         (* active vector length *)
  log : list event  (* ghost: accesses so far, oldest first *)
}.

(** A small state monad for the statement sequences. *)
Definition M (A : Type) : Type := state -> A * state.
Definition ret {A} (a : A) : M A := fun st => (a, st).
Definition bind {A B} (c : M A) (k : A -> M B) : M B :=
  fun st => let '(a, st') := c st in k a st'.

End Machine.

Arguments lanes F : clear implicits.
Arguments memory F : clear implicits.
Arguments vrf F : clear implicits.
Arguments state F : clear implicits.
Arguments M F A : clear implicits.

Declare Scope asm_scope.
Delimit Scope asm_scope with asm.
Notation "x <- c ;; k" := (bind c (fun x => k))
  (at level 61, c at next level, right associativity) : asm_scope.
Notation "c ;; k" := (bind c (fun _ => k))
  (at level 61, right associativity) : asm_scope.
Notation "' pat <- c ;; k" := (bind c (fun x => match x with pat => k end))
  (at level 61, pat pattern, c at next level, right associativity) : asm_scope.

(** [p + n] on a [double *]. *)
Definition ptr_add (p n : Z) : Z := p + 8 * n.

(** [x << 3] on an [int64_t]. *)
Definition shl3 (x : Z) : Z := Z.shiftl x 3.

(** Byte address of lane [l] of a unit-stride access at [a]. *)
Definition lane_addr (a : Z) (l : nat) : Z := a + 8 * Z.of_nat l.

Section Instructions.

Context {F : Type} {ops : FloatOps F}.

(** Lanes of the LMUL=2, SEW=64 register group. *)
Variable VLMAX : nat.
(** What the unit leaves in a tail lane: any function of the destination
    register, the lane and the old content. *)
Variable tail : vreg -> nat -> F -> F.

(** Body lanes [l < vl] receive [f l]; tail lanes are agnostic. *)
Definition vec_op (d : vreg) (n : nat) (f old : lanes F) : lanes F :=
  fun l => if (l <? n)%nat then f l else tail d l (old l).

Definition vec_write (d : vreg) (f : lanes F) : M F unit :=
  fun st => (tt, mkState (mem st)
                         (wr d (vec_op d (vl st) f (rd d (vregs st))) (vregs st))
                         (vl st) (log st)).

Definition emit (evs : list event) : M F unit :=
  fun st => (tt, mkState (mem st) (vregs st) (vl st) (log st ++ evs)).

(** Writes lanes [0 .. n-1] of [x] to consecutive doubles from [a]. *)
Fixpoint store_lanes (m : memory F) (a : Z) (x : lanes F) (n : nat) : memory F :=
  match n with
  | O => m
  | S n' => let m' := store_lanes m a x n' in
            fun b => if b =? lane_addr a n' then x n' else m' b
  end.

(** The vector length [vsetvli] grants for the request [avl].  The AVL
    register is read as unsigned, so a negative [int64_t] requests more than
    [VLMAX]. *)
Definition grant (avl : Z) : nat :=
  if avl <? 0 then VLMAX else Nat.min (Z.to_nat avl) VLMAX.

(** [vsetvli zero, avl, e64, m2, ta, ma] *)
Definition vsetvli (avl : Z) : M F unit :=
  fun st => (tt, mkState (mem st) (vregs st) (grant avl) (log st)).

(** [vle64.v vd, (a)] *)
Definition vle64_v (vd : vreg) (a : Z) : M F unit :=
  fun st =>
    (emit (map (fun l => EvLoad (lane_addr a l)) (seq 0 (vl st))) ;;
     vec_write vd (fun l => mem st (lane_addr a l)))%asm st.

(** [vle64.v vd, (p); add p, p, inc]: returns the advanced pointer. *)
Definition vle64_v_add (vd : vreg) (p inc : Z) : M F Z :=
  (vle64_v vd p ;; ret (p + inc))%asm.

(** [vse64.v vs3, (a)] *)
Definition vse64_v (vs3 : vreg) (a : Z) : M F unit :=
  fun st =>
    (tt, mkState (store_lanes (mem st) a (rd vs3 (vregs st)) (vl st))
                 (vregs st) (vl st)
                 (log st ++ map (fun l => EvStore (lane_addr a l)) (seq 0 (vl st)))).

(** [vse64.v vs3, (p); add p, p, inc] *)
Definition vse64_v_add (vs3 : vreg) (p inc : Z) : M F Z :=
  (vse64_v vs3 p ;; ret (p + inc))%asm.

(** [fld t, (p)]: the loaded scalar. *)
Definition fld (p : Z) : M F F :=
  fun st => (emit [EvFld p] ;; ret (mem st p))%asm st.

(** [fld t, (p); add p, p, inc]: the scalar and the advanced pointer. *)
Definition fld_add (p inc : Z) : M F (F * Z) :=
  (t <- fld p ;; ret (t, p + inc))%asm.

(** [vfmul.vf vd, vs2, rs1]: vd[l] = vs2[l] * f[rs1] *)
Definition vfmul_vf (vd vs2 : vreg) (rs1 : F) : M F unit :=
  fun st => vec_write vd (fun l => fmul (rd vs2 (vregs st) l) rs1) st.

(** [vfmacc.vf vd, rs1, vs2]: vd[l] = f[rs1] * vs2[l] + vd[l], fused *)
Definition vfmacc_vf (vd : vreg) (rs1 : F) (vs2 : vreg) : M F unit :=
  fun st => vec_write vd (fun l => fmacc rs1 (rd vs2 (vregs st) l)
                                         (rd vd (vregs st) l)) st.

(** [vslidedown.vi vd, vs2, imm]: vd[l] = vs2[l + imm], and zero where
    [l + imm] is past the register group. *)
Definition vslidedown_vi (vd vs2 : vreg) (imm : nat) : M F unit :=
  fun st =>
    (emit (map (fun l => EvLane vs2 (l + imm))
               (filter (fun l => (l + imm <? VLMAX)%nat) (seq 0 (vl st)))) ;;
     vec_write vd (fun l => if (l + imm <? VLMAX)%nat
                            then rd vs2 (vregs st) (l + imm)%nat else fzero))%asm st.

(** [vmv.v.v vd, vs1] *)
Definition vmv_v_v (vd vs1 : vreg) : M F unit :=
  fun st => vec_write vd (rd vs1 (vregs st)) st.

End Instructions.

(** ** The kernel *)

Section Kernel.

Context {F : Type} {ops : FloatOps F}.
Variable VLMAX : nat.
Variable tail : vreg -> nat -> F -> F.

Local Open Scope asm_scope.

Local Abbreviation vsetvli := (vsetvli VLMAX).
Local Abbreviation vle64_v_add := (vle64_v_add tail).
Local Abbreviation vfmul_vf := (vfmul_vf tail).
Local Abbreviation vfmacc_vf := (vfmacc_vf tail).
Local Abbreviation vslidedown_vi := (vslidedown_vi VLMAX tail).
Local Abbreviation vmv_v_v := (vmv_v_v tail).

(** Lines 235-244.  The last statement names only operand [%0] (["+r"(i)]);
    its [%1] is the tied input copy of the same pointer, and the advanced
    pointer is dead. *)
Definition fconv2d_vec_4xC_slice_preload_3x3 (i C F_ : Z) : M F unit :=
  let ldi := shl3 (C + F_ - 1) in
  vsetvli (C + F_ - 1) ;;
  i <- vle64_v_add V8 i ldi ;;
  _ <- vle64_v_add V10 i i ;;
  ret tt.

(** Lines 395-401. *)
Definition fconv2d_vec_4xC_slice_move_3x3 (C F_ : Z) : M F unit :=
  vsetvli (C + F_ - 1) ;;
  vmv_v_v V8 V16 ;;
  vmv_v_v V10 V18.

(** Lines 247-393: four output rows from the window [v8 .. v18]. *)
Definition fconv2d_vec_4xC_3x3 (o i f C F_ : Z) : M F unit :=
  let ldo := shl3 C in
  let ldi := shl3 (C + F_ - 1) in
  let ldf := shl3 F_ in
  vsetvli (C + F_ - 1) ;;
  let f_ := f in
  '(t0, f_) <- fld_add f_ ldf ;;
  '(t1, f_) <- fld_add f_ ldf ;;
  t2 <- fld f_ ;;
  i <- vle64_v_add V12 i ldi ;;
  vfmul_vf V0 V8 t0 ;;
  vfmul_vf V2 V10 t0 ;;
  i <- vle64_v_add V14 i ldi ;;
  vfmacc_vf V0 t1 V10 ;;
  vfmacc_vf V2 t1 V12 ;;
  i <- vle64_v_add V16 i ldi ;;
  vfmacc_vf V0 t2 V12 ;;
  vslidedown_vi V20 V8 1 ;;
  vfmul_vf V4 V12 t0 ;;
  i <- vle64_v_add V18 i ldi ;;
  vsetvli C ;;
  vfmul_vf V6 V14 t0 ;;
  vfmacc_vf V4 t1 V14 ;;
  vslidedown_vi V22 V10 1 ;;
  vfmacc_vf V2 t2 V14 ;;
  vfmacc_vf V6 t1 V16 ;;
  vfmacc_vf V4 t2 V16 ;;
  vslidedown_vi V24 V12 1 ;;
  vfmacc_vf V6 t2 V18 ;;
  let f_ := ptr_add f 1 in
  '(t0, f_) <- fld_add f_ ldf ;;
  '(t1, f_) <- fld_add f_ ldf ;;
  t2 <- fld f_ ;;
  vfmacc_vf V0 t0 V20 ;;
  vfmacc_vf V0 t1 V22 ;;
  vslidedown_vi V26 V14 1 ;;
  vfmacc_vf V2 t0 V22 ;;
  vfmacc_vf V0 t2 V24 ;;
  vfmacc_vf V2 t1 V24 ;;
  vslidedown_vi V28 V16 1 ;;
  vfmacc_vf V4 t0 V24 ;;
  vfmacc_vf V2 t2 V26 ;;
  vfmacc_vf V4 t1 V26 ;;
  vslidedown_vi V30 V18 1 ;;
  vfmacc_vf V6 t0 V26 ;;
  vfmacc_vf V4 t2 V28 ;;
  vslidedown_vi V20 V8 2 ;;
  vfmacc_vf V6 t1 V28 ;;
  vfmacc_vf V6 t2 V30 ;;
  vslidedown_vi V22 V10 2 ;;
  let f_ := ptr_add f 2 in
  '(t0, f_) <- fld_add f_ ldf ;;
  '(t1, f_) <- fld_add f_ ldf ;;
  t2 <- fld f_ ;;
  vfmacc_vf V0 t0 V20 ;;
  vfmacc_vf V0 t1 V22 ;;
  vslidedown_vi V24 V12 2 ;;
  vfmacc_vf V2 t0 V22 ;;
  vfmacc_vf V0 t2 V24 ;;
  o <- vse64_v_add V0 o ldo ;;
  vslidedown_vi V26 V14 2 ;;
  vfmacc_vf V2 t1 V24 ;;
  vfmacc_vf V4 t0 V24 ;;
  vfmacc_vf V2 t2 V26 ;;
  o <- vse64_v_add V2 o ldo ;;
  vslidedown_vi V28 V16 2 ;;
  vfmacc_vf V4 t1 V26 ;;
  vfmacc_vf V6 t0 V26 ;;
  vfmacc_vf V4 t2 V28 ;;
  vslidedown_vi V30 V18 2 ;;
  o <- vse64_v_add V4 o ldo ;;
  vfmacc_vf V6 t1 V28 ;;
  vfmacc_vf V6 t2 V30 ;;
  vse64_v V6 o.

(** Lines 85-230: one iteration of the [for] loop of [fconv2d_3x3], for the
    output rows [r .. r+3].  [t0 t1 t2] are the column-0 coefficients loaded
    before the loop and [i__] the input cursor; the result is the cursor the
    iteration leaves for the next one. *)
Definition loop_body (o i f C F_ : Z) (block_size_o ldi ldf : Z)
    (t0 t1 t2 : F) (r i__ : Z) : M F Z :=
  vsetvli (C + F_ - 1) ;;
  vmv_v_v V8 V16 ;;
  i__ <- vle64_v_add V12 i__ ldi ;;
  vfmul_vf V0 V8 t0 ;;
  vmv_v_v V10 V18 ;;
  vfmul_vf V2 V10 t0 ;;
  i__ <- vle64_v_add V14 i__ ldi ;;
  vfmacc_vf V0 t1 V10 ;;
  vfmacc_vf V2 t1 V12 ;;
  i__ <- vle64_v_add V16 i__ ldi ;;
  vfmacc_vf V0 t2 V12 ;;
  vslidedown_vi V20 V8 1 ;;
  vfmul_vf V4 V12 t0 ;;
  i__ <- vle64_v_add V18 i__ ldi ;;
  vsetvli C ;;
  vfmul_vf V6 V14 t0 ;;
  vslidedown_vi V22 V10 1 ;;
  vfmacc_vf V4 t1 V14 ;;
  vfmacc_vf V2 t2 V14 ;;
  vslidedown_vi V24 V12 1 ;;
  vfmacc_vf V6 t1 V16 ;;
  vfmacc_vf V4 t2 V16 ;;
  vslidedown_vi V26 V14 1 ;;
  vfmacc_vf V6 t2 V18 ;;
  let f_ := ptr_add f 1 in
  '(t3, f_) <- fld_add f_ ldf ;;
  '(t4, f_) <- fld_add f_ ldf ;;
  t5 <- fld f_ ;;
  vfmacc_vf V0 t3 V20 ;;
  vfmacc_vf V0 t4 V22 ;;
  vslidedown_vi V28 V16 1 ;;
  vfmacc_vf V2 t3 V22 ;;
  let i_ := ptr_add i ((r + block_size_o) * (C + F_ - 1)) in
  vfmacc_vf V0 t5 V24 ;;
  vslidedown_vi V30 V18 1 ;;
  vfmacc_vf V2 t4 V24 ;;
  vfmacc_vf V4 t3 V24 ;;
  vslidedown_vi V20 V8 2 ;;
  vfmacc_vf V2 t5 V26 ;;
  vfmacc_vf V4 t4 V26 ;;
  vslidedown_vi V22 V10 2 ;;
  vfmacc_vf V6 t3 V26 ;;
  let i__ := ptr_add i_ ((F_ - 1) * (C + F_ - 1)) in
  vfmacc_vf V4 t5 V28 ;;
  let f_ := ptr_add f 2 in
  '(t3, f_) <- fld_add f_ ldf ;;
  vfmacc_vf V6 t4 V28 ;;
  vslidedown_vi V24 V12 2 ;;
  vfmacc_vf V6 t5 V30 ;;
  vfmacc_vf V0 t3 V20 ;;
  vslidedown_vi V26 V14 2 ;;
  '(t4, f_) <- fld_add f_ ldf ;;
  t5 <- fld f_ ;;
  vfmacc_vf V0 t4 V22 ;;
  let o_ := ptr_add o (r * C) in
  let ldo := shl3 C in
  vfmacc_vf V2 t3 V22 ;;
  vslidedown_vi V28 V16 2 ;;
  vfmacc_vf V0 t5 V24 ;;
  vfmacc_vf V2 t4 V24 ;;
  vslidedown_vi V30 V18 2 ;;
  o_ <- vse64_v_add V0 o_ ldo ;;
  vfmacc_vf V4 t3 V24 ;;
  vfmacc_vf V2 t5 V26 ;;
  o_ <- vse64_v_add V2 o_ ldo ;;
  vfmacc_vf V4 t4 V26 ;;
  vfmacc_vf V6 t3 V26 ;;
  vfmacc_vf V4 t5 V28 ;;
  o_ <- vse64_v_add V4 o_ ldo ;;
  vfmacc_vf V6 t4 V28 ;;
  vfmacc_vf V6 t5 V30 ;;
  vse64_v V6 o_ ;;
  ret i__.

(** Lines 36-69: everything of [fconv2d_3x3] before its loop.  The result
    is the loop's initial [i__] and the coefficients [t0 t1 t2]. *)
Definition prologue (o i f C F_ : Z) (block_size_o : Z) : M F (Z * (F * F * F)) :=
  let i_ := i in
  let o_ := o in
  fconv2d_vec_4xC_slice_preload_3x3 i_ C F_ ;;
  let i__ := ptr_add i_ ((F_ - 1) * (C + F_ - 1)) in
  fconv2d_vec_4xC_3x3 o_ i__ f C F_ ;;
  fconv2d_vec_4xC_slice_move_3x3 C F_ ;;
  let i_ := ptr_add i (block_size_o * (C + F_ - 1)) in
  let i__ := ptr_add i_ ((F_ - 1) * (C + F_ - 1)) in
  let ldf := shl3 F_ in
  let f_ := f in
  '(t0, f_) <- fld_add f_ ldf ;;
  '(t1, f_) <- fld_add f_ ldf ;;
  t2 <- fld f_ ;;
  ret (i__, (t0, t1, t2)).

(** Line 77: [for (r = block_size_o; r < R; r += block_size_o)], entered at
    [r].  [fuel] bounds the iterations; the result is the final [r] and
    state. *)
Fixpoint steady_state (o i f R C F_ : Z) (block_size_o ldi ldf : Z)
    (t0 t1 t2 : F) (fuel : nat) (r i__ : Z) (st : state F)
    : option (Z * state F) :=
  if r <? R then
    match fuel with
    | O => None
    | S fuel' =>
        let '(i__', st') :=
          loop_body o i f C F_ block_size_o ldi ldf t0 t1 t2 r i__ st in
        steady_state o i f R C F_ block_size_o ldi ldf t0 t1 t2 fuel'
                     (r + block_size_o) i__' st'
    end
  else Some (r, st).

(** Lines 33-232, with the fuel for the loop. *)
Definition fconv2d_3x3_fuel (fuel : nat) (o i f R C F_ : Z) (st : state F)
    : option (Z * state F) :=
  let block_size_o := 4 in
  let '((i__, (t0, t1, t2)), st1) := prologue o i f C F_ block_size_o st in
  let ldi := shl3 (C + F_ - 1) in
  let ldf := shl3 F_ in
  steady_state o i f R C F_ block_size_o ldi ldf t0 t1 t2 fuel
               block_size_o i__ st1.

(** [fconv2d_3x3 (o, i, f, R, C, F)]: the state it returns in.  [R] units of
    fuel always suffice ([fconv2d_3x3_total]). *)
Definition fconv2d_3x3 (o i f R C F_ : Z) (st : state F) : option (state F) :=
  option_map snd (fconv2d_3x3_fuel (Z.to_nat R) o i f R C F_ st).

End Kernel.

(** ** What the kernel computes, and on which invocations *)

Section Reference.

Context {F : Type} {ops : FloatOps F}.

(** The taps of the 3x3 filter in filter-column-major order: column [j]
    outer, row offset [i] inner. *)
Definition taps : list (Z * Z) :=
  flat_map (fun j => map (fun i => (i, j)) [0; 1; 2]) [0; 1; 2].

(** One multiply-accumulate of the reference for output element [(r, c)]:
    tap [(i, j)] adds [filter[i][j] * input[r+i][c+j]] to the accumulator. *)
Definition ref_step (flt inp : Z -> Z -> F) (r c : Z) (acc : F) (t : Z * Z) : F :=
  fmacc (flt (fst t) (snd t)) (inp (r + fst t) (c + snd t)) acc.

(** The reference of spec section 8 for output element [(r, c)]: the first
    tap initialises the accumulator with a product (section 4.2, no zero
    fill), every later tap is one multiply-accumulate, in the order of
    [taps]. *)
Definition conv_ref (flt inp : Z -> Z -> F) (r c : Z) : F :=
  fold_left (ref_step flt inp r c) (tl taps) (fmul (inp r c) (flt 0 0)).

(** Row-major views of the three buffers in a memory. *)
Definition filter_at (m : memory F) (f : Z) (i j : Z) : F :=
  m (ptr_add f (3 * i + j)).
Definition input_at (m : memory F) (i C : Z) (r c : Z) : F :=
  m (ptr_add i (r * (C + 2) + c)).
Definition output_at (m : memory F) (o C : Z) (r c : Z) : F :=
  m (ptr_add o (r * C + c)).

(** The lanes a unit-stride load at [a] sees. *)
Definition row_lanes (m : memory F) (a : Z) : lanes F :=
  fun l => m (lane_addr a l).

Variable VLMAX : nat.

(** Lane [l] of a register as [vslidedown.vi] reads it. *)
Definition win (x : lanes F) (l : nat) : F :=
  if (l <? VLMAX)%nat then x l else fzero.

(** Lane [l] of an accumulator after the nine steps of a block, from the
    three window rows [x0 x1 x2] under it and the filter [c] (row-major). *)
Definition mac3x3 (c : Z -> F) (x0 x1 x2 : lanes F) (l : nat) : F :=
  fmacc (c 8) (win x2 (l + 2)) (fmacc (c 5) (win x1 (l + 2))
  (fmacc (c 2) (win x0 (l + 2)) (fmacc (c 7) (win x2 (l + 1))
  (fmacc (c 4) (win x1 (l + 1)) (fmacc (c 1) (win x0 (l + 1))
  (fmacc (c 6) (x2 l) (fmacc (c 3) (x1 l) (fmul (x0 l) (c 0))))))))).

(** What the kernel stores at output element [(r, c)], from the memory [m]
    it started in. *)
Definition kernel_val (m : memory F) (i f C : Z) (r : Z) (c : nat) : F :=
  mac3x3 (fun k => m (ptr_add f k))
         (row_lanes m (ptr_add i (r * (C + 2))))
         (row_lanes m (ptr_add i ((r + 1) * (C + 2))))
         (row_lanes m (ptr_add i ((r + 2) * (C + 2)))) c.

End Reference.

(** [a] is one of the [n] doubles of the buffer at [base]. *)
Definition cell (base n a : Z) : Prop :=
  exists k, 0 <= k < n /\ a = ptr_add base k.

(** The byte ranges of two buffers of [n1] and [n2] doubles do not meet. *)
Definition separate (b1 n1 b2 n2 : Z) : Prop :=
  b1 + 8 * n1 <= b2 \/ b2 + 8 * n2 <= b1.

(** The preconditions of spec section 6. *)
Record valid_invocation (o i f R C F_ : Z) : Prop := {
  valid_F : F_ = 3;
  valid_R : 0 < R;
  valid_R4 : R mod 4 = 0;
  valid_C : 1 <= C;
  valid_in : separate o (R * C) i ((R + 2) * (C + 2));
  valid_flt : separate o (R * C) f 9
}.

(** ** Invariants of the row window and of the output *)

Section Invariants.

Context {F : Type} {ops : FloatOps F}.
Variable VLMAX : nat.

(** The register [x] holds input row [r] of the memory [m0]: each lane the
    row load fills ([vsetvli] grants [grant VLMAX (C + F - 1)] of them, all
    [C + 2] when the row fits the register group) has the row's element. *)
Definition holds_row (m0 : memory F) (i C : Z) (x : lanes F) (r : Z) : Prop :=
  forall l, (l < grant VLMAX (C + 3 - 1))%nat ->
            x l = row_lanes m0 (ptr_add i (r * (C + 2))) l.

(** The six window registers hold the input rows [r .. r+5]. *)
Definition window_holds (m0 : memory F) (i C : Z) (rf : vrf F) (r : Z) : Prop :=
  holds_row m0 i C (v8 rf) r /\ holds_row m0 i C (v10 rf) (r + 1) /\
  holds_row m0 i C (v12 rf) (r + 2) /\ holds_row m0 i C (v14 rf) (r + 3) /\
  holds_row m0 i C (v16 rf) (r + 4) /\ holds_row m0 i C (v18 rf) (r + 5).

(** The register [x] holds the whole input row [r] of the memory [m0]:
    lane [c] has the element of column [c], for all [C + 2] columns. *)
Definition holds_whole_row (m0 : memory F) (i C : Z) (x : lanes F) (r : Z) : Prop :=
  forall c, 0 <= c < C + 2 -> x (Z.to_nat c) = input_at m0 i C r c.

(** The six window registers hold the whole input rows [r .. r+5]. *)
Definition window_holds_whole (m0 : memory F) (i C : Z) (rf : vrf F) (r : Z) : Prop :=
  holds_whole_row m0 i C (v8 rf) r /\ holds_whole_row m0 i C (v10 rf) (r + 1) /\
  holds_whole_row m0 i C (v12 rf) (r + 2) /\ holds_whole_row m0 i C (v14 rf) (r + 3) /\
  holds_whole_row m0 i C (v16 rf) (r + 4) /\ holds_whole_row m0 i C (v18 rf) (r + 5).

(** [m] is [m0] with the output rows above [r] stored: every stored lane has
    the kernel's value, every other cell of the memory is as in [m0]. *)
Definition stored_upto (m0 : memory F) (o i f C : Z) (r : Z) (m : memory F) : Prop :=
  (forall r' c, 0 <= r' < r -> (c < grant VLMAX C)%nat ->
     m (ptr_add o (r' * C + Z.of_nat c)) = kernel_val VLMAX m0 i f C r' c) /\
  (forall a, (forall r' c, 0 <= r' < r -> (c < grant VLMAX C)%nat ->
                           a <> ptr_add o (r' * C + Z.of_nat c)) ->
             m a = m0 a).

End Invariants.

(** The addresses of the stores in a log, in order. *)
Definition store_addrs (evs : list event) : list Z :=
  flat_map (fun e => match e with EvStore a => [a] | _ => [] end) evs.

(** The accesses of one call do not depend on the data; they are read off a
    run from the blank state. *)
Section Traces.

Context {F : Type} {ops : FloatOps F}.
Variable VLMAX : nat.

Definition blank : state F :=
  let z : lanes F := fun _ => fzero in
  mkState (fun _ => fzero) (mkVrf z z z z z z z z z z z z z z z z) 0 [].

Definition no_tail : vreg -> nat -> F -> F := fun _ _ x => x.

Definition preload_trace (i C F_ : Z) : list event :=
  log (snd (fconv2d_vec_4xC_slice_preload_3x3 VLMAX no_tail i C F_ blank)).

Definition block_trace (o i f C F_ : Z) : list event :=
  log (snd (fconv2d_vec_4xC_3x3 VLMAX no_tail o i f C F_ blank)).

Definition loop_trace (o i f C F_ r i__ : Z) : list event :=
  log (snd (loop_body VLMAX no_tail o i f C F_ 4 (shl3 (C + F_ - 1)) (shl3 F_)
                      fzero fzero fzero r i__ blank)).

Definition prologue_trace (o i f C F_ : Z) : list event :=
  log (snd (prologue VLMAX no_tail o i f C F_ 4 blank)).

(** Exactly [n] iterations of the loop body from [(r, i__)] on. *)
Fixpoint run_blocks (tail : vreg -> nat -> F -> F) (o i f C F_ : Z)
    (t0 t1 t2 : F) (n : nat) (r i__ : Z) (st : state F) : Z * Z * state F :=
  match n with
  | O => (r, i__, st)
  | S n' =>
      let '(i__', st') :=
        loop_body VLMAX tail o i f C F_ 4 (shl3 (C + F_ - 1)) (shl3 F_)
                  t0 t1 t2 r i__ st in
      run_blocks tail o i f C F_ t0 t1 t2 n' (r + 4) i__' st'
  end.

End Traces.

(** The addresses of [n] consecutive doubles from [a] on, in order. *)
Definition row_addrs (a : Z) (n : nat) : list Z := map (lane_addr a) (seq 0 n).

(** An access that stays where it may: vector loads in the input, scalar
    loads in the filter, stores in the output.  A slide may read the lanes
    [0 .. C+1] its row was loaded into, and [v8] alone also lane [C+2]. *)
Definition in_bounds (o i f R C : Z) (e : event) : Prop :=
  match e with
  | EvLoad a => cell i ((R + 2) * (C + 2)) a
  | EvFld a => cell f 9 a
  | EvStore a => cell o (R * C) a
  | EvLane r l => Z.of_nat l <= C + 2 /\ (Z.of_nat l = C + 2 -> r = V8)
  end.

(** The same with every slide inside the [C + F - 1] loaded lanes. *)
Definition in_bounds_strict (o i f R C : Z) (e : event) : Prop :=
  match e with
  | EvLane r l => Z.of_nat l < C + 2
  | _ => in_bounds o i f R C e
  end.

(** The input cursor [i__] at the head of the loop iteration for row [r]. *)
Definition cursor (i C r : Z) : Z := ptr_add i ((r + 2) * (C + 2)).

Section KernelTrace.

Context {F : Type} {ops : FloatOps F}.
Variable VLMAX : nat.

(** The accesses of [n] loop iterations from row [r] on. *)
Fixpoint loops_trace (o i f C : Z) (n : nat) (r : Z) : list event :=
  match n with
  | O => []
  | S n' => loop_trace (F := F) VLMAX o i f C 3 r (cursor i C r)
            ++ loops_trace o i f C n' (r + 4)
  end.

(** The accesses of a whole call. *)
Definition kernel_trace (o i f R C : Z) : list event :=
  prologue_trace (F := F) VLMAX o i f C 3
  ++ loops_trace o i f C (Z.to_nat (R / 4 - 1)) 4.

(** The state at the head of the loop iteration for row [r]: the cursor,
    the two rows the slide is about to promote, and the output so far. *)
Definition loop_inv (m0 : memory F) (o i f C : Z) (r i__ : Z) (st : state F) : Prop :=
  i__ = cursor i C r /\
  holds_row VLMAX m0 i C (v16 (vregs st)) r /\
  holds_row VLMAX m0 i C (v18 (vregs st)) (r + 1) /\
  stored_upto VLMAX m0 o i f C r (mem st).

(** The state when block [k] has been computed: after the bootstrap and the
    first call of the block helper for [k = 0], after [k] loop iterations
    otherwise. *)
Definition block_end (tail : vreg -> nat -> F -> F) (o i f C : Z)
    (st : state F) (k : nat) : state F :=
  match k with
  | O =>
      snd (fconv2d_vec_4xC_3x3 VLMAX tail o
             (ptr_add i ((3 - 1) * (C + 3 - 1))) f C 3
             (snd (fconv2d_vec_4xC_slice_preload_3x3 VLMAX tail i C 3 st)))
  | S _ =>
      let p := prologue VLMAX tail o i f C 3 4 st in
      snd (run_blocks VLMAX tail o i f C 3
             (fst (fst (snd (fst p)))) (snd (fst (snd (fst p))))
             (snd (snd (fst p))) k 4 (fst (fst p)) (snd p))
  end.

(** The state when the processing of block [k] starts: after the bootstrap
    load for [k = 0], at the head of the loop iteration of the block
    otherwise (after the lines before the loop and [k - 1] iterations). *)
Definition block_start (tail : vreg -> nat -> F -> F) (o i f C : Z)
    (st : state F) (k : nat) : state F :=
  match k with
  | O => snd (fconv2d_vec_4xC_slice_preload_3x3 VLMAX tail i C 3 st)
  | S k' =>
      let p := prologue VLMAX tail o i f C 3 4 st in
      snd (run_blocks VLMAX tail o i f C 3
             (fst (fst (snd (fst p)))) (snd (fst (snd (fst p))))
             (snd (snd (fst p))) k' 4 (fst (fst p)) (snd p))
  end.

End KernelTrace.

(** ** IEEE-754 binary64 *)

Module Binary64.

Definition prec : Z := 53.
Definition emax : Z := 1024.

Definition b64_mul : spec_float -> spec_float -> spec_float := SFmul prec emax.

(** Fused multiply-add [x * y + z], rounded once to nearest-even. *)
Definition b64_fma (x y z : spec_float) : spec_float :=
  match x, y with
  | S754_nan, _ | _, S754_nan => S754_nan
  | S754_infinity _, S754_zero _ | S754_zero _, S754_infinity _ => S754_nan
  | S754_infinity sx, S754_infinity sy
  | S754_infinity sx, S754_finite sy _ _
  | S754_finite sx _ _, S754_infinity sy =>
      match z with
      | S754_nan => S754_nan
      | S754_infinity sz => if Bool.eqb (xorb sx sy) sz then z else S754_nan
      | _ => S754_infinity (xorb sx sy)
      end
  | S754_finite sx _ _, S754_zero sy
  | S754_zero sx, S754_finite sy _ _
  | S754_zero sx, S754_zero sy =>
      match z with
      | S754_nan => S754_nan
      | S754_zero sz => S754_zero (andb (xorb sx sy) sz)
      | _ => z
      end
  | S754_finite sx mx ex, S754_finite sy my ey =>
      match z with
      | S754_nan => S754_nan
      | S754_infinity _ => z
      | S754_zero _ => SFmul prec emax x y
      | S754_finite sz mz ez =>
          let exy := ex + ey in
          let e := Z.min exy ez in
          binary_normalize prec emax
            (cond_Zopp (xorb sx sy) (Zpos (fst (shl_align (mx * my) exy e)))
             + cond_Zopp sz (Zpos (fst (shl_align mz ez e))))
            e false
      end
  end.

#[global] Instance b64_ops : FloatOps spec_float := {
  fzero := S754_zero false;
  fmul := b64_mul;
  fmacc := b64_fma
}.

(** The double nearest to the integer [n]. *)
Definition of_Z (n : Z) : spec_float := binary_normalize prec emax n 0 false.

(** [2 ^ e] as a double, for [-1074 <= e < 1024]. *)
Definition pow2 (e : Z) : spec_float := binary_normalize prec emax 1 e false.

(** ** Scaling by a power of two

    What it means that a scaling by [2^d] overflows or underflows nowhere
    in a computation. *)

(** [x * 2^d] without rounding: the exponent of a finite [x] moved by [d]. *)
Definition scale (d : Z) (x : spec_float) : spec_float :=
  match x with
  | S754_finite s m e => S754_finite s m (e + d)
  | _ => x
  end.

(** The value [m * 2^e] and its multiple by [2^d] are in the normal range:
    of magnitude at least [2^-1022] and below [2^1023]. *)
Definition in_range (d : Z) (m e : Z) : bool :=
  let z := Zdigits2 m + e in
  (-1021 <=? z) && (z <=? 1023) && (-1021 <=? z + d) && (z + d <=? 1023).

(** A finite [x] is a normal double in canonical form, and so is its
    multiple by [2^d]. *)
Definition scalable (d : Z) (x : spec_float) : bool :=
  match x with
  | S754_finite _ m e =>
      (Zdigits2 (Zpos m) =? 53) && (-1074 <=? e) && (e <=? 971)
      && (-1074 <=? e + d) && (e + d <=? 971)
  | _ => true
  end.

(** The exact product of two finite numbers is in range. *)
Definition mul_in_range (d : Z) (x y : spec_float) : bool :=
  match x, y with
  | S754_finite _ mx ex, S754_finite _ my ey =>
      in_range d (Zpos (mx * my)) (ex + ey)
  | _, _ => true
  end.

(** The exact value of [x * y + z], for finite numbers, is zero or in
    range. *)
Definition fma_in_range (d : Z) (x y z : spec_float) : bool :=
  match x, y with
  | S754_finite sx mx ex, S754_finite sy my ey =>
      match z with
      | S754_zero _ => in_range d (Zpos (mx * my)) (ex + ey)
      | S754_finite sz mz ez =>
          let exy := ex + ey in
          let e := Z.min exy ez in
          let M := cond_Zopp (xorb sx sy) (Zpos (fst (shl_align (mx * my) exy e)))
                   + cond_Zopp sz (Zpos (fst (shl_align mz ez e))) in
          (M =? 0) || in_range d M e
      | _ => true
      end
  | _, _ => true
  end.

(** Every fused multiply-add of the accumulation of output element
    [(r, c)] over the taps [ts], from the accumulator [acc] on, has an exact
    value that is zero or in range. *)
Fixpoint steps_in_range (d : Z) (flt inp : Z -> Z -> spec_float) (r c : Z)
    (ts : list (Z * Z)) (acc : spec_float) : bool :=
  match ts with
  | [] => true
  | t :: ts' =>
      fma_in_range d (flt (fst t) (snd t)) (inp (r + fst t) (c + snd t)) acc
      && steps_in_range d flt inp r c ts' (ref_step flt inp r c acc t)
  end.

(** No step of the accumulation of output element [(r, c)] overflows or
    underflows, with or without a scaling by [2^d]: the exact first product
    and the exact value of every fused multiply-add are zero or in range. *)
Definition accumulation_in_range (d : Z) (flt inp : Z -> Z -> spec_float)
    (r c : Z) : bool :=
  mul_in_range d (inp r c) (flt 0 0)
  && steps_in_range d flt inp r c (tl taps) (fmul (inp r c) (flt 0 0)).

(** [n] right shifts of a rounding record. *)
Definition shr_n (n : Z) (r : shr_record) : shr_record :=
  match n with Zpos p => iter_pos shr_1 p r | _ => r end.

End Binary64.

(** ** Buffers in memory *)

(** The memory holding the doubles [xs] from byte address [base] on, and
    [d] everywhere else. *)
Definition mem_of {F : Type} (d : F) (base : Z) (xs : list F) : memory F :=
  fun a =>
    if (base <=? a) && ((a - base) mod 8 =? 0)
    then nth (Z.to_nat ((a - base) / 8)) xs d
    else d.

(** ** Concrete invocations on binary64 data *)

Module Example.

Import Binary64.

(** The input at byte 0, the filter at byte 4096, the output at byte 8192. *)
Definition i_ptr : Z := 0.
Definition f_ptr : Z := 4096.
Definition o_ptr : Z := 8192.

Definition image (inp flt out : list spec_float) : memory spec_float :=
  fun a =>
    if a <? f_ptr then mem_of S754_nan i_ptr inp a
    else if a <? o_ptr then mem_of S754_nan f_ptr flt a
    else mem_of S754_nan o_ptr out a.

(** Vector registers full of NaNs, vector length 0, empty log. *)
Definition start (inp flt out : list spec_float) : state spec_float :=
  let z : lanes spec_float := fun _ => S754_nan in
  mkState (image inp flt out) (mkVrf z z z z z z z z z z z z z z z z) 0 [].

(** Tail lanes left undisturbed, and tail lanes overwritten with ones (a
    NaN). *)
Definition keep : vreg -> nat -> spec_float -> spec_float := fun _ _ x => x.
Definition ones : vreg -> nat -> spec_float -> spec_float := fun _ _ _ => S754_nan.

Definition one : spec_float := of_Z 1.
Definition zero : spec_float := S754_zero false.

(** A 4 x 8 invocation on ones, with a zeroed and with a dirty output
    buffer; a 8 x 4 and a 12 x 4 invocation on the integers 1, 2, ... with
    the filter 1 .. 9; the smallest invocation, 4 x 1. *)
Definition wide : state spec_float :=
  start (repeat one 60) (repeat one 9) (repeat zero 32).
Definition wide_dirty : state spec_float :=
  start (repeat one 60) (repeat one 9) (repeat one 32).
Definition small : state spec_float :=
  start (map (fun k => of_Z (Z.of_nat k)) (seq 1 60))
        (map (fun k => of_Z (Z.of_nat k)) (seq 1 9)) (repeat zero 32).
Definition tall : state spec_float :=
  start (map (fun k => of_Z (Z.of_nat k)) (seq 1 84))
        (map (fun k => of_Z (Z.of_nat k)) (seq 1 9)) (repeat zero 48).
Definition smallest : state spec_float :=
  start (map (fun k => of_Z (Z.of_nat k)) (seq 1 18))
        (map (fun k => of_Z (Z.of_nat k)) (seq 1 9)) (repeat zero 4).

(** Scaling by two: a filter whose first tap is [2^1023], on an input of
    quarters, and an input of [2^1023]s under a filter whose first tap is a
    half. *)
Definition two : spec_float := of_Z 2.
Definition big_filter : list spec_float := pow2 1023 :: repeat zero 8.
Definition big_tap : state spec_float :=
  start (repeat (pow2 (-2)) 18) big_filter (repeat zero 4).
Definition big_tap_scaled : state spec_float :=
  start (repeat (pow2 (-2)) 18) (map (b64_mul two) big_filter) (repeat zero 4).
Definition half_filter : list spec_float := pow2 (-1) :: repeat zero 8.
Definition big_input : state spec_float :=
  start (repeat (pow2 1023) 18) half_filter (repeat zero 4).
Definition big_input_scaled : state spec_float :=
  start (map (b64_mul two) (repeat (pow2 1023) 18)) half_filter (repeat zero 4).
Definition smallest_filter_scaled : state spec_float :=
  start (map (fun k => of_Z (Z.of_nat k)) (seq 1 18))
        (map (fun k => b64_mul two (of_Z (Z.of_nat k))) (seq 1 9)) (repeat zero 4).
Definition smallest_input_scaled : state spec_float :=
  start (map (fun k => b64_mul two (of_Z (Z.of_nat k))) (seq 1 18))
        (map (fun k => of_Z (Z.of_nat k)) (seq 1 9)) (repeat zero 4).

(** Scaling by a half: a filter whose first tap is [(2^52 + 1) * 2^-1074],
    just above the least normal double, on an input of twos. *)
Definition tiny_filter : list spec_float :=
  S754_finite false 4503599627370497 (-1074) :: repeat zero 8.
Definition tiny_tap : state spec_float :=
  start (repeat two 18) tiny_filter (repeat zero 4).
Definition tiny_tap_scaled : state spec_float :=
  start (repeat two 18) (map (b64_mul (pow2 (-1))) tiny_filter) (repeat zero 4).

(** The 4 x 8 invocation on ones with a dirty output buffer, its filter
    doubled. *)
Definition wide_dirty_scaled : state spec_float :=
  start (repeat one 60) (map (b64_mul two) (repeat one 9)) (repeat one 32).

End Example.

(** ** Further views of a call *)

(** The output rows a call computes: [R] rounded up to a multiple of the
    block size, and one block at least. *)
Definition rows_done (R : Z) : Z := 4 * Z.max 1 ((R + 3) / 4).

(** The addresses of the vector loads in a log, in order. *)
Definition load_addrs (evs : list event) : list Z :=
  flat_map (fun e => match e with EvLoad a => [a] | _ => [] end) evs.

(** The addresses of the scalar loads in a log, in order. *)
Definition fld_addrs (evs : list event) : list Z :=
  flat_map (fun e => match e with EvFld a => [a] | _ => [] end) evs.

(** The cells of column [j] of the row-major 3x3 filter at [f], top down. *)
Definition filter_column (f j : Z) : list Z :=
  [ptr_add f j; ptr_add f (3 + j); ptr_add f (6 + j)].

(** The padded input as the register group sees it: the columns past the
    group's [VLMAX] lanes are not held, and a slide reads them as zero. *)
Definition input_in_group {F : Type} {ops : FloatOps F} (VLMAX : nat)
    (m : memory F) (i C : Z) (r c : Z) : F :=
  if c <? Z.of_nat VLMAX then input_at m i C r c else fzero.

(** The six window rows as the block helper finds them: rows 0 and 1 in the
    registers [v8] and [v10], rows 2 to 5 in the memory from [i] on. *)
Definition window_at {F : Type} (st : state F) (i C : Z) (r c : Z) : F :=
  if r =? 0 then v8 (vregs st) (Z.to_nat c)
  else if r =? 1 then v10 (vregs st) (Z.to_nat c)
  else mem st (ptr_add i ((r - 2) * (C + 2) + c)).

(** The filter as a loop iteration uses it: column 0 from the three
    coefficients [t0 t1 t2] loaded before the loop, columns 1 and 2 from the
    memory. *)
Definition filter_with_column_0 {F : Type} (t0 t1 t2 : F) (m : memory F)
    (f : Z) (a b : Z) : F :=
  if b =? 0 then (if a =? 0 then t0 else if a =? 1 then t1 else t2)
  else filter_at m f a b.

(** The six window rows as a loop iteration finds them: rows 0 and 1 in the
    registers [v16] and [v18] of the block before, rows 2 to 5 in the memory
    from the cursor [i__] on. *)
Definition slid_window_at {F : Type} (st : state F) (i__ C : Z) (r c : Z) : F :=
  if r =? 0 then v16 (vregs st) (Z.to_nat c)
  else if r =? 1 then v18 (vregs st) (Z.to_nat c)
  else mem st (ptr_add i__ ((r - 2) * (C + 2) + c)).

(** Where the output may lie for the kernel to stream over the input: it
    starts at most [2 * C + 12] elements after the input does (at the input
    itself, for instance, or anywhere before it), or after the input's end.
    The row stores of a block then never reach an input row that is still to
    be loaded. *)
Definition output_behind_input (o i R C : Z) : Prop :=
  o <= ptr_add i (2 * C + 12) \/ ptr_add i ((R + 2) * (C + 2)) <= o.

(** The state at the head of the loop iteration for row [r] when the output
    may overwrite consumed input: the cursor, the two rows kept in [v16] and
    [v18], the input rows not loaded yet and the filter as they were in
    [m0], and the output rows above [r] with their reference values. *)
Definition streaming_inv {F : Type} {ops : FloatOps F} (VLMAX : nat)
    (m0 : memory F) (o i f R C : Z) (r i__ : Z) (st : state F) : Prop :=
  i__ = cursor i C r /\
  holds_row VLMAX m0 i C (v16 (vregs st)) r /\
  holds_row VLMAX m0 i C (v18 (vregs st)) (r + 1) /\
  (forall k, (r + 2) * (C + 2) <= k < (R + 2) * (C + 2) ->
     mem st (ptr_add i k) = m0 (ptr_add i k)) /\
  (forall k, 0 <= k < 9 -> mem st (ptr_add f k) = m0 (ptr_add f k)) /\
  (forall r' c, 0 <= r' < r -> 0 <= c < C ->
     mem st (ptr_add o (r' * C + c)) =
     conv_ref (filter_at m0 f) (input_at m0 i C) r' c).

(** * Lemmas *)

(** ** Arithmetic of addresses and vector lengths *)

Lemma shl3_eq x : shl3 x = 8 * x.
Proof. unfold shl3. rewrite Z.shiftl_mul_pow2 by lia. change (2 ^ 3) with 8. lia. Qed.

Lemma lane_addr_ptr_add a l : lane_addr a l = ptr_add a (Z.of_nat l).
Proof. reflexivity. Qed.

Lemma grant_nonneg VLMAX c :
  0 <= c -> grant VLMAX c = Nat.min (Z.to_nat c) VLMAX.
Proof. intros H. unfold grant. destruct (Z.ltb_spec c 0); [lia | reflexivity]. Qed.

Lemma grant_le VLMAX c : (grant VLMAX c <= VLMAX)%nat.
Proof. unfold grant. destruct (c <? 0); lia. Qed.

Lemma grant_fits VLMAX c :
  0 <= c -> (Z.to_nat c <= VLMAX)%nat -> grant VLMAX c = Z.to_nat c.
Proof. intros. rewrite grant_nonneg by assumption. lia. Qed.

(** A lane the slide can reach from a stored lane was loaded with its row. *)
Lemma grant_window VLMAX C l j :
  0 <= C -> (l < grant VLMAX C)%nat -> (j <= 2)%nat -> (l + j < VLMAX)%nat ->
  (l + j < grant VLMAX (C + 3 - 1))%nat.
Proof. intros. rewrite grant_nonneg in * by lia. lia. Qed.

Section MachineLemmas.

Context {F : Type} {ops : FloatOps F}.
Variable VLMAX : nat.
Variable tail : vreg -> nat -> F -> F.

Lemma vec_op_lt d n f old l :
  (l < n)%nat -> vec_op tail d n f old l = f l.
Proof. intros H. unfold vec_op. apply Nat.ltb_lt in H. now rewrite H. Qed.

Lemma store_lanes_hit (m : memory F) a x n l :
  (l < n)%nat -> store_lanes m a x n (lane_addr a l) = x l.
Proof.
  induction n as [|n IH]; intros Hl; [lia|].
  cbn [store_lanes]. destruct (Z.eqb_spec (lane_addr a l) (lane_addr a n)) as [E|E].
  - unfold lane_addr in E. assert (l = n) by lia. now subst.
  - apply IH. unfold lane_addr in E. destruct (Nat.eq_dec l n); [subst; congruence | lia].
Qed.

Lemma store_lanes_miss (m : memory F) a x n b :
  (forall l, (l < n)%nat -> b <> lane_addr a l) ->
  store_lanes m a x n b = m b.
Proof.
  induction n as [|n IH]; intros H; [reflexivity|].
  cbn [store_lanes]. destruct (Z.eqb_spec b (lane_addr a n)) as [E|E].
  - exfalso. apply (H n); [lia | exact E].
  - apply IH. intros l Hl. apply H. lia.
Qed.

End MachineLemmas.

(** ** Symbolic execution of the statement sequences *)

(** Unfolds the monad and the instructions, nothing else. *)
Ltac run :=
  cbv beta iota zeta delta
    [fconv2d_vec_4xC_3x3 fconv2d_vec_4xC_slice_move_3x3
     fconv2d_vec_4xC_slice_preload_3x3 loop_body prologue
     bind ret vsetvli vle64_v vle64_v_add vse64_v vse64_v_add fld fld_add
     vfmul_vf vfmacc_vf vslidedown_vi vmv_v_v vec_write emit
     mem vregs vl log rd wr snd fst vreg_eqb vreg_idx Nat.eqb
     v0 v2 v4 v6 v8 v10 v12 v14 v16 v18 v20 v22 v24 v26 v28 v30].

Ltac expose st :=
  destruct st as [?m [?a0 ?a2 ?a4 ?a6 ?a8 ?a10 ?a12 ?a14
                      ?a16 ?a18 ?a20 ?a22 ?a24 ?a26 ?a28 ?a30] ?n ?lg].

Section BlockLemmas.

Context {F : Type} {ops : FloatOps F}.
Variable VLMAX : nat.
Variable tail : vreg -> nat -> F -> F.

(** Decides the slide guard for lane [l + j] and keeps it as an equation. *)
Ltac slide_guard l j :=
  let P := fresh "P" in
  let E := fresh "E" in
  destruct (Nat.ltb_spec (l + j) VLMAX) as [P|P];
  [ assert (E : (l + j <? VLMAX)%nat = true) by (apply Nat.ltb_lt; exact P)
  | assert (E : (l + j <? VLMAX)%nat = false) by (apply Nat.ltb_ge; exact P) ].

(** Resolves the lane of a register expression under the decided guards. *)
Ltac lanes :=
  repeat (first [ rewrite vec_op_lt by lia
                | match goal with
                  | E : (_ <? VLMAX)%nat = _ |- _ => rewrite E
                  end ];
          cbv beta iota).

Ltac addr_eq :=
  unfold ptr_add, row_lanes, lane_addr; rewrite ?shl3_eq;
  repeat (f_equal; try lia).

(** Lane [l] of an accumulator on the left against [mac3x3] on the right. *)
Ltac acc_lane C l HC Hl :=
  pose proof (grant_window VLMAX C l 1 HC Hl ltac:(lia));
  pose proof (grant_window VLMAX C l 2 HC Hl ltac:(lia));
  pose proof (grant_window VLMAX C l 0 HC Hl ltac:(lia));
  pose proof (grant_le VLMAX C);
  unfold mac3x3, win;
  slide_guard l 1%nat; slide_guard l 2%nat; try (exfalso; lia);
  lanes; addr_eq.

Section Block.

Variables (o i f C : Z) (st : state F).

Let st' := snd (fconv2d_vec_4xC_3x3 VLMAX tail o i f C 3 st).
Let ldi := shl3 (C + 3 - 1).
Let ldo := shl3 C.
Let flt := fun k => mem st (ptr_add f k).
Let x0 := v8 (vregs st).
Let x1 := v10 (vregs st).
Let x2 := row_lanes (mem st) i.
Let x3 := row_lanes (mem st) (i + ldi).
Let x4 := row_lanes (mem st) (i + ldi + ldi).
Let x5 := row_lanes (mem st) (i + ldi + ldi + ldi).

Lemma block_vl : vl st' = grant VLMAX C.
Proof. subst st'. expose st. run. reflexivity. Qed.

Lemma block_mem :
  mem st' =
  store_lanes (store_lanes (store_lanes (store_lanes (mem st)
    o (v0 (vregs st')) (grant VLMAX C))
    (o + ldo) (v2 (vregs st')) (grant VLMAX C))
    (o + ldo + ldo) (v4 (vregs st')) (grant VLMAX C))
    (o + ldo + ldo + ldo) (v6 (vregs st')) (grant VLMAX C).
Proof. subst st' ldo. expose st. run. reflexivity. Qed.

Lemma block_log : log st' = log st ++ block_trace VLMAX o i f C 3.
Proof.
  subst st'. unfold block_trace, blank. expose st. run.
  cbn [app]. rewrite <- ?app_assoc. reflexivity.
Qed.

Lemma block_v8 : v8 (vregs st') = v8 (vregs st).
Proof. subst st'. expose st. run. reflexivity. Qed.

Lemma block_v10 : v10 (vregs st') = v10 (vregs st).
Proof. subst st'. expose st. run. reflexivity. Qed.

Lemma block_window l :
  (l < grant VLMAX (C + 3 - 1))%nat ->
  v12 (vregs st') l = x2 l /\ v14 (vregs st') l = x3 l /\
  v16 (vregs st') l = x4 l /\ v18 (vregs st') l = x5 l.
Proof.
  intros Hl. subst st' x2 x3 x4 x5 ldi. expose st. run.
  rewrite !vec_op_lt by lia. unfold row_lanes. cbv [mem]. auto.
Qed.

Lemma block_v0 l :
  0 <= C -> (l < grant VLMAX C)%nat -> v0 (vregs st') l = mac3x3 VLMAX flt x0 x1 x2 l.
Proof.
  intros HC Hl. subst st' flt x0 x1 x2 ldi. expose st. run.
  acc_lane C l HC Hl.
Qed.

Lemma block_v2 l :
  0 <= C -> (l < grant VLMAX C)%nat -> v2 (vregs st') l = mac3x3 VLMAX flt x1 x2 x3 l.
Proof.
  intros HC Hl. subst st' flt x1 x2 x3 ldi. expose st. run.
  acc_lane C l HC Hl.
Qed.

Lemma block_v4 l :
  0 <= C -> (l < grant VLMAX C)%nat -> v4 (vregs st') l = mac3x3 VLMAX flt x2 x3 x4 l.
Proof.
  intros HC Hl. subst st' flt x2 x3 x4 ldi. expose st. run.
  acc_lane C l HC Hl.
Qed.

Lemma block_v6 l :
  0 <= C -> (l < grant VLMAX C)%nat -> v6 (vregs st') l = mac3x3 VLMAX flt x3 x4 x5 l.
Proof.
  intros HC Hl. subst st' flt x3 x4 x5 ldi. expose st. run.
  acc_lane C l HC Hl.
Qed.

End Block.

End BlockLemmas.

(** ** Bootstrap, slide and the loop body *)

Section Steps.

Context {F : Type} {ops : FloatOps F}.
Variable VLMAX : nat.
Variable tail : vreg -> nat -> F -> F.

Lemma preload_mem i C F_ (st : state F) :
  mem (snd (fconv2d_vec_4xC_slice_preload_3x3 VLMAX tail i C F_ st)) = mem st.
Proof. expose st. run. reflexivity. Qed.

Lemma preload_window i C F_ (st : state F) l :
  (l < grant VLMAX (C + F_ - 1))%nat ->
  let st' := snd (fconv2d_vec_4xC_slice_preload_3x3 VLMAX tail i C F_ st) in
  v8 (vregs st') l = row_lanes (mem st) i l /\
  v10 (vregs st') l = row_lanes (mem st) (i + shl3 (C + F_ - 1)) l.
Proof.
  intros Hl. expose st. run. rewrite !vec_op_lt by lia. split; reflexivity.
Qed.

Lemma preload_log i C F_ (st : state F) :
  log (snd (fconv2d_vec_4xC_slice_preload_3x3 VLMAX tail i C F_ st)) =
  log st ++ preload_trace VLMAX i C F_.
Proof.
  unfold preload_trace, blank. expose st. run.
  cbn [app]. rewrite <- ?app_assoc. reflexivity.
Qed.

Lemma slide_mem C F_ (st : state F) :
  mem (snd (fconv2d_vec_4xC_slice_move_3x3 VLMAX tail C F_ st)) = mem st.
Proof. expose st. run. reflexivity. Qed.

Lemma slide_log C F_ (st : state F) :
  log (snd (fconv2d_vec_4xC_slice_move_3x3 VLMAX tail C F_ st)) = log st.
Proof. expose st. run. reflexivity. Qed.

Lemma slide_window C F_ (st : state F) l :
  (l < grant VLMAX (C + F_ - 1))%nat ->
  let st' := snd (fconv2d_vec_4xC_slice_move_3x3 VLMAX tail C F_ st) in
  v8 (vregs st') l = v16 (vregs st) l /\ v10 (vregs st') l = v18 (vregs st) l.
Proof.
  intros Hl. expose st. run. rewrite !vec_op_lt by lia. split; reflexivity.
Qed.

Lemma slide_keeps C F_ (st : state F) :
  let st' := snd (fconv2d_vec_4xC_slice_move_3x3 VLMAX tail C F_ st) in
  v12 (vregs st') = v12 (vregs st) /\ v14 (vregs st') = v14 (vregs st) /\
  v16 (vregs st') = v16 (vregs st) /\ v18 (vregs st') = v18 (vregs st).
Proof. expose st. run. repeat split; reflexivity. Qed.

(** The loop body is the slide followed by the block helper, when its
    column-0 coefficients are the ones in memory: same memory, same register
    file (every lane of every register, as the same expression over the
    floating-point operations), same vector length. *)
Lemma loop_body_refines o i f C F_ bs r i__ (st : state F) :
  let ldf := shl3 F_ in
  let a := snd (loop_body VLMAX tail o i f C F_ bs (shl3 (C + F_ - 1)) ldf
                          (mem st f) (mem st (f + ldf)) (mem st (f + ldf + ldf))
                          r i__ st) in
  let b := snd (fconv2d_vec_4xC_3x3 VLMAX tail (ptr_add o (r * C)) i__ f C F_
                  (snd (fconv2d_vec_4xC_slice_move_3x3 VLMAX tail C F_ st))) in
  mem a = mem b /\ vregs a = vregs b /\ vl a = vl b.
Proof. expose st. run. repeat split; reflexivity. Qed.

Lemma loop_body_cursor o i f C F_ bs ldi ldf t0 t1 t2 r i__ (st : state F) :
  fst (loop_body VLMAX tail o i f C F_ bs ldi ldf t0 t1 t2 r i__ st) =
  ptr_add (ptr_add i ((r + bs) * (C + F_ - 1))) ((F_ - 1) * (C + F_ - 1)).
Proof. expose st. run. reflexivity. Qed.

Lemma loop_body_log o i f C F_ t0 t1 t2 r i__ (st : state F) :
  log (snd (loop_body VLMAX tail o i f C F_ 4 (shl3 (C + F_ - 1)) (shl3 F_)
                      t0 t1 t2 r i__ st)) =
  log st ++ loop_trace VLMAX o i f C F_ r i__.
Proof.
  unfold loop_trace, blank. expose st. run.
  cbn [app]. rewrite <- ?app_assoc. reflexivity.
Qed.

(** The prologue: bootstrap, first block, slide, then the three column-0
    coefficients. *)
Lemma prologue_state o i f C F_ bs (st : state F) :
  let sP := snd (fconv2d_vec_4xC_slice_preload_3x3 VLMAX tail i C F_ st) in
  let sB := snd (fconv2d_vec_4xC_3x3 VLMAX tail o
                   (ptr_add i ((F_ - 1) * (C + F_ - 1))) f C F_ sP) in
  let sS := snd (fconv2d_vec_4xC_slice_move_3x3 VLMAX tail C F_ sB) in
  let ldf := shl3 F_ in
  let p := prologue VLMAX tail o i f C F_ bs st in
  fst p = (ptr_add (ptr_add i (bs * (C + F_ - 1))) ((F_ - 1) * (C + F_ - 1)),
           (mem sB f, mem sB (f + ldf), mem sB (f + ldf + ldf))) /\
  mem (snd p) = mem sB /\ vregs (snd p) = vregs sS /\ vl (snd p) = vl sS.
Proof. expose st. run. repeat split; reflexivity. Qed.

Lemma prologue_log o i f C F_ (st : state F) :
  log (snd (prologue VLMAX tail o i f C F_ 4 st)) =
  log st ++ prologue_trace VLMAX o i f C F_.
Proof.
  unfold prologue_trace, blank. expose st. run.
  cbn [app]. rewrite <- ?app_assoc. reflexivity.
Qed.

End Steps.

(** ** One block of four output rows *)

Lemma out_index_inj C r1 c1 r2 c2 :
  0 <= c1 < C -> 0 <= c2 < C -> r1 * C + c1 = r2 * C + c2 -> r1 = r2 /\ c1 = c2.
Proof.
  intros H1 H2 E.
  assert (r1 = r2) by nia. subst. lia.
Qed.

Section Block4.

Context {F : Type} {ops : FloatOps F}.
Variable VLMAX : nat.

Lemma mac3x3_ext (c1 c2 : Z -> F) (x0 x1 x2 y0 y1 y2 : lanes F) l :
  (forall k, 0 <= k < 9 -> c1 k = c2 k) ->
  (forall j, (j <= 2)%nat -> (l + j < VLMAX)%nat ->
     x0 (l + j)%nat = y0 (l + j)%nat /\ x1 (l + j)%nat = y1 (l + j)%nat /\
     x2 (l + j)%nat = y2 (l + j)%nat) ->
  (l < VLMAX)%nat ->
  mac3x3 VLMAX c1 x0 x1 x2 l = mac3x3 VLMAX c2 y0 y1 y2 l.
Proof.
  intros Hc Hx Hl. unfold mac3x3, win.
  rewrite !Hc by lia.
  destruct (Hx 0%nat ltac:(lia) ltac:(lia)) as (A0 & A1 & A2).
  rewrite Nat.add_0_r in A0, A1, A2. rewrite A0, A1, A2.
  destruct (Nat.ltb_spec (l + 1) VLMAX) as [P1|P1];
    destruct (Nat.ltb_spec (l + 2) VLMAX) as [P2|P2]; try lia.
  - destruct (Hx 1%nat ltac:(lia) P1) as (B0 & B1 & B2).
    destruct (Hx 2%nat ltac:(lia) P2) as (D0 & D1 & D2).
    now rewrite B0, B1, B2, D0, D1, D2.
  - destruct (Hx 1%nat ltac:(lia) P1) as (B0 & B1 & B2).
    now rewrite B0, B1, B2.
  - reflexivity.
Qed.

Variable tail : vreg -> nat -> F -> F.
Variables (o i f R C : Z).
Variable m0 : memory F.

Hypothesis HC : 1 <= C.
Hypothesis Hin : separate o (R * C) i ((R + 2) * (C + 2)).
Hypothesis Hflt : separate o (R * C) f 9.

Lemma vlc_le : Z.of_nat (grant VLMAX C) <= C.
Proof. rewrite grant_nonneg by lia. lia. Qed.

Lemma vlw_le : Z.of_nat (grant VLMAX (C + 3 - 1)) <= C + 2.
Proof. rewrite grant_nonneg by lia. lia. Qed.

Lemma vlc_vlw : (grant VLMAX C <= grant VLMAX (C + 3 - 1))%nat.
Proof. rewrite !grant_nonneg by lia. lia. Qed.

(** Reads of the input and of the filter see [m0] as long as only output
    rows have been stored. *)
Lemma frame_input r m k :
  stored_upto VLMAX m0 o i f C r m -> r <= R ->
  0 <= k < (R + 2) * (C + 2) -> m (ptr_add i k) = m0 (ptr_add i k).
Proof.
  intros [_ Hf] Hr Hk. apply Hf. intros r' c Hr' Hc E.
  pose proof vlc_le. unfold ptr_add in E.
  assert (0 <= r' * C + Z.of_nat c < R * C) by nia.
  destruct Hin; lia.
Qed.

Lemma frame_filter r m k :
  stored_upto VLMAX m0 o i f C r m -> r <= R ->
  0 <= k < 9 -> m (ptr_add f k) = m0 (ptr_add f k).
Proof.
  intros [_ Hf] Hr Hk. apply Hf. intros r' c Hr' Hc E.
  pose proof vlc_le. unfold ptr_add in E.
  assert (0 <= r' * C + Z.of_nat c < R * C) by nia.
  destruct Hflt; lia.
Qed.

(** The four stores of a block. *)
Lemma block_stores_hit (m : memory F) a (y0 y1 y2 y3 : lanes F) n j l :
  Z.of_nat n <= C -> (l < n)%nat -> 0 <= j < 4 ->
  store_lanes (store_lanes (store_lanes (store_lanes m
    a y0 n) (a + shl3 C) y1 n) (a + shl3 C + shl3 C) y2 n)
    (a + shl3 C + shl3 C + shl3 C) y3 n (ptr_add a (j * C + Z.of_nat l)) =
  (if j =? 0 then y0 else if j =? 1 then y1 else if j =? 2 then y2 else y3) l.
Proof.
  intros Hn Hl Hj. rewrite !shl3_eq.
  assert (j = 0 \/ j = 1 \/ j = 2 \/ j = 3) as [-> | [-> | [-> | ->]]] by lia;
    cbn [Z.eqb Pos.eqb].
  - rewrite 3 store_lanes_miss by (intros; unfold ptr_add, lane_addr; lia).
    replace (ptr_add a (0 * C + Z.of_nat l)) with (lane_addr a l)
      by (unfold ptr_add, lane_addr; lia).
    now apply store_lanes_hit.
  - rewrite 2 store_lanes_miss by (intros; unfold ptr_add, lane_addr; lia).
    replace (ptr_add a (1 * C + Z.of_nat l)) with (lane_addr (a + 8 * C) l)
      by (unfold ptr_add, lane_addr; lia).
    now apply store_lanes_hit.
  - rewrite store_lanes_miss by (intros; unfold ptr_add, lane_addr; lia).
    replace (ptr_add a (2 * C + Z.of_nat l))
      with (lane_addr (a + 8 * C + 8 * C) l)
      by (unfold ptr_add, lane_addr; lia).
    now apply store_lanes_hit.
  - replace (ptr_add a (3 * C + Z.of_nat l))
      with (lane_addr (a + 8 * C + 8 * C + 8 * C) l)
      by (unfold ptr_add, lane_addr; lia).
    now apply store_lanes_hit.
Qed.

Lemma block_stores_miss (m : memory F) a (y0 y1 y2 y3 : lanes F) n b :
  (forall j l, 0 <= j < 4 -> (l < n)%nat -> b <> ptr_add a (j * C + Z.of_nat l)) ->
  store_lanes (store_lanes (store_lanes (store_lanes m
    a y0 n) (a + shl3 C) y1 n) (a + shl3 C + shl3 C) y2 n)
    (a + shl3 C + shl3 C + shl3 C) y3 n b = m b.
Proof.
  intros H. rewrite !shl3_eq.
  rewrite 4 store_lanes_miss; [reflexivity | | | | ];
    intros l Hl E.
  - apply (H 0 l); [lia | exact Hl |]. rewrite E. unfold ptr_add, lane_addr. lia.
  - apply (H 1 l); [lia | exact Hl |]. rewrite E. unfold ptr_add, lane_addr. lia.
  - apply (H 2 l); [lia | exact Hl |]. rewrite E. unfold ptr_add, lane_addr. lia.
  - apply (H 3 l); [lia | exact Hl |]. rewrite E. unfold ptr_add, lane_addr. lia.
Qed.

(** The block helper on a window whose first two rows are [r] and [r+1]:
    it leaves the window holding rows [r .. r+5] and the output rows
    [r .. r+3] stored. *)
Lemma block_step r (st : state F) :
  0 <= r -> r + 4 <= R ->
  holds_row VLMAX m0 i C (v8 (vregs st)) r ->
  holds_row VLMAX m0 i C (v10 (vregs st)) (r + 1) ->
  stored_upto VLMAX m0 o i f C r (mem st) ->
  let st' := snd (fconv2d_vec_4xC_3x3 VLMAX tail (ptr_add o (r * C))
                    (ptr_add i ((r + 2) * (C + 2))) f C 3 st) in
  window_holds VLMAX m0 i C (vregs st') r /\
  stored_upto VLMAX m0 o i f C (r + 4) (mem st').
Proof.
  intros Hr0 Hr4 H8 H10 Hst st'.
  pose proof vlc_le as Hvc. pose proof vlw_le as Hvw. pose proof vlc_vlw as Hcw.
  pose proof (grant_le VLMAX C) as Hcm.
  (* what the block reads is what [m0] has *)
  assert (Hrow : forall q a b l, a = ptr_add i (q * (C + 2)) -> b = a ->
            r <= q <= r + 5 -> (l < grant VLMAX (C + 3 - 1))%nat ->
            row_lanes (mem st) a l = row_lanes m0 b l).
  { intros q a b l -> -> Hq Hl. unfold row_lanes.
    replace (lane_addr (ptr_add i (q * (C + 2))) l)
      with (ptr_add i (q * (C + 2) + Z.of_nat l))
      by (unfold ptr_add, lane_addr; lia).
    apply (frame_input r); [exact Hst | lia | nia]. }
  assert (Hld : shl3 (C + 3 - 1) = 8 * (C + 2)) by (rewrite shl3_eq; lia).
  assert (W : window_holds VLMAX m0 i C (vregs st') r).
  { unfold window_holds. subst st'. rewrite block_v8, block_v10.
    split; [exact H8|]. split; [exact H10|].
    repeat split; intros l Hl;
      destruct (block_window VLMAX tail (ptr_add o (r * C))
                  (ptr_add i ((r + 2) * (C + 2))) f C st l Hl) as (A & B & D & E).
    - rewrite A. apply (Hrow (r + 2)); try exact Hl; rewrite ?Hld; unfold ptr_add; lia.
    - rewrite B. apply (Hrow (r + 3)); try exact Hl; rewrite ?Hld; unfold ptr_add; lia.
    - rewrite D. apply (Hrow (r + 4)); try exact Hl; rewrite ?Hld; unfold ptr_add; lia.
    - rewrite E. apply (Hrow (r + 5)); try exact Hl; rewrite ?Hld; unfold ptr_add; lia. }
  split; [exact W|].
  (* the accumulators are the kernel's values *)
  assert (Hacc : forall j c, 0 <= j < 4 -> (c < grant VLMAX C)%nat ->
            (if j =? 0 then v0 (vregs st') else if j =? 1 then v2 (vregs st')
             else if j =? 2 then v4 (vregs st') else v6 (vregs st')) c
            = kernel_val VLMAX m0 i f C (r + j) c).
  { intros j c Hj Hc. unfold kernel_val.
    assert (Hf : forall k, 0 <= k < 9 ->
              mem st (ptr_add f k) = m0 (ptr_add f k))
      by (intros; apply (frame_filter r); [exact Hst | lia | lia]).
    assert (Hw : forall j', (j' <= 2)%nat -> (c + j' < VLMAX)%nat ->
              (c + j' < grant VLMAX (C + 3 - 1))%nat)
      by (intros; apply grant_window; lia).
    assert (H8' : forall b l, b = ptr_add i (r * (C + 2)) ->
              (l < grant VLMAX (C + 3 - 1))%nat ->
              v8 (vregs st) l = row_lanes m0 b l)
      by (intros b l -> Hl; apply H8; exact Hl).
    assert (H10' : forall b l, b = ptr_add i ((r + 1) * (C + 2)) ->
              (l < grant VLMAX (C + 3 - 1))%nat ->
              v10 (vregs st) l = row_lanes m0 b l)
      by (intros b l -> Hl; apply H10; exact Hl).
    assert (j = 0 \/ j = 1 \/ j = 2 \/ j = 3) as [-> | [-> | [-> | ->]]] by lia;
      cbn [Z.eqb Pos.eqb]; subst st'.
    - rewrite block_v0 by (lia || exact Hc).
      apply mac3x3_ext; [exact Hf | | lia].
      intros j' Hj' Hlt. specialize (Hw j' Hj' Hlt).
      split; [|split].
      + apply H8'; [unfold ptr_add; lia | exact Hw].
      + apply H10'; [unfold ptr_add; lia | exact Hw].
      + apply (Hrow (r + 2)); try exact Hw; rewrite ?Hld; unfold ptr_add; lia.
    - rewrite block_v2 by (lia || exact Hc).
      apply mac3x3_ext; [exact Hf | | lia].
      intros j' Hj' Hlt. specialize (Hw j' Hj' Hlt).
      split; [|split].
      + apply H10'; [unfold ptr_add; lia | exact Hw].
      + apply (Hrow (r + 2)); try exact Hw; rewrite ?Hld; unfold ptr_add; lia.
      + apply (Hrow (r + 3)); try exact Hw; rewrite ?Hld; unfold ptr_add; lia.
    - rewrite block_v4 by (lia || exact Hc).
      apply mac3x3_ext; [exact Hf | | lia].
      intros j' Hj' Hlt. specialize (Hw j' Hj' Hlt).
      split; [|split].
      + apply (Hrow (r + 2)); try exact Hw; rewrite ?Hld; unfold ptr_add; lia.
      + apply (Hrow (r + 3)); try exact Hw; rewrite ?Hld; unfold ptr_add; lia.
      + apply (Hrow (r + 4)); try exact Hw; rewrite ?Hld; unfold ptr_add; lia.
    - rewrite block_v6 by (lia || exact Hc).
      apply mac3x3_ext; [exact Hf | | lia].
      intros j' Hj' Hlt. specialize (Hw j' Hj' Hlt).
      split; [|split].
      + apply (Hrow (r + 3)); try exact Hw; rewrite ?Hld; unfold ptr_add; lia.
      + apply (Hrow (r + 4)); try exact Hw; rewrite ?Hld; unfold ptr_add; lia.
      + apply (Hrow (r + 5)); try exact Hw; rewrite ?Hld; unfold ptr_add; lia. }
  destruct Hst as [Hval Hframe].
  subst st'. rewrite block_mem.
  set (st' := snd (fconv2d_vec_4xC_3x3 VLMAX tail (ptr_add o (r * C))
                    (ptr_add i ((r + 2) * (C + 2))) f C 3 st)) in *.
  split.
  - intros r' c Hr' Hc.
    destruct (Z_lt_ge_dec r' r) as [Hlt|Hge].
    + rewrite block_stores_miss; [apply Hval; [lia | exact Hc] |].
      intros j l Hj Hl E. unfold ptr_add in E.
      assert (r' * C + Z.of_nat c = (r + j) * C + Z.of_nat l) as E' by lia.
      apply out_index_inj in E'; lia.
    + replace (ptr_add o (r' * C + Z.of_nat c))
        with (ptr_add (ptr_add o (r * C)) ((r' - r) * C + Z.of_nat c))
        by (unfold ptr_add; lia).
      rewrite block_stores_hit by lia.
      rewrite (Hacc (r' - r) c) by lia. f_equal. lia.
  - intros a Ha.
    rewrite block_stores_miss.
    + apply Hframe. intros r' c Hr' Hc. apply Ha; [lia | exact Hc].
    + intros j l Hj Hl E. apply (Ha (r + j) l); [lia | exact Hl |].
      rewrite E. unfold ptr_add. lia.
Qed.

End Block4.

(** ** The driver *)

Section Driver.

Context {F : Type} {ops : FloatOps F}.
Variable VLMAX : nat.
Variable tail : vreg -> nat -> F -> F.
Variables (o i f R C : Z).
Variable st0 : state F.

Hypothesis HC : 1 <= C.
Hypothesis HR : 4 <= R.
Hypothesis Hin : separate o (R * C) i ((R + 2) * (C + 2)).
Hypothesis Hflt : separate o (R * C) f 9.

Let m0 := mem st0.
Let sP := snd (fconv2d_vec_4xC_slice_preload_3x3 VLMAX tail i C 3 st0).
Let sB := snd (fconv2d_vec_4xC_3x3 VLMAX tail o
                 (ptr_add i ((3 - 1) * (C + 3 - 1))) f C 3 sP).

Lemma stored_upto_0 : stored_upto VLMAX m0 o i f C 0 m0.
Proof. split; [intros; lia | reflexivity]. Qed.

Lemma bootstrap_rows :
  holds_row VLMAX m0 i C (v8 (vregs sP)) 0 /\
  holds_row VLMAX m0 i C (v10 (vregs sP)) (0 + 1).
Proof.
  split; intros l Hl;
    destruct (preload_window VLMAX tail i C 3 st0 l Hl) as [A B].
  - subst sP m0. rewrite A. unfold row_lanes, ptr_add, lane_addr. f_equal. lia.
  - subst sP m0. rewrite B. rewrite shl3_eq.
    unfold row_lanes, ptr_add, lane_addr. f_equal. lia.
Qed.

(** Block 0: the bootstrap and the first call of the block helper. *)
Lemma first_block :
  window_holds VLMAX m0 i C (vregs sB) 0 /\
  stored_upto VLMAX m0 o i f C 4 (mem sB).
Proof.
  destruct bootstrap_rows as [H8 H10].
  assert (Hm : mem sP = m0) by apply preload_mem.
  pose proof (block_step VLMAX tail o i f R C m0 HC Hin Hflt 0 sP
                ltac:(lia) ltac:(lia) H8 H10) as Hb.
  rewrite Hm in Hb. specialize (Hb stored_upto_0).
  replace (ptr_add o (0 * C)) with o in Hb by (unfold ptr_add; lia).
  replace (ptr_add i ((0 + 2) * (C + 2)))
    with (ptr_add i ((3 - 1) * (C + 3 - 1))) in Hb by (unfold ptr_add; lia).
  exact Hb.
Qed.

(** After the prologue the loop invariant holds for row 4, and the
    coefficients it loaded are the filter's column 0. *)
Lemma prologue_inv :
  let p := prologue VLMAX tail o i f C 3 4 st0 in
  loop_inv VLMAX m0 o i f C 4 (fst (fst p)) (snd p) /\
  snd (fst p) = (m0 (ptr_add f 0), m0 (ptr_add f 3), m0 (ptr_add f 6)).
Proof.
  intros p.
  destruct (prologue_state VLMAX tail o i f C 3 4 st0) as (Ep & Em & Ev & _).
  fold sP sB p in Ep, Em, Ev.
  destruct first_block as [(W8 & W10 & W12 & W14 & W16 & W18) Hst].
  destruct (slide_keeps VLMAX tail C 3 sB) as (_ & _ & K16 & K18).
  rewrite Ep. cbn [fst snd]. split.
  - unfold loop_inv. rewrite Em, Ev, K16, K18.
    split. { unfold cursor, ptr_add. ring. }
    split; [exact W16|]. split; [exact W18 | exact Hst].
  - rewrite shl3_eq.
    rewrite <- !(frame_filter VLMAX o i f R C m0 HC Hflt 4 (mem sB)) by (assumption || lia).
    unfold ptr_add.
    repeat match goal with |- (_, _) = (_, _) => apply f_equal2 end;
      apply f_equal; lia.
Qed.

(** One loop iteration keeps the invariant, leaves the window on the rows
    of its block and logs its accesses. *)
Lemma loop_step r i__ (st : state F) :
  4 <= r -> r + 4 <= R ->
  loop_inv VLMAX m0 o i f C r i__ st ->
  let p := loop_body VLMAX tail o i f C 3 4 (shl3 (C + 3 - 1)) (shl3 3)
             (m0 (ptr_add f 0)) (m0 (ptr_add f 3)) (m0 (ptr_add f 6)) r i__ st in
  loop_inv VLMAX m0 o i f C (r + 4) (fst p) (snd p) /\
  window_holds VLMAX m0 i C (vregs (snd p)) r /\
  log (snd p) = log st ++ loop_trace VLMAX o i f C 3 r (cursor i C r).
Proof.
  intros Hr Hr4 (Hi & H16 & H18 & Hst) p.
  assert (Hf : forall k, 0 <= k < 9 -> m0 (ptr_add f k) = mem st (ptr_add f k))
    by (intros; symmetry; apply (frame_filter VLMAX o i f R C m0 HC Hflt r);
        [exact Hst | lia | lia]).
  assert (Ep : snd p =
    snd (loop_body VLMAX tail o i f C 3 4 (shl3 (C + 3 - 1)) (shl3 3)
           (mem st f) (mem st (f + shl3 3)) (mem st (f + shl3 3 + shl3 3)) r i__ st)).
  { subst p. rewrite !Hf by lia.
    replace (ptr_add f 0) with f by (unfold ptr_add; lia).
    replace (ptr_add f 3) with (f + shl3 3)
      by (rewrite shl3_eq; unfold ptr_add; lia).
    replace (ptr_add f 6) with (f + shl3 3 + shl3 3)
      by (rewrite shl3_eq; unfold ptr_add; lia).
    reflexivity. }
  destruct (loop_body_refines VLMAX tail o i f C 3 4 r i__ st) as (Em & Ev & _).
  cbv zeta in Em, Ev. rewrite <- Ep in Em, Ev.
  set (sS := snd (fconv2d_vec_4xC_slice_move_3x3 VLMAX tail C 3 st)) in *.
  assert (S8 : holds_row VLMAX m0 i C (v8 (vregs sS)) r).
  { intros l Hl. destruct (slide_window VLMAX tail C 3 st l Hl) as [A _].
    subst sS. rewrite A. apply H16. exact Hl. }
  assert (S10 : holds_row VLMAX m0 i C (v10 (vregs sS)) (r + 1)).
  { intros l Hl. destruct (slide_window VLMAX tail C 3 st l Hl) as [_ B].
    subst sS. rewrite B. apply H18. exact Hl. }
  assert (Sm : stored_upto VLMAX m0 o i f C r (mem sS))
    by (subst sS; rewrite slide_mem; exact Hst).
  pose proof (block_step VLMAX tail o i f R C m0 HC Hin Hflt r sS
                ltac:(lia) Hr4 S8 S10 Sm) as [W St].
  subst i__. fold (cursor i C r) in W, St.
  rewrite <- Ev in W. rewrite <- Em in St.
  split; [|split].
  - destruct W as (_ & _ & _ & _ & W16 & W18).
    unfold loop_inv. split.
    + subst p. rewrite loop_body_cursor. unfold cursor, ptr_add. lia.
    + split; [exact W16|]. split; [|exact St].
      replace (r + 4 + 1) with (r + 5) by lia. exact W18.
  - exact W.
  - subst p. apply loop_body_log.
Qed.

(** [n] iterations from the head for row [r]. *)
Lemma run_blocks_inv n : forall r i__ (st : state F),
  4 <= r -> r + 4 * Z.of_nat n <= R ->
  loop_inv VLMAX m0 o i f C r i__ st ->
  let q := run_blocks VLMAX tail o i f C 3
             (m0 (ptr_add f 0)) (m0 (ptr_add f 3)) (m0 (ptr_add f 6)) n r i__ st in
  fst (fst q) = r + 4 * Z.of_nat n /\
  loop_inv VLMAX m0 o i f C (r + 4 * Z.of_nat n) (snd (fst q)) (snd q) /\
  log (snd q) = log st ++ loops_trace VLMAX o i f C n r /\
  ((0 < n)%nat ->
   window_holds VLMAX m0 i C (vregs (snd q)) (r + 4 * Z.of_nat n - 4)).
Proof.
  induction n as [|n IH]; intros r i__ st Hr Hn Hinv q.
  - subst q. cbn [run_blocks fst snd loops_trace].
    rewrite app_nil_r. replace (r + 4 * Z.of_nat 0) with r by lia.
    split; [reflexivity|]. split; [exact Hinv|]. split; [reflexivity | lia].
  - subst q. cbn [run_blocks loops_trace].
    pose proof (loop_step r i__ st Hr ltac:(lia) Hinv) as Hs. cbv zeta in Hs.
    destruct (loop_body VLMAX tail o i f C 3 4 (shl3 (C + 3 - 1)) (shl3 3)
                (m0 (ptr_add f 0)) (m0 (ptr_add f 3)) (m0 (ptr_add f 6)) r i__ st)
      as [i' st'] eqn:E.
    cbn [fst snd] in Hs. destruct Hs as (Hinv' & W & Hlog).
    specialize (IH (r + 4) i' st' ltac:(lia) ltac:(lia) Hinv'). cbv zeta in IH.
    destruct IH as (A & B & D & G).
    replace (r + 4 * Z.of_nat (S n)) with (r + 4 + 4 * Z.of_nat n) by lia.
    split; [exact A|]. split; [exact B|]. split.
    + rewrite D, Hlog, <- app_assoc. reflexivity.
    + intros _. destruct n as [|n'].
      * cbn [run_blocks snd]. replace (r + 4 + 4 * Z.of_nat 0 - 4) with r by lia.
        exact W.
      * apply G. lia.
Qed.

(** The loop runs its body exactly as often as there are blocks left. *)
Lemma steady_state_run t0 t1 t2 n : forall fuel r i__ (st : state F),
  (n <= fuel)%nat -> r + 4 * Z.of_nat n = R ->
  steady_state VLMAX tail o i f R C 3 4 (shl3 (C + 3 - 1)) (shl3 3)
               t0 t1 t2 fuel r i__ st =
  Some (R, snd (run_blocks VLMAX tail o i f C 3 t0 t1 t2 n r i__ st)).
Proof.
  induction n as [|n IH]; intros fuel r i__ st Hf Hn.
  - assert (r = R) by lia. subst r.
    destruct fuel; cbn [steady_state run_blocks snd]; now rewrite Z.ltb_irrefl.
  - destruct fuel as [|fuel]; [lia|].
    cbn [steady_state run_blocks].
    destruct (Z.ltb_spec r R); [|lia].
    destruct (loop_body VLMAX tail o i f C 3 4 (shl3 (C + 3 - 1)) (shl3 3)
                t0 t1 t2 r i__ st) as [i' st'].
    apply IH; lia.
Qed.

End Driver.

(** ** The whole call *)

Lemma blocks_of_R R :
  0 < R -> R mod 4 = 0 ->
  4 <= R /\ 4 + 4 * Z.of_nat (Z.to_nat (R / 4 - 1)) = R /\
  (Z.to_nat (R / 4 - 1) <= Z.to_nat R)%nat /\ (R + 3) / 4 = R / 4.
Proof.
  intros H0 H4.
  pose proof (Z.div_mod R 4 ltac:(lia)) as E. rewrite H4 in E.
  assert (1 <= R / 4) by lia.
  repeat split; try lia.
  replace (R + 3) with (3 + (R / 4) * 4) by lia.
  rewrite Z.div_add by lia. reflexivity.
Qed.

Section Call.

Context {F : Type} {ops : FloatOps F}.
Variable VLMAX : nat.
Variable tail : vreg -> nat -> F -> F.
Variables (o i f R C F_ : Z).
Variable st0 : state F.

Hypothesis Hv : valid_invocation o i f R C F_.

(** The final state of a valid call: the prologue followed by exactly
    [R / 4 - 1] loop iterations; the loop leaves with [r = R]; the output rows
    [0 .. R-1] are stored and nothing else has changed; the log has grown by
    [kernel_trace]. *)
Lemma kernel_run :
  let p := prologue VLMAX tail o i f C F_ 4 st0 in
  let n := Z.to_nat (R / 4 - 1) in
  exists st',
    (forall fuel, (n <= fuel)%nat ->
       fconv2d_3x3_fuel VLMAX tail fuel o i f R C F_ st0 = Some (R, st')) /\
    st' = snd (run_blocks VLMAX tail o i f C F_
                 (fst (fst (snd (fst p)))) (snd (fst (snd (fst p))))
                 (snd (snd (fst p))) n 4 (fst (fst p)) (snd p)) /\
    stored_upto VLMAX (mem st0) o i f C R (mem st') /\
    log st' = log st0 ++ kernel_trace (F := F) VLMAX o i f R C /\
    ((0 < n)%nat ->
     window_holds VLMAX (mem st0) i C (vregs st') (R - 4)).
Proof.
  destruct Hv as [-> HR0 HR4 HC Hin Hflt].
  destruct (blocks_of_R R HR0 HR4) as (HR & Hn & Hfuel & _).
  intros p n.
  pose proof (prologue_inv VLMAX tail o i f R C st0 HC HR Hin Hflt) as Hp.
  pose proof (prologue_log VLMAX tail o i f C 3 st0) as Hplog.
  cbv zeta in Hp. fold p in Hp, Hplog.
  unfold fconv2d_3x3_fuel. fold p.
  destruct p as [[i__ [[t0 t1] t2]] s1]. cbn [fst snd] in *.
  destruct Hp as [Hinv Hco]. injection Hco as -> -> ->.
  pose proof (run_blocks_inv VLMAX tail o i f R C st0 HC Hin Hflt n
                4 i__ s1 ltac:(lia) ltac:(lia) Hinv) as Hrun.
  cbv zeta in Hrun.
  destruct Hrun as (_ & (_ & _ & _ & Hst) & Hlog & Hwin).
  eexists. split; [|split; [reflexivity|]].
  - intros fuel Hf.
    apply (steady_state_run VLMAX tail o i f R C _ _ _ n); [exact Hf | lia].
  - split; [|split].
    + replace (4 + 4 * Z.of_nat n) with R in Hst by lia. exact Hst.
    + rewrite Hlog, Hplog.
      unfold kernel_trace. fold n. rewrite <- app_assoc. reflexivity.
    + intros Hn0. specialize (Hwin Hn0).
      replace (4 + 4 * Z.of_nat n - 4) with (R - 4) in Hwin by lia. exact Hwin.
Qed.

End Call.

(** ** The access log *)

Lemma store_addrs_app a b : store_addrs (a ++ b) = store_addrs a ++ store_addrs b.
Proof. apply flat_map_app. Qed.

Lemma store_addrs_loads {A} (g : A -> Z) xs :
  store_addrs (map (fun l => EvLoad (g l)) xs) = [].
Proof. induction xs; [reflexivity | exact IHxs]. Qed.

Lemma store_addrs_lanes {A} r (g : A -> nat) xs :
  store_addrs (map (fun l => EvLane r (g l)) xs) = [].
Proof. induction xs; [reflexivity | exact IHxs]. Qed.

Lemma store_addrs_stores a n :
  store_addrs (map (fun l => EvStore (lane_addr a l)) (seq 0 n)) = row_addrs a n.
Proof.
  unfold row_addrs. induction (seq 0 n) as [|x xs IH]; [reflexivity|].
  cbn [map store_addrs flat_map app]. f_equal. exact IH.
Qed.

Lemma lanes_from a k m :
  map (lane_addr a) (seq k m) = row_addrs (a + 8 * Z.of_nat k) m.
Proof.
  unfold row_addrs. revert a k. induction m as [|m IH]; intros a k; [reflexivity|].
  cbn [seq map]. f_equal; [unfold lane_addr; lia|].
  rewrite (IH a (S k)), (IH (a + 8 * Z.of_nat k) 1%nat).
  apply map_ext. intros l. unfold lane_addr. lia.
Qed.

Lemma row_addrs_app a n m :
  row_addrs a (n + m) = row_addrs a n ++ row_addrs (a + 8 * Z.of_nat n) m.
Proof.
  unfold row_addrs at 1 2. rewrite seq_app, map_app. f_equal.
  cbn [Nat.add]. apply lanes_from.
Qed.

Lemma row_addrs_eq a b n : a = b -> row_addrs a n = row_addrs b n.
Proof. now intros ->. Qed.

Lemma cell_offset base n a :
  (a - base) mod 8 = 0 -> 0 <= a - base < 8 * n -> cell base n a.
Proof.
  intros Hm Hr. exists ((a - base) / 8).
  pose proof (Z.div_mod (a - base) 8 ltac:(lia)) as E. rewrite Hm in E.
  unfold ptr_add. split; lia.
Qed.

Lemma cell_range base n a : cell base n a -> base <= a < base + 8 * n.
Proof. intros (k & Hk & ->). unfold ptr_add. lia. Qed.

Section TraceLemmas.

Context {F : Type} {ops : FloatOps F}.
Variable VLMAX : nat.
Variables (o i f R C : Z).
Hypothesis HC : 1 <= C.

Ltac stores :=
  cbn [app];
  rewrite ?store_addrs_app, ?store_addrs_loads, ?store_addrs_lanes,
          ?store_addrs_stores;
  cbn [store_addrs flat_map app]; rewrite ?app_nil_r.

(** The stores of the prologue: output rows 0 to 3. *)
Lemma prologue_trace_stores :
  store_addrs (prologue_trace (F := F) VLMAX o i f C 3) =
  row_addrs (ptr_add o (0 * C)) (grant VLMAX C) ++
  row_addrs (ptr_add o (1 * C)) (grant VLMAX C) ++
  row_addrs (ptr_add o (2 * C)) (grant VLMAX C) ++
  row_addrs (ptr_add o (3 * C)) (grant VLMAX C).
Proof.
  unfold prologue_trace, blank. run. stores.
  rewrite <- !app_assoc.
  repeat (f_equal; try (apply row_addrs_eq; rewrite ?shl3_eq; unfold ptr_add; lia)).
Qed.

(** The stores of one loop iteration: output rows [r] to [r+3]. *)
Lemma loop_trace_stores r i__ :
  store_addrs (loop_trace (F := F) VLMAX o i f C 3 r i__) =
  row_addrs (ptr_add o (r * C)) (grant VLMAX C) ++
  row_addrs (ptr_add o ((r + 1) * C)) (grant VLMAX C) ++
  row_addrs (ptr_add o ((r + 2) * C)) (grant VLMAX C) ++
  row_addrs (ptr_add o ((r + 3) * C)) (grant VLMAX C).
Proof.
  unfold loop_trace, blank. run. stores.
  rewrite <- !app_assoc.
  repeat (f_equal; try (apply row_addrs_eq; rewrite ?shl3_eq; unfold ptr_add; lia)).
Qed.

(** Four full rows are [4 * C] consecutive cells. *)
Lemma four_rows r :
  0 <= r -> (Z.to_nat C <= VLMAX)%nat ->
  row_addrs (ptr_add o (r * C)) (grant VLMAX C) ++
  row_addrs (ptr_add o ((r + 1) * C)) (grant VLMAX C) ++
  row_addrs (ptr_add o ((r + 2) * C)) (grant VLMAX C) ++
  row_addrs (ptr_add o ((r + 3) * C)) (grant VLMAX C) =
  row_addrs (ptr_add o (r * C)) (4 * Z.to_nat C).
Proof.
  intros Hr Hfit. rewrite grant_fits by lia.
  replace (4 * Z.to_nat C)%nat
    with (Z.to_nat C + (Z.to_nat C + (Z.to_nat C + Z.to_nat C)))%nat by lia.
  rewrite !row_addrs_app.
  repeat (f_equal; try (apply row_addrs_eq; unfold ptr_add; lia)).
Qed.

Lemma loops_trace_stores n : forall r,
  0 <= r -> (Z.to_nat C <= VLMAX)%nat ->
  store_addrs (loops_trace (F := F) VLMAX o i f C n r) =
  row_addrs (ptr_add o (r * C)) (n * (4 * Z.to_nat C)).
Proof.
  induction n as [|n IH]; intros r Hr Hfit; [reflexivity|].
  cbn [loops_trace]. rewrite store_addrs_app, loop_trace_stores, four_rows by lia.
  rewrite IH by lia.
  set (w := (4 * Z.to_nat C)%nat). change (S n * w)%nat with (w + n * w)%nat.
  rewrite row_addrs_app.
  f_equal. apply row_addrs_eq. subst w. unfold ptr_add. lia.
Qed.

(** With [C <= VLMAX] the stores of a call are the [R * C] output cells,
    each once, in address order. *)
Lemma kernel_trace_stores :
  0 < R -> R mod 4 = 0 -> (Z.to_nat C <= VLMAX)%nat ->
  store_addrs (kernel_trace (F := F) VLMAX o i f R C) =
  row_addrs o (Z.to_nat (R * C)).
Proof.
  intros HR0 HR4 Hfit.
  destruct (blocks_of_R R HR0 HR4) as (HR & Hn & _ & _).
  unfold kernel_trace. rewrite store_addrs_app, prologue_trace_stores.
  replace (ptr_add o (1 * C)) with (ptr_add o ((0 + 1) * C)) by (f_equal; lia).
  replace (ptr_add o (2 * C)) with (ptr_add o ((0 + 2) * C)) by (f_equal; lia).
  replace (ptr_add o (3 * C)) with (ptr_add o ((0 + 3) * C)) by (f_equal; lia).
  rewrite four_rows, loops_trace_stores by lia.
  replace (Z.to_nat (R * C))
    with (4 * Z.to_nat C + Z.to_nat (R / 4 - 1) * (4 * Z.to_nat C))%nat by nia.
  rewrite row_addrs_app.
  f_equal; apply row_addrs_eq; unfold ptr_add; lia.
Qed.

End TraceLemmas.

Section Bounds.

Context {F : Type} {ops : FloatOps F}.
Variable VLMAX : nat.
Variables (o i f R C : Z).
Hypothesis HC : 1 <= C.

(** Splits a log into the event lists of its instructions. *)
Ltac split_log :=
  cbn [app];
  repeat match goal with
         | |- Forall _ (_ ++ _) => apply Forall_app; split
         end.

(** The events of one instruction, as hypotheses on the lane. *)
Ltac one_event :=
  match goal with
  | |- Forall _ [_] => apply Forall_cons; [|apply Forall_nil]
  | |- Forall _ (map _ (filter _ (seq 0 _))) =>
      let e := fresh "e" in let He := fresh "He" in
      let l := fresh "l" in let Hl := fresh "Hl" in let Hg := fresh "Hg" in
      apply Forall_forall; intros e He;
      apply in_map_iff in He; destruct He as (l & <- & Hl);
      apply filter_In in Hl; destruct Hl as [Hl Hg];
      apply in_seq in Hl; apply Nat.ltb_lt in Hg
  | |- Forall _ (map _ (seq 0 _)) =>
      let e := fresh "e" in let He := fresh "He" in
      let l := fresh "l" in let Hl := fresh "Hl" in
      apply Forall_forall; intros e He;
      apply in_map_iff in He; destruct He as (l & <- & Hl);
      apply in_seq in Hl
  end.

Ltac bound_arith :=
  pose proof (vlc_le VLMAX C HC); pose proof (vlw_le VLMAX C HC);
  cbn [in_bounds];
  match goal with
  | |- cell _ _ _ =>
      apply cell_offset;
      unfold cursor, ptr_add, lane_addr; rewrite ?shl3_eq;
      [Z.div_mod_to_equations; lia | nia]
  | |- _ /\ _ => split; [lia | intros; first [reflexivity | exfalso; lia]]
  end.

Lemma loop_trace_bounds r :
  4 <= r -> r + 4 <= R ->
  Forall (in_bounds o i f R C)
         (loop_trace (F := F) VLMAX o i f C 3 r (cursor i C r)).
Proof.
  intros Hr Hr4. unfold loop_trace, blank. run. split_log; one_event.
  all: bound_arith.
Qed.

Lemma prologue_trace_bounds :
  4 <= R ->
  Forall (in_bounds o i f R C) (prologue_trace (F := F) VLMAX o i f C 3).
Proof.
  intros HR. unfold prologue_trace, blank. run. split_log; one_event.
  all: bound_arith.
Qed.

Lemma loops_trace_bounds n : forall r,
  4 <= r -> r + 4 * Z.of_nat n <= R ->
  Forall (in_bounds o i f R C) (loops_trace (F := F) VLMAX o i f C n r).
Proof.
  induction n as [|n IH]; intros r Hr Hn; [apply Forall_nil|].
  cbn [loops_trace]. apply Forall_app. split.
  - apply loop_trace_bounds; lia.
  - apply IH; lia.
Qed.

Lemma kernel_trace_bounds :
  0 < R -> R mod 4 = 0 ->
  Forall (in_bounds o i f R C) (kernel_trace (F := F) VLMAX o i f R C).
Proof.
  intros HR0 HR4. destruct (blocks_of_R R HR0 HR4) as (HR & Hn & _ & _).
  unfold kernel_trace. apply Forall_app. split.
  - apply prologue_trace_bounds. exact HR.
  - apply loops_trace_bounds; lia.
Qed.

End Bounds.

(** ** The values of the output *)

Section Values.

Context {F : Type} {ops : FloatOps F}.
Variable VLMAX : nat.

(** Equal accumulation chains from equal leaves. *)
Ltac chain_eq :=
  repeat match goal with
         | |- fmacc _ _ _ = fmacc _ _ _ => apply f_equal3
         | |- fmul _ _ = fmul _ _ => apply f_equal2
         | |- ?m _ = ?m _ => apply f_equal; lia
         end.

(** Where the two lanes to the right exist, the kernel's value is the
    reference. *)
Lemma kernel_val_ref (m : memory F) i f C r c :
  (c + 2 < VLMAX)%nat ->
  kernel_val VLMAX m i f C r c =
  conv_ref (filter_at m f) (input_at m i C) r (Z.of_nat c).
Proof.
  intros Hc. unfold kernel_val, mac3x3, win, conv_ref, taps.
  cbn [flat_map map app tl fold_left]. unfold ref_step. cbn [fst snd].
  rewrite (proj2 (Nat.ltb_lt (c + 1) VLMAX)) by lia.
  rewrite (proj2 (Nat.ltb_lt (c + 2) VLMAX)) by lia.
  unfold filter_at, input_at, row_lanes, ptr_add, lane_addr.
  chain_eq.
Qed.

(** The kernel's value reads the memory only in the filter and in the
    input rows [r .. r+2]. *)
Lemma kernel_val_ext (m1 m2 : memory F) i1 f1 i2 f2 R C r c :
  0 <= r < R -> (Z.of_nat c < C) ->
  (forall k, 0 <= k < (R + 2) * (C + 2) -> m1 (ptr_add i1 k) = m2 (ptr_add i2 k)) ->
  (forall k, 0 <= k < 9 -> m1 (ptr_add f1 k) = m2 (ptr_add f2 k)) ->
  kernel_val VLMAX m1 i1 f1 C r c = kernel_val VLMAX m2 i2 f2 C r c.
Proof.
  intros Hr Hc Hi Hf. unfold kernel_val.
  assert (Hrow : forall d l, 0 <= d <= 2 -> (Z.of_nat l < C + 2) ->
            row_lanes m1 (ptr_add i1 ((r + d) * (C + 2))) l =
            row_lanes m2 (ptr_add i2 ((r + d) * (C + 2))) l).
  { intros d l Hd Hl. unfold row_lanes.
    replace (lane_addr (ptr_add i1 ((r + d) * (C + 2))) l)
      with (ptr_add i1 ((r + d) * (C + 2) + Z.of_nat l))
      by (unfold ptr_add, lane_addr; lia).
    replace (lane_addr (ptr_add i2 ((r + d) * (C + 2))) l)
      with (ptr_add i2 ((r + d) * (C + 2) + Z.of_nat l))
      by (unfold ptr_add, lane_addr; lia).
    apply Hi. nia. }
  unfold mac3x3, win.
  rewrite !Hf by lia.
  replace (r * (C + 2)) with ((r + 0) * (C + 2)) by lia.
  rewrite !(Hrow 0), !(Hrow 1), !(Hrow 2) by lia.
  reflexivity.
Qed.

(** The reference reads its arguments only at the nine taps. *)
Lemma conv_ref_ext flt1 inp1 flt2 inp2 r c :
  (forall a b, 0 <= a < 3 -> 0 <= b < 3 -> flt1 a b = flt2 a b) ->
  (forall a b, 0 <= a < 3 -> 0 <= b < 3 -> inp1 (r + a) (c + b) = inp2 (r + a) (c + b)) ->
  conv_ref flt1 inp1 r c = conv_ref flt2 inp2 r c.
Proof.
  intros Hf Hi. unfold conv_ref, taps.
  cbn [flat_map map app tl fold_left]. unfold ref_step. cbn [fst snd].
  rewrite !Hf, !Hi by lia.
  replace (inp1 r c) with (inp1 (r + 0) (c + 0)) by (f_equal; lia).
  replace (inp2 r c) with (inp2 (r + 0) (c + 0)) by (f_equal; lia).
  rewrite Hi by lia. reflexivity.
Qed.

End Values.

Section Outputs.

Context {F : Type} {ops : FloatOps F}.
Variable VLMAX : nat.
Variable tail : vreg -> nat -> F -> F.
Variables (o i f R C F_ : Z).
Variable st0 : state F.

Hypothesis Hv : valid_invocation o i f R C F_.

(** A valid call returns. *)
Lemma kernel_returns :
  exists st', fconv2d_3x3 VLMAX tail o i f R C F_ st0 = Some st' /\
    fconv2d_3x3_fuel VLMAX tail (Z.to_nat R) o i f R C F_ st0 = Some (R, st') /\
    stored_upto VLMAX (mem st0) o i f C R (mem st') /\
    log st' = log st0 ++ kernel_trace (F := F) VLMAX o i f R C.
Proof.
  destruct (kernel_run VLMAX tail o i f R C F_ st0 Hv) as (st' & Hf & _ & Hs & Hl & _).
  destruct Hv as [_ HR0 HR4 _ _ _].
  destruct (blocks_of_R R HR0 HR4) as (_ & _ & Hfuel & _).
  exists st'. unfold fconv2d_3x3. rewrite (Hf _ Hfuel). auto.
Qed.

(** Every output element a row store reaches has the kernel's value. *)
Lemma output_cells :
  exists st', fconv2d_3x3 VLMAX tail o i f R C F_ st0 = Some st' /\
    forall r c, 0 <= r < R -> 0 <= c < C -> (Z.to_nat c < VLMAX)%nat ->
      output_at (mem st') o C r c =
      kernel_val VLMAX (mem st0) i f C r (Z.to_nat c).
Proof.
  destruct kernel_returns as (st' & E & _ & [Hs _] & _).
  exists st'. split; [exact E|].
  intros r c Hr Hc Hl. unfold output_at.
  replace c with (Z.of_nat (Z.to_nat c)) at 1 by lia.
  apply Hs; [exact Hr|].
  destruct Hv as [_ _ _ HC _ _]. rewrite grant_nonneg by lia. lia.
Qed.

(** Only cells of the output buffer change. *)
Lemma output_frame :
  exists st', fconv2d_3x3 VLMAX tail o i f R C F_ st0 = Some st' /\
    forall a, ~ cell o (R * C) a -> mem st' a = mem st0 a.
Proof.
  destruct kernel_returns as (st' & E & _ & [_ Hf] & _).
  exists st'. split; [exact E|].
  intros a Ha. apply Hf. intros r c Hr Hc ->. apply Ha.
  destruct Hv as [_ _ _ HC _ _].
  pose proof (vlc_le VLMAX C HC).
  exists (r * C + Z.of_nat c). split; [nia | reflexivity].
Qed.

End Outputs.

(** ** Termination on every input *)

Section Total.

Context {F : Type} {ops : FloatOps F}.
Variable VLMAX : nat.
Variable tail : vreg -> nat -> F -> F.

Lemma steady_state_total o i f R C F_ ldi ldf t0 t1 t2 fuel : forall r i__ (st : state F),
  R - r <= 4 * Z.of_nat fuel ->
  exists res, steady_state VLMAX tail o i f R C F_ 4 ldi ldf t0 t1 t2 fuel r i__ st
              = Some res.
Proof.
  induction fuel as [|fuel IH]; intros r i__ st H; cbn [steady_state];
    destruct (Z.ltb_spec r R).
  - lia.
  - now exists (r, st).
  - destruct (loop_body VLMAX tail o i f C F_ 4 ldi ldf t0 t1 t2 r i__ st)
      as [i' st'].
    apply IH. lia.
  - now exists (r, st).
Qed.

(** The call returns for every argument, also outside the preconditions. *)
Lemma fconv2d_3x3_total o i f R C F_ (st : state F) :
  exists st', fconv2d_3x3 VLMAX tail o i f R C F_ st = Some st'.
Proof.
  unfold fconv2d_3x3, fconv2d_3x3_fuel.
  destruct (prologue VLMAX tail o i f C F_ 4 st) as [[i__ [[t0 t1] t2]] s1].
  destruct (steady_state_total o i f R C F_ (shl3 (C + F_ - 1)) (shl3 F_)
              t0 t1 t2 (Z.to_nat R) 4 i__ s1 ltac:(lia)) as [[r st'] E].
  exists st'. rewrite E. reflexivity.
Qed.

End Total.

(** * The claims *)

(** ** The example invocations are valid *)

Lemma wide_valid :
  valid_invocation Example.o_ptr Example.i_ptr Example.f_ptr 4 8 3.
Proof.
  unfold Example.o_ptr, Example.i_ptr, Example.f_ptr.
  constructor; unfold separate; try reflexivity; lia.
Defined.

Lemma small_valid :
  valid_invocation Example.o_ptr Example.i_ptr Example.f_ptr 8 4 3.
Proof.
  unfold Example.o_ptr, Example.i_ptr, Example.f_ptr.
  constructor; unfold separate; try reflexivity; lia.
Defined.

Lemma tall_valid :
  valid_invocation Example.o_ptr Example.i_ptr Example.f_ptr 12 4 3.
Proof.
  unfold Example.o_ptr, Example.i_ptr, Example.f_ptr.
  constructor; unfold separate; try reflexivity; lia.
Defined.

Lemma smallest_valid :
  valid_invocation Example.o_ptr Example.i_ptr Example.f_ptr 4 1 3.
Proof.
  unfold Example.o_ptr, Example.i_ptr, Example.f_ptr.
  constructor; unfold separate; try reflexivity; lia.
Defined.

(** ** C1: reference equivalence *)

(** With [C + 2 <= VLMAX] every output element is the reference. *)
Lemma reference_when_rows_fit
    {F : Type} {ops : FloatOps F} (VLMAX : nat) (tail : vreg -> nat -> F -> F)
    (o i f R C F_ : Z) (st : state F) :
  valid_invocation o i f R C F_ ->
  C + 2 <= Z.of_nat VLMAX ->
  exists st',
    fconv2d_3x3 VLMAX tail o i f R C F_ st = Some st' /\
    forall r c, 0 <= r < R -> 0 <= c < C ->
      output_at (mem st') o C r c =
      conv_ref (filter_at (mem st) f) (input_at (mem st) i C) r c.
Proof.
  intros Hv Hfit.
  destruct (output_cells VLMAX tail o i f R C F_ st Hv) as (st' & E & H).
  exists st'. split; [exact E|].
  intros r c Hr Hc. rewrite H by lia.
  rewrite kernel_val_ref by lia. f_equal. lia.
Qed.


(** C1, as amended.  For every valid invocation whose padded row fits one
    register group ([C + 2 <= VLMAX]), the call returns and every output
    element [output[r][c]] is bit for bit the reference [conv_ref]: the
    product for tap (0,0), then one fused multiply-add per tap, column [j]
    outer and row offset [i] inner. *)
Theorem C1_output_is_reference_when_rows_fit
    {F : Type} {ops : FloatOps F} (VLMAX : nat) (tail : vreg -> nat -> F -> F)
    (o i f R C F_ : Z) (st : state F) :
  valid_invocation o i f R C F_ ->
  C + 2 <= Z.of_nat VLMAX ->
  exists st',
    fconv2d_3x3 VLMAX tail o i f R C F_ st = Some st' /\
    forall r c, 0 <= r < R -> 0 <= c < C ->
      output_at (mem st') o C r c =
      conv_ref (filter_at (mem st) f) (input_at (mem st) i C) r c.
Proof. apply reference_when_rows_fit. Qed.

Lemma C1_output_is_reference_when_rows_fit_witness :
  valid_invocation Example.o_ptr Example.i_ptr Example.f_ptr 8 4 3 /\
  4 + 2 <= Z.of_nat 8 /\
  exists st',
    fconv2d_3x3 8 Example.keep Example.o_ptr Example.i_ptr Example.f_ptr 8 4 3
                Example.small = Some st' /\
    forall r c, 0 <= r < 8 -> 0 <= c < 4 ->
      output_at (mem st') Example.o_ptr 4 r c =
      conv_ref (filter_at (mem Example.small) Example.f_ptr)
               (input_at (mem Example.small) Example.i_ptr 4) r c.
Proof.
  split; [exact small_valid|]. split; [cbn; lia|].
  apply C1_output_is_reference_when_rows_fit; [exact small_valid | cbn; lia].
Defined.

(** C1 as stated fails.  On a unit with [VLMAX = 4] the valid 4 x 8
    invocation on ones returns with [output[0][2] = 6], while the reference
    is 9: the loads bring in four lanes of each row and the slide by two
    fills lane 2 with zero. *)
Lemma C1_counterexample_row_wider_than_registers :
  valid_invocation Example.o_ptr Example.i_ptr Example.f_ptr 4 8 3 /\
  exists st',
    fconv2d_3x3 4 Example.keep Example.o_ptr Example.i_ptr Example.f_ptr 4 8 3
                Example.wide = Some st' /\
    output_at (mem st') Example.o_ptr 8 0 2 = Binary64.of_Z 6 /\
    conv_ref (filter_at (mem Example.wide) Example.f_ptr)
             (input_at (mem Example.wide) Example.i_ptr 8) 0 2 = Binary64.of_Z 9 /\
    Binary64.of_Z 6 <> Binary64.of_Z 9.
Proof.
  split; [exact wide_valid|].
  assert (H : option_map (fun st' => output_at (mem st') Example.o_ptr 8 0 2)
                (fconv2d_3x3 4 Example.keep Example.o_ptr Example.i_ptr
                             Example.f_ptr 4 8 3 Example.wide)
              = Some (Binary64.of_Z 6)) by (vm_compute; reflexivity).
  destruct (fconv2d_3x3 4 Example.keep Example.o_ptr Example.i_ptr
                        Example.f_ptr 4 8 3 Example.wide) as [st'|];
    [|discriminate H].
  exists st'. split; [reflexivity|]. split; [now injection H|].
  split; [vm_compute; reflexivity | vm_compute; discriminate].
Qed.

(** ** C2: the row window *)

(** The window at the end of block [k], from the driver lemmas. *)
Lemma block_end_window {F : Type} {ops : FloatOps F} (VLMAX : nat)
    (tail : vreg -> nat -> F -> F) (o i f R C : Z) (st : state F) (k : nat) :
  valid_invocation o i f R C 3 -> Z.of_nat k < R / 4 ->
  window_holds VLMAX (mem st) i C
               (vregs (block_end VLMAX tail o i f C st k)) (4 * Z.of_nat k).
Proof.
  intros [_ HR0 HR4 HC Hin Hflt] Hk.
  destruct (blocks_of_R R HR0 HR4) as (HR & Hn & _ & _).
  destruct k as [|k].
  - cbn [block_end]. change (4 * Z.of_nat 0) with 0.
    apply (first_block VLMAX tail o i f R C st HC HR Hin Hflt).
  - cbn [block_end].
    pose proof (prologue_inv VLMAX tail o i f R C st HC HR Hin Hflt) as Hp.
    cbv zeta in Hp.
    destruct (prologue VLMAX tail o i f C 3 4 st) as [[i__ [[t0 t1] t2]] s1].
    cbn [fst snd] in *. destruct Hp as [Hinv Hco]. injection Hco as -> -> ->.
    assert (Hle : 4 + 4 * Z.of_nat (S k) <= R) by lia.
    pose proof (run_blocks_inv VLMAX tail o i f R C st HC Hin Hflt (S k)
                  4 i__ s1 ltac:(lia) Hle Hinv) as Hrun.
    cbv zeta in Hrun. destruct Hrun as (_ & _ & _ & Hwin).
    specialize (Hwin ltac:(lia)).
    replace (4 + 4 * Z.of_nat (S k) - 4) with (4 * Z.of_nat (S k)) in Hwin by lia.
    exact Hwin.
Qed.

(** The claim as stated fails in two ways.  When the processing of block 2
    of a valid 12 x 4 invocation starts (the register group has 8 lanes, the
    row fits), [v8] still holds input row 4, not row 8, and [v12] does not
    hold row 10: the rows of a block are in the window only once the block
    has moved and loaded them.  And with a register group of 4 lanes, in a
    valid 4 x 8 invocation, [v8] after block 0 does not hold element 4 of
    input row 0. *)
Lemma C2_counterexample_window_at_block_start :
  (valid_invocation Example.o_ptr Example.i_ptr Example.f_ptr 12 4 3 /\
   (4 + 2 <= Z.of_nat 8) /\
   let s2 := block_start 8 Example.keep Example.o_ptr Example.i_ptr Example.f_ptr
                         4 Example.tall 2 in
   v8 (vregs s2) 0%nat = input_at (mem Example.tall) Example.i_ptr 4 4 0 /\
   v8 (vregs s2) 0%nat <> input_at (mem Example.tall) Example.i_ptr 4 8 0 /\
   v12 (vregs s2) 0%nat <> input_at (mem Example.tall) Example.i_ptr 4 10 0) /\
  (valid_invocation Example.o_ptr Example.i_ptr Example.f_ptr 4 8 3 /\
   let e0 := block_end 4 Example.keep Example.o_ptr Example.i_ptr Example.f_ptr
                       8 Example.wide_dirty 0 in
   v8 (vregs e0) 4%nat <> input_at (mem Example.wide_dirty) Example.i_ptr 8 0 4).
Proof.
  split.
  - split; [exact tall_valid|]. split; [cbn; lia|].
    cbv zeta. split; [vm_compute; reflexivity|].
    split; vm_compute; discriminate.
  - split; [exact wide_valid|]. cbv zeta. vm_compute. discriminate.
Qed.

(** With the row inside the register group, the lanes the row load fills
    are the whole row. *)
Lemma holds_row_whole {F : Type} (VLMAX : nat) (m0 : memory F) (i C : Z)
    (x : lanes F) (r : Z) :
  0 <= C -> C + 2 <= Z.of_nat VLMAX ->
  holds_row VLMAX m0 i C x r -> holds_whole_row m0 i C x r.
Proof.
  intros HC Hfit H c Hc. rewrite (H (Z.to_nat c)).
  - unfold row_lanes, input_at, lane_addr, ptr_add. f_equal. lia.
  - replace (C + 3 - 1) with (C + 2) by lia. rewrite grant_fits by lia. lia.
Qed.

Lemma window_holds_whole_rows {F : Type} (VLMAX : nat) (m0 : memory F)
    (i C : Z) (rf : vrf F) (r : Z) :
  0 <= C -> C + 2 <= Z.of_nat VLMAX ->
  window_holds VLMAX m0 i C rf r -> window_holds_whole m0 i C rf r.
Proof.
  intros HC Hfit (W8 & W10 & W12 & W14 & W16 & W18).
  repeat split; apply (holds_row_whole VLMAX); assumption.
Qed.

(** The two rows the loop iteration of block [k >= 1] finds in [v16] and
    [v18]. *)
Lemma block_start_rows {F : Type} {ops : FloatOps F} (VLMAX : nat)
    (tail : vreg -> nat -> F -> F) (o i f R C : Z) (st : state F) (k : nat) :
  valid_invocation o i f R C 3 -> Z.of_nat (S k) < R / 4 ->
  holds_row VLMAX (mem st) i C
            (v16 (vregs (block_start VLMAX tail o i f C st (S k))))
            (4 * Z.of_nat (S k)) /\
  holds_row VLMAX (mem st) i C
            (v18 (vregs (block_start VLMAX tail o i f C st (S k))))
            (4 * Z.of_nat (S k) + 1).
Proof.
  intros [_ HR0 HR4 HC Hin Hflt] Hk.
  destruct (blocks_of_R R HR0 HR4) as (HR & Hn & _ & _).
  cbn [block_start].
  pose proof (prologue_inv VLMAX tail o i f R C st HC HR Hin Hflt) as Hp.
  cbv zeta in Hp.
  destruct (prologue VLMAX tail o i f C 3 4 st) as [[i__ [[t0 t1] t2]] s1].
  cbn [fst snd] in *. destruct Hp as [Hinv Hco]. injection Hco as -> -> ->.
  assert (Hle : 4 + 4 * Z.of_nat k <= R) by lia.
  pose proof (run_blocks_inv VLMAX tail o i f R C st HC Hin Hflt k
                4 i__ s1 ltac:(lia) Hle Hinv) as Hrun.
  cbv zeta in Hrun. destruct Hrun as (_ & (_ & H16 & H18 & _) & _).
  replace (4 * Z.of_nat (S k)) with (4 + 4 * Z.of_nat k) by lia.
  split; assumption.
Qed.

(** C2, amended.  In a valid invocation whose padded row fits the register
    group, for every block [k < R/4]: once the block has been processed, the
    window registers [v8 v10 v12 v14 v16 v18] hold the whole input rows
    [4k .. 4k+5].  When the processing of block 0 starts, after the
    bootstrap load, [v8] and [v10] hold the rows 0 and 1, and the block
    leaves them as they are.  When the processing of a later block starts,
    at the head of its loop iteration, [v16] and [v18] hold the rows [4k]
    and [4k+1], and the first two rows of the block's window are the last
    two rows of the window of the block before. *)
Theorem C2_window_holds_whole_rows_once_block_is_processed
    {F : Type} {ops : FloatOps F} (VLMAX : nat) (tail : vreg -> nat -> F -> F)
    (o i f R C F_ : Z) (st : state F) :
  valid_invocation o i f R C F_ ->
  C + 2 <= Z.of_nat VLMAX ->
  forall k, Z.of_nat k < R / 4 ->
    let s_k := block_start VLMAX tail o i f C st k in
    let e_k := block_end VLMAX tail o i f C st k in
    window_holds_whole (mem st) i C (vregs e_k) (4 * Z.of_nat k) /\
    match k with
    | O =>
        holds_whole_row (mem st) i C (v8 (vregs s_k)) 0 /\
        holds_whole_row (mem st) i C (v10 (vregs s_k)) 1 /\
        v8 (vregs e_k) = v8 (vregs s_k) /\ v10 (vregs e_k) = v10 (vregs s_k)
    | S k' =>
        let e_prev := block_end VLMAX tail o i f C st k' in
        holds_whole_row (mem st) i C (v16 (vregs s_k)) (4 * Z.of_nat k) /\
        holds_whole_row (mem st) i C (v18 (vregs s_k)) (4 * Z.of_nat k + 1) /\
        forall c, 0 <= c < C + 2 ->
          v8 (vregs e_k) (Z.to_nat c) = v16 (vregs e_prev) (Z.to_nat c) /\
          v10 (vregs e_k) (Z.to_nat c) = v18 (vregs e_prev) (Z.to_nat c)
    end.
Proof.
  intros Hv Hfit k Hk s_k e_k.
  assert (Hv3 : valid_invocation o i f R C 3)
    by (destruct Hv as [HF ? ? ? ? ?]; rewrite <- HF; constructor; auto).
  assert (HC : 0 <= C) by (destruct Hv3; lia).
  pose proof (window_holds_whole_rows VLMAX _ _ _ _ _ HC Hfit
                (block_end_window VLMAX tail o i f R C st k Hv3 Hk)) as W.
  fold e_k in W. split; [exact W|].
  destruct k as [|k'].
  - subst s_k e_k. cbn [block_start block_end].
    destruct (bootstrap_rows VLMAX tail i C st) as [B8 B10].
    split; [|split; [|split]].
    + apply (holds_row_whole VLMAX); assumption.
    + apply (holds_row_whole VLMAX); assumption.
    + apply block_v8.
    + apply block_v10.
  - intros e_prev.
    destruct (block_start_rows VLMAX tail o i f R C st k' Hv3 Hk) as [S16 S18].
    fold s_k in S16, S18.
    split; [apply (holds_row_whole VLMAX); assumption|].
    split; [apply (holds_row_whole VLMAX); assumption|].
    intros c Hc.
    pose proof (window_holds_whole_rows VLMAX _ _ _ _ _ HC Hfit
                  (block_end_window VLMAX tail o i f R C st k' Hv3 ltac:(lia)))
      as W'.
    fold e_prev in W'.
    destruct W as (W8 & W10 & _). destruct W' as (_ & _ & _ & _ & W16 & W18).
    rewrite (W8 c Hc), (W10 c Hc), (W16 c Hc), (W18 c Hc).
    split; f_equal; lia.
Qed.

Lemma C2_window_holds_whole_rows_once_block_is_processed_witness :
  valid_invocation Example.o_ptr Example.i_ptr Example.f_ptr 8 4 3 /\
  4 + 2 <= Z.of_nat 8 /\
  Z.of_nat 1 < 8 / 4 /\
  let s_k := block_start 8 Example.keep Example.o_ptr Example.i_ptr Example.f_ptr
                         4 Example.small 1 in
  let e_k := block_end 8 Example.keep Example.o_ptr Example.i_ptr Example.f_ptr
                       4 Example.small 1 in
  window_holds_whole (mem Example.small) Example.i_ptr 4 (vregs e_k)
                     (4 * Z.of_nat 1) /\
  let e_prev := block_end 8 Example.keep Example.o_ptr Example.i_ptr
                          Example.f_ptr 4 Example.small 0 in
  holds_whole_row (mem Example.small) Example.i_ptr 4 (v16 (vregs s_k))
                  (4 * Z.of_nat 1) /\
  holds_whole_row (mem Example.small) Example.i_ptr 4 (v18 (vregs s_k))
                  (4 * Z.of_nat 1 + 1) /\
  forall c, 0 <= c < 4 + 2 ->
    v8 (vregs e_k) (Z.to_nat c) = v16 (vregs e_prev) (Z.to_nat c) /\
    v10 (vregs e_k) (Z.to_nat c) = v18 (vregs e_prev) (Z.to_nat c).
Proof.
  split; [exact small_valid|]. split; [cbn; lia|].
  split; [vm_compute; reflexivity|].
  apply (C2_window_holds_whole_rows_once_block_is_processed 8 Example.keep
           Example.o_ptr Example.i_ptr Example.f_ptr 8 4 3 Example.small
           small_valid ltac:(cbn; lia) 1%nat).
  vm_compute. reflexivity.
Defined.

(** ** C3: the two implementations of the block compute step *)

(** C3.  On any state, the loop body with the column-0 coefficients of the
    filter in memory leaves the memory, every lane of every vector register
    and the vector length exactly as the slide followed by the block helper
    does; the floating-point operations are uninterpreted, so the two apply
    the same operations to the same operands in the same order.  In a valid
    invocation the coefficients [t0 t1 t2] loaded once before the loop are
    those of the memory at the head of every iteration, so each iteration of
    the driver computes what the helper would. *)
Theorem C3_loop_body_computes_as_block_helper
    {F : Type} {ops : FloatOps F} (VLMAX : nat) (tail : vreg -> nat -> F -> F)
    (o i f R C F_ : Z) (st : state F) :
  (forall r i__ (s : state F),
     let ldf := shl3 F_ in
     let a := snd (loop_body VLMAX tail o i f C F_ 4 (shl3 (C + F_ - 1)) ldf
                     (mem s f) (mem s (f + ldf)) (mem s (f + ldf + ldf))
                     r i__ s) in
     let b := snd (fconv2d_vec_4xC_3x3 VLMAX tail (ptr_add o (r * C)) i__ f C F_
                     (snd (fconv2d_vec_4xC_slice_move_3x3 VLMAX tail C F_ s))) in
     mem a = mem b /\ vregs a = vregs b /\ vl a = vl b) /\
  (valid_invocation o i f R C F_ ->
   forall k, Z.of_nat k < R / 4 - 1 ->
     let p := prologue VLMAX tail o i f C F_ 4 st in
     let t0 := fst (fst (snd (fst p))) in
     let t1 := snd (fst (snd (fst p))) in
     let t2 := snd (snd (fst p)) in
     let h := run_blocks VLMAX tail o i f C F_ t0 t1 t2 k 4 (fst (fst p)) (snd p) in
     let r := fst (fst h) in
     let i__ := snd (fst h) in
     let a := snd (loop_body VLMAX tail o i f C F_ 4 (shl3 (C + F_ - 1)) (shl3 F_)
                     t0 t1 t2 r i__ (snd h)) in
     let b := snd (fconv2d_vec_4xC_3x3 VLMAX tail (ptr_add o (r * C)) i__ f C F_
                     (snd (fconv2d_vec_4xC_slice_move_3x3 VLMAX tail C F_ (snd h)))) in
     mem a = mem b /\ vregs a = vregs b /\ vl a = vl b).
Proof.
  split.
  - intros r i__ s. apply loop_body_refines.
  - intros [-> HR0 HR4 HC Hin Hflt] k Hk.
    destruct (blocks_of_R R HR0 HR4) as (HR & Hn & _ & _).
    pose proof (prologue_inv VLMAX tail o i f R C st HC HR Hin Hflt) as Hp.
    cbv zeta in Hp.
    destruct (prologue VLMAX tail o i f C 3 4 st) as [[i0 [[t0 t1] t2]] s1].
    cbn [fst snd] in *. destruct Hp as [Hinv Hco]. injection Hco as -> -> ->.
    pose proof (run_blocks_inv VLMAX tail o i f R C st HC Hin Hflt k
                  4 i0 s1 ltac:(lia) ltac:(lia) Hinv) as Hrun.
    cbv zeta in Hrun. destruct Hrun as (_ & (_ & _ & _ & Hst) & _).
    set (h := run_blocks VLMAX tail o i f C 3 (mem st (ptr_add f 0))
                (mem st (ptr_add f 3)) (mem st (ptr_add f 6)) k 4 i0 s1) in *.
    assert (Hf : forall j, 0 <= j < 9 ->
              mem st (ptr_add f j) = mem (snd h) (ptr_add f j))
      by (intros; symmetry;
          apply (frame_filter VLMAX o i f R C (mem st) HC Hflt (4 + 4 * Z.of_nat k));
          [exact Hst | lia | lia]).
    rewrite !Hf by lia.
    replace (ptr_add f 0) with f by (unfold ptr_add; lia).
    replace (ptr_add f 3) with (f + shl3 3)
      by (rewrite shl3_eq; unfold ptr_add; lia).
    replace (ptr_add f 6) with (f + shl3 3 + shl3 3)
      by (rewrite shl3_eq; unfold ptr_add; lia).
    apply loop_body_refines.
Qed.

Lemma C3_loop_body_computes_as_block_helper_witness :
  valid_invocation Example.o_ptr Example.i_ptr Example.f_ptr 8 4 3 /\
  Z.of_nat 0 < 8 / 4 - 1 /\
  let p := prologue 8 Example.keep Example.o_ptr Example.i_ptr Example.f_ptr
                    4 3 4 Example.small in
  let t0 := fst (fst (snd (fst p))) in
  let t1 := snd (fst (snd (fst p))) in
  let t2 := snd (snd (fst p)) in
  let h := run_blocks 8 Example.keep Example.o_ptr Example.i_ptr Example.f_ptr
                      4 3 t0 t1 t2 0 4 (fst (fst p)) (snd p) in
  let r := fst (fst h) in
  let i__ := snd (fst h) in
  let a := snd (loop_body 8 Example.keep Example.o_ptr Example.i_ptr
                  Example.f_ptr 4 3 4 (shl3 (4 + 3 - 1)) (shl3 3)
                  t0 t1 t2 r i__ (snd h)) in
  let b := snd (fconv2d_vec_4xC_3x3 8 Example.keep
                  (ptr_add Example.o_ptr (r * 4)) i__ Example.f_ptr 4 3
                  (snd (fconv2d_vec_4xC_slice_move_3x3 8 Example.keep 4 3 (snd h)))) in
  mem a = mem b /\ vregs a = vregs b /\ vl a = vl b.
Proof.
  split; [exact small_valid|]. split; [vm_compute; reflexivity|].
  refine (proj2 (C3_loop_body_computes_as_block_helper 8 Example.keep
                   Example.o_ptr Example.i_ptr Example.f_ptr 8 4 3 Example.small)
                small_valid 0%nat _).
  vm_compute. reflexivity.
Defined.

(** ** C5: termination and the number of blocks *)

(** C5.  A valid invocation returns, in the state the prologue (bootstrap,
    first block, slide, coefficient loads; once) followed by exactly
    [ceil(R/4) - 1] executions of the loop body leaves; the loop is left with
    the row cursor [r = R]; any fuel of at least that many iterations gives
    the same result, so no run of a valid invocation ends otherwise. *)
Theorem C5_returns_after_quarter_R_minus_one_iterations
    {F : Type} {ops : FloatOps F} (VLMAX : nat) (tail : vreg -> nat -> F -> F)
    (o i f R C F_ : Z) (st : state F) :
  valid_invocation o i f R C F_ ->
  let n := Z.to_nat ((R + 3) / 4 - 1) in
  let p := prologue VLMAX tail o i f C F_ 4 st in
  let final :=
    snd (run_blocks VLMAX tail o i f C F_
           (fst (fst (snd (fst p)))) (snd (fst (snd (fst p))))
           (snd (snd (fst p))) n 4 (fst (fst p)) (snd p)) in
  fconv2d_3x3 VLMAX tail o i f R C F_ st = Some final /\
  forall fuel, (n <= fuel)%nat ->
    fconv2d_3x3_fuel VLMAX tail fuel o i f R C F_ st = Some (R, final).
Proof.
  intros Hv n p final.
  destruct (kernel_run VLMAX tail o i f R C F_ st Hv) as (st' & Hf & E & _).
  destruct Hv as [_ HR0 HR4 _ _ _].
  destruct (blocks_of_R R HR0 HR4) as (_ & _ & Hfuel & Hceil).
  assert (En : n = Z.to_nat (R / 4 - 1)) by (subst n; rewrite Hceil; reflexivity).
  assert (Es : st' = final) by (subst final p; rewrite En; exact E).
  rewrite <- Es. split.
  - unfold fconv2d_3x3. rewrite (Hf _ Hfuel). reflexivity.
  - intros fuel Hle. apply Hf. lia.
Qed.

Lemma C5_returns_after_quarter_R_minus_one_iterations_witness :
  valid_invocation Example.o_ptr Example.i_ptr Example.f_ptr 8 4 3 /\
  let n := Z.to_nat ((8 + 3) / 4 - 1) in
  let p := prologue 8 Example.keep Example.o_ptr Example.i_ptr Example.f_ptr
                    4 3 4 Example.small in
  let final :=
    snd (run_blocks 8 Example.keep Example.o_ptr Example.i_ptr Example.f_ptr 4 3
           (fst (fst (snd (fst p)))) (snd (fst (snd (fst p))))
           (snd (snd (fst p))) n 4 (fst (fst p)) (snd p)) in
  fconv2d_3x3 8 Example.keep Example.o_ptr Example.i_ptr Example.f_ptr 8 4 3
              Example.small = Some final /\
  forall fuel, (n <= fuel)%nat ->
    fconv2d_3x3_fuel 8 Example.keep fuel Example.o_ptr Example.i_ptr
                     Example.f_ptr 8 4 3 Example.small = Some (8, final).
Proof.
  split; [exact small_valid|].
  apply (C5_returns_after_quarter_R_minus_one_iterations 8 Example.keep
           Example.o_ptr Example.i_ptr Example.f_ptr 8 4 3 Example.small small_valid).
Defined.

(** ** C7: the input and the filter are only read *)

(** C7.  A valid invocation returns with every memory cell outside the
    [R * C] doubles of the output buffer as it was; in particular every
    element of the input and of the filter has its original value. *)
Theorem C7_only_the_output_buffer_changes
    {F : Type} {ops : FloatOps F} (VLMAX : nat) (tail : vreg -> nat -> F -> F)
    (o i f R C F_ : Z) (st : state F) :
  valid_invocation o i f R C F_ ->
  exists st',
    fconv2d_3x3 VLMAX tail o i f R C F_ st = Some st' /\
    (forall a, ~ cell o (R * C) a -> mem st' a = mem st a) /\
    (forall k, 0 <= k < (R + 2) * (C + 2) ->
       mem st' (ptr_add i k) = mem st (ptr_add i k)) /\
    (forall k, 0 <= k < 9 -> mem st' (ptr_add f k) = mem st (ptr_add f k)).
Proof.
  intros Hv.
  destruct (output_frame VLMAX tail o i f R C F_ st Hv) as (st' & E & Hf).
  exists st'. split; [exact E|]. split; [exact Hf|].
  destruct Hv as [_ HR0 _ HC Hin Hflt].
  split; intros k Hk; apply Hf; intros Hc; apply cell_range in Hc;
    unfold ptr_add in Hc.
  - destruct Hin; nia.
  - destruct Hflt; nia.
Qed.

Lemma C7_only_the_output_buffer_changes_witness :
  valid_invocation Example.o_ptr Example.i_ptr Example.f_ptr 8 4 3 /\
  exists st',
    fconv2d_3x3 8 Example.keep Example.o_ptr Example.i_ptr Example.f_ptr 8 4 3
                Example.small = Some st' /\
    (forall a, ~ cell Example.o_ptr (8 * 4) a -> mem st' a = mem Example.small a) /\
    (forall k, 0 <= k < (8 + 2) * (4 + 2) ->
       mem st' (ptr_add Example.i_ptr k) = mem Example.small (ptr_add Example.i_ptr k)) /\
    (forall k, 0 <= k < 9 ->
       mem st' (ptr_add Example.f_ptr k) = mem Example.small (ptr_add Example.f_ptr k)).
Proof.
  split; [exact small_valid|].
  apply (C7_only_the_output_buffer_changes 8 Example.keep Example.o_ptr
           Example.i_ptr Example.f_ptr 8 4 3 Example.small small_valid).
Defined.

(** ** C4: every output element is written once, in row-major order *)

(** On every unit, an output row wider than the register group is not
    stored in full: the cell of [output[0][VLMAX]] is left as it was. *)
Lemma row_wider_than_group_leaves_cell_unwritten
    {F : Type} {ops : FloatOps F} (VLMAX : nat) (tail : vreg -> nat -> F -> F)
    (o i f R C F_ : Z) (st : state F) :
  valid_invocation o i f R C F_ ->
  Z.of_nat VLMAX < C ->
  exists st',
    fconv2d_3x3 VLMAX tail o i f R C F_ st = Some st' /\
    output_at (mem st') o C 0 (Z.of_nat VLMAX) =
    output_at (mem st) o C 0 (Z.of_nat VLMAX).
Proof.
  intros Hv Hw.
  destruct (kernel_returns VLMAX tail o i f R C F_ st Hv) as (st' & E & _ & [_ Hf] & _).
  exists st'. split; [exact E|].
  unfold output_at. apply Hf. intros r c Hr Hc Heq.
  pose proof (grant_le VLMAX C). unfold ptr_add in Heq.
  assert (r = 0 \/ 1 <= r) as [-> | Hr1] by lia; nia.
Qed.

(** C4, as amended.  For every valid invocation whose output row fits one
    register group ([C <= VLMAX]), the call returns and the stores it has
    performed are exactly the cells [o, o+8, ..., o+8(R*C-1)], each once and
    in this order: rows top to bottom, blocks in increasing row order. *)
Theorem C4_stores_every_output_cell_once_in_order_when_row_fits
    {F : Type} {ops : FloatOps F} (VLMAX : nat) (tail : vreg -> nat -> F -> F)
    (o i f R C F_ : Z) (st : state F) :
  valid_invocation o i f R C F_ ->
  C <= Z.of_nat VLMAX ->
  exists st' evs,
    fconv2d_3x3 VLMAX tail o i f R C F_ st = Some st' /\
    log st' = log st ++ evs /\
    store_addrs evs = row_addrs o (Z.to_nat (R * C)).
Proof.
  intros Hv Hfit.
  destruct (kernel_returns VLMAX tail o i f R C F_ st Hv) as (st' & E & _ & _ & Hl).
  exists st', (kernel_trace (F := F) VLMAX o i f R C).
  split; [exact E|]. split; [exact Hl|].
  destruct Hv as [_ HR0 HR4 HC _ _].
  apply kernel_trace_stores; [exact HC | exact HR0 | exact HR4 | lia].
Qed.

Lemma C4_stores_every_output_cell_once_in_order_when_row_fits_witness :
  valid_invocation Example.o_ptr Example.i_ptr Example.f_ptr 8 4 3 /\
  4 <= Z.of_nat 8 /\
  exists st' evs,
    fconv2d_3x3 8 Example.keep Example.o_ptr Example.i_ptr Example.f_ptr 8 4 3
                Example.small = Some st' /\
    log st' = log Example.small ++ evs /\
    store_addrs evs = row_addrs Example.o_ptr (Z.to_nat (8 * 4)).
Proof.
  split; [exact small_valid|]. split; [cbn; lia|].
  apply C4_stores_every_output_cell_once_in_order_when_row_fits;
    [exact small_valid | cbn; lia].
Defined.

(** C4 as stated fails.  On a unit with [VLMAX = 4] the valid 4 x 8
    invocation returns having stored only the first four elements of each
    output row: [output[0][4]] is never written and keeps its old value. *)
Lemma C4_counterexample_row_wider_than_registers :
  valid_invocation Example.o_ptr Example.i_ptr Example.f_ptr 4 8 3 /\
  exists st',
    fconv2d_3x3 4 Example.keep Example.o_ptr Example.i_ptr Example.f_ptr 4 8 3
                Example.wide_dirty = Some st' /\
    store_addrs (log st') =
      [8192; 8200; 8208; 8216; 8256; 8264; 8272; 8280;
       8320; 8328; 8336; 8344; 8384; 8392; 8400; 8408] /\
    ~ In (ptr_add Example.o_ptr (0 * 8 + 4)) (store_addrs (log st')) /\
    output_at (mem st') Example.o_ptr 8 0 4 =
    output_at (mem Example.wide_dirty) Example.o_ptr 8 0 4.
Proof.
  split; [exact wide_valid|].
  assert (H : option_map (fun st' => (store_addrs (log st'),
                                      output_at (mem st') Example.o_ptr 8 0 4))
                (fconv2d_3x3 4 Example.keep Example.o_ptr Example.i_ptr
                             Example.f_ptr 4 8 3 Example.wide_dirty)
              = Some ([8192; 8200; 8208; 8216; 8256; 8264; 8272; 8280;
                       8320; 8328; 8336; 8344; 8384; 8392; 8400; 8408],
                      Example.one)) by (vm_compute; reflexivity).
  destruct (fconv2d_3x3 4 Example.keep Example.o_ptr Example.i_ptr
                        Example.f_ptr 4 8 3 Example.wide_dirty) as [st'|];
    [|discriminate H].
  cbn [option_map] in H. injection H as Hs Ho.
  exists st'. split; [reflexivity|]. split; [exact Hs|]. split.
  - rewrite Hs. vm_compute. intros H.
    repeat (destruct H as [H|H]; [discriminate H|]). exact H.
  - rewrite Ho. vm_compute. reflexivity.
Qed.

(** ** C8: the smallest valid case *)

Lemma fconv2d_3x3_unfold {F : Type} {ops : FloatOps F} (VLMAX : nat)
    (tail : vreg -> nat -> F -> F) (o i f R C F_ : Z) (st : state F) :
  fconv2d_3x3 VLMAX tail o i f R C F_ st =
  option_map snd (fconv2d_3x3_fuel VLMAX tail (Z.to_nat R) o i f R C F_ st).
Proof. reflexivity. Qed.

Lemma some_inj {A : Type} (a b : A) : Some a = Some b -> a = b.
Proof. intros H. now injection H. Qed.

Lemma option_map_snd_some {A B : Type} (a : A) (b : B) :
  option_map snd (Some (a, b)) = Some b.
Proof. reflexivity. Qed.

(** With [R = 4] the loop condition fails at once. *)
Lemma smallest_case_fuel {F : Type} {ops : FloatOps F} (VLMAX : nat)
    (tail : vreg -> nat -> F -> F) (o i f C F_ : Z) (st : state F) fuel :
  fconv2d_3x3_fuel VLMAX tail fuel o i f 4 C F_ st =
  Some (4, snd (prologue VLMAX tail o i f C F_ 4 st)).
Proof.
  unfold fconv2d_3x3_fuel.
  destruct (prologue VLMAX tail o i f C F_ 4 st) as [[i__ [[t0 t1] t2]] s1].
  cbn [snd]. destruct fuel; cbn [steady_state]; reflexivity.
Qed.

Lemma smallest_case_returns {F : Type} {ops : FloatOps F} (VLMAX : nat)
    (tail : vreg -> nat -> F -> F) (o i f C F_ : Z) (st : state F) :
  fconv2d_3x3 VLMAX tail o i f 4 C F_ st =
  Some (snd (prologue VLMAX tail o i f C F_ 4 st)).
Proof.
  rewrite fconv2d_3x3_unfold, smallest_case_fuel. apply option_map_snd_some.
Qed.

Lemma smallest_case_stores {F : Type} {ops : FloatOps F} (VLMAX : nat) (o i f : Z) :
  (3 <= VLMAX)%nat ->
  store_addrs (prologue_trace (F := F) VLMAX o i f 1 3) = [o; o + 8; o + 16; o + 24].
Proof.
  intros HV. rewrite prologue_trace_stores. rewrite grant_fits by lia.
  change (Z.to_nat 1) with 1%nat. unfold row_addrs, lane_addr, ptr_add.
  cbn [seq map app Z.of_nat]. repeat (f_equal; try lia).
Qed.

(** C8.  On a unit with at least three lanes per register group, the
    invocation [R = 4], [C = 1], [F = 3] on a 6 x 3 padded input returns from
    the prologue alone (the loop runs no iteration, whatever the fuel), has
    stored exactly the four cells of the 4 x 1 output, and each of them is
    the reference sum at its position. *)
Theorem C8_smallest_case_four_outputs_from_bootstrap_path
    {F : Type} {ops : FloatOps F} (VLMAX : nat) (tail : vreg -> nat -> F -> F)
    (o i f : Z) (st : state F) :
  (3 <= VLMAX)%nat ->
  valid_invocation o i f 4 1 3 ->
  let st' := snd (prologue VLMAX tail o i f 1 3 4 st) in
  (forall fuel, fconv2d_3x3_fuel VLMAX tail fuel o i f 4 1 3 st = Some (4, st')) /\
  fconv2d_3x3 VLMAX tail o i f 4 1 3 st = Some st' /\
  (exists evs, log st' = log st ++ evs /\
               store_addrs evs = [o; o + 8; o + 16; o + 24]) /\
  forall r, 0 <= r < 4 ->
    output_at (mem st') o 1 r 0 =
    conv_ref (filter_at (mem st) f) (input_at (mem st) i 1) r 0.
Proof.
  intros HV Hv. cbv zeta.
  split; [intros fuel; apply smallest_case_fuel|].
  split; [apply smallest_case_returns|]. split.
  - exists (prologue_trace (F := F) VLMAX o i f 1 3). split.
    + apply prologue_log.
    + apply smallest_case_stores. exact HV.
  - destruct (reference_when_rows_fit VLMAX tail o i f 4 1 3 st Hv
                ltac:(lia)) as (st'' & E' & H).
    rewrite smallest_case_returns in E'. apply some_inj in E'. subst st''.
    intros r Hr. apply H; lia.
Qed.

Lemma C8_smallest_case_four_outputs_from_bootstrap_path_witness :
  (3 <= 4)%nat /\
  valid_invocation Example.o_ptr Example.i_ptr Example.f_ptr 4 1 3 /\
  let st' := snd (prologue 4 Example.keep Example.o_ptr Example.i_ptr
                           Example.f_ptr 1 3 4 Example.smallest) in
  (forall fuel, fconv2d_3x3_fuel 4 Example.keep fuel Example.o_ptr Example.i_ptr
                                 Example.f_ptr 4 1 3 Example.smallest
                = Some (4, st')) /\
  fconv2d_3x3 4 Example.keep Example.o_ptr Example.i_ptr Example.f_ptr 4 1 3
              Example.smallest = Some st' /\
  (exists evs, log st' = log Example.smallest ++ evs /\
               store_addrs evs = [Example.o_ptr; Example.o_ptr + 8;
                                  Example.o_ptr + 16; Example.o_ptr + 24]) /\
  forall r, 0 <= r < 4 ->
    output_at (mem st') Example.o_ptr 1 r 0 =
    conv_ref (filter_at (mem Example.smallest) Example.f_ptr)
             (input_at (mem Example.smallest) Example.i_ptr 1) r 0.
Proof.
  split; [lia|]. split; [exact smallest_valid|].
  apply (C8_smallest_case_four_outputs_from_bootstrap_path 4 Example.keep
           Example.o_ptr Example.i_ptr Example.f_ptr Example.smallest
           ltac:(lia) smallest_valid).
Defined.

(** ** C9: determinism *)

(** C9, as amended.  Two valid invocations whose output row fits one
    register group ([C <= VLMAX]), with the same [R], [C], [F], with input
    buffers of equal content and filters of equal content, return with
    output buffers of equal content, element by element: whatever the two
    states otherwise are (vector registers, vector length, old content of
    the output buffers, the rest of the memory), wherever the buffers lie,
    and whatever the unit does to tail lanes. *)
Theorem C9_equal_inputs_give_equal_outputs_when_row_fits
    {F : Type} {ops : FloatOps F} (VLMAX : nat)
    (tail1 tail2 : vreg -> nat -> F -> F)
    (o1 i1 f1 o2 i2 f2 R C F_ : Z) (st1 st2 : state F) :
  valid_invocation o1 i1 f1 R C F_ ->
  valid_invocation o2 i2 f2 R C F_ ->
  C <= Z.of_nat VLMAX ->
  (forall k, 0 <= k < (R + 2) * (C + 2) ->
     mem st1 (ptr_add i1 k) = mem st2 (ptr_add i2 k)) ->
  (forall k, 0 <= k < 9 -> mem st1 (ptr_add f1 k) = mem st2 (ptr_add f2 k)) ->
  exists st1' st2',
    fconv2d_3x3 VLMAX tail1 o1 i1 f1 R C F_ st1 = Some st1' /\
    fconv2d_3x3 VLMAX tail2 o2 i2 f2 R C F_ st2 = Some st2' /\
    forall r c, 0 <= r < R -> 0 <= c < C ->
      output_at (mem st1') o1 C r c = output_at (mem st2') o2 C r c.
Proof.
  intros Hv1 Hv2 Hfit Hi Hf.
  destruct (output_cells VLMAX tail1 o1 i1 f1 R C F_ st1 Hv1) as (st1' & E1 & H1).
  destruct (output_cells VLMAX tail2 o2 i2 f2 R C F_ st2 Hv2) as (st2' & E2 & H2).
  exists st1', st2'. split; [exact E1|]. split; [exact E2|].
  intros r c Hr Hc. rewrite H1, H2 by lia.
  apply (kernel_val_ext VLMAX (mem st1) (mem st2) i1 f1 i2 f2 R C r (Z.to_nat c));
    [exact Hr | lia | exact Hi | exact Hf].
Qed.

Lemma wide_same_input k :
  0 <= k < (4 + 2) * (8 + 2) ->
  mem Example.wide (ptr_add Example.i_ptr k) =
  mem Example.wide_dirty (ptr_add Example.i_ptr k).
Proof.
  intros Hk.
  unfold Example.wide, Example.wide_dirty, Example.start, Example.image, mem,
         ptr_add, Example.i_ptr, Example.f_ptr.
  destruct (Z.ltb_spec (0 + 8 * k) 4096); [reflexivity | lia].
Defined.

Lemma wide_same_filter k :
  0 <= k < 9 ->
  mem Example.wide (ptr_add Example.f_ptr k) =
  mem Example.wide_dirty (ptr_add Example.f_ptr k).
Proof.
  intros Hk.
  unfold Example.wide, Example.wide_dirty, Example.start, Example.image, mem,
         ptr_add, Example.f_ptr, Example.o_ptr.
  destruct (Z.ltb_spec (4096 + 8 * k) 4096); [reflexivity|].
  destruct (Z.ltb_spec (4096 + 8 * k) 8192); [reflexivity | lia].
Defined.

Lemma C9_equal_inputs_give_equal_outputs_when_row_fits_witness :
  valid_invocation Example.o_ptr Example.i_ptr Example.f_ptr 4 8 3 /\
  valid_invocation Example.o_ptr Example.i_ptr Example.f_ptr 4 8 3 /\
  8 <= Z.of_nat 8 /\
  (forall k, 0 <= k < (4 + 2) * (8 + 2) ->
     mem Example.wide (ptr_add Example.i_ptr k) =
     mem Example.wide_dirty (ptr_add Example.i_ptr k)) /\
  (forall k, 0 <= k < 9 ->
     mem Example.wide (ptr_add Example.f_ptr k) =
     mem Example.wide_dirty (ptr_add Example.f_ptr k)) /\
  exists st1' st2',
    fconv2d_3x3 8 Example.keep Example.o_ptr Example.i_ptr Example.f_ptr 4 8 3
                Example.wide = Some st1' /\
    fconv2d_3x3 8 Example.ones Example.o_ptr Example.i_ptr Example.f_ptr 4 8 3
                Example.wide_dirty = Some st2' /\
    forall r c, 0 <= r < 4 -> 0 <= c < 8 ->
      output_at (mem st1') Example.o_ptr 8 r c =
      output_at (mem st2') Example.o_ptr 8 r c.
Proof.
  split; [exact wide_valid|]. split; [exact wide_valid|]. split; [cbn; lia|].
  split; [exact wide_same_input|]. split; [exact wide_same_filter|].
  apply (C9_equal_inputs_give_equal_outputs_when_row_fits 8 Example.keep
           Example.ones Example.o_ptr Example.i_ptr Example.f_ptr
           Example.o_ptr Example.i_ptr Example.f_ptr 4 8 3
           Example.wide Example.wide_dirty wide_valid wide_valid
           ltac:(cbn; lia) wide_same_input wide_same_filter).
Defined.

(** C9 as stated fails.  On a unit with [VLMAX = 4], two valid 4 x 8
    invocations with the same input and the same filter, one on a zeroed and
    one on a dirty output buffer, return with different output buffers:
    [output[0][4]] is not written and keeps what each buffer had. *)
Lemma C9_counterexample_unwritten_cells_differ :
  valid_invocation Example.o_ptr Example.i_ptr Example.f_ptr 4 8 3 /\
  (forall k, 0 <= k < (4 + 2) * (8 + 2) ->
     mem Example.wide (ptr_add Example.i_ptr k) =
     mem Example.wide_dirty (ptr_add Example.i_ptr k)) /\
  (forall k, 0 <= k < 9 ->
     mem Example.wide (ptr_add Example.f_ptr k) =
     mem Example.wide_dirty (ptr_add Example.f_ptr k)) /\
  exists st1' st2',
    fconv2d_3x3 4 Example.keep Example.o_ptr Example.i_ptr Example.f_ptr 4 8 3
                Example.wide = Some st1' /\
    fconv2d_3x3 4 Example.keep Example.o_ptr Example.i_ptr Example.f_ptr 4 8 3
                Example.wide_dirty = Some st2' /\
    output_at (mem st1') Example.o_ptr 8 0 4 <>
    output_at (mem st2') Example.o_ptr 8 0 4.
Proof.
  split; [exact wide_valid|].
  split; [exact wide_same_input|]. split; [exact wide_same_filter|].
  assert (H1 : option_map (fun st' => output_at (mem st') Example.o_ptr 8 0 4)
                 (fconv2d_3x3 4 Example.keep Example.o_ptr Example.i_ptr
                              Example.f_ptr 4 8 3 Example.wide)
               = Some Example.zero) by (vm_compute; reflexivity).
  assert (H2 : option_map (fun st' => output_at (mem st') Example.o_ptr 8 0 4)
                 (fconv2d_3x3 4 Example.keep Example.o_ptr Example.i_ptr
                              Example.f_ptr 4 8 3 Example.wide_dirty)
               = Some Example.one) by (vm_compute; reflexivity).
  destruct (fconv2d_3x3 4 Example.keep Example.o_ptr Example.i_ptr
                        Example.f_ptr 4 8 3 Example.wide) as [st1'|];
    [|discriminate H1].
  destruct (fconv2d_3x3 4 Example.keep Example.o_ptr Example.i_ptr
                        Example.f_ptr 4 8 3 Example.wide_dirty) as [st2'|];
    [|discriminate H2].
  exists st1', st2'. split; [reflexivity|]. split; [reflexivity|].
  cbn [option_map] in H1, H2. apply some_inj in H1. apply some_inj in H2.
  rewrite H1, H2. vm_compute. discriminate.
Qed.

(** ** C10: memory accesses and lane reads *)

(** C10, as amended.  In a valid invocation every vector load reads a cell
    of the [(R+2) * (C+2)] doubles of the input, every scalar load a cell of
    the 9 doubles of the filter, and every store writes a cell of the
    [R * C] doubles of the output.  Every source lane a slide reads has index
    at most [C + 2]; index [C + 2] itself, one past the [C + 2] lanes a row
    is loaded into, is read from [v8] only (by the slide by one that runs
    while the vector length is still [C + 2]). *)
Theorem C10_accesses_in_bounds_slides_at_most_one_lane_past
    {F : Type} {ops : FloatOps F} (VLMAX : nat) (tail : vreg -> nat -> F -> F)
    (o i f R C F_ : Z) (st : state F) :
  valid_invocation o i f R C F_ ->
  exists st' evs,
    fconv2d_3x3 VLMAX tail o i f R C F_ st = Some st' /\
    log st' = log st ++ evs /\
    Forall (in_bounds o i f R C) evs.
Proof.
  intros Hv.
  destruct (kernel_returns VLMAX tail o i f R C F_ st Hv) as (st' & E & _ & _ & Hl).
  exists st', (kernel_trace (F := F) VLMAX o i f R C).
  split; [exact E|]. split; [exact Hl|].
  destruct Hv as [_ HR0 HR4 HC _ _].
  apply kernel_trace_bounds; assumption.
Qed.

Lemma C10_accesses_in_bounds_slides_at_most_one_lane_past_witness :
  valid_invocation Example.o_ptr Example.i_ptr Example.f_ptr 8 4 3 /\
  exists st' evs,
    fconv2d_3x3 8 Example.keep Example.o_ptr Example.i_ptr Example.f_ptr 8 4 3
                Example.small = Some st' /\
    log st' = log Example.small ++ evs /\
    Forall (in_bounds Example.o_ptr Example.i_ptr Example.f_ptr 8 4) evs.
Proof.
  split; [exact small_valid|].
  apply (C10_accesses_in_bounds_slides_at_most_one_lane_past 8 Example.keep
           Example.o_ptr Example.i_ptr Example.f_ptr 8 4 3 Example.small small_valid).
Defined.

(** C10 as stated fails in its last clause.  On a unit with [VLMAX = 8] the
    smallest valid invocation ([R = 4], [C = 1]) reads lane 3 of [v8] in a
    slide, while a row is loaded into the lanes 0, 1, 2 only. *)
Lemma C10_counterexample_slide_reads_lane_past_the_row :
  valid_invocation Example.o_ptr Example.i_ptr Example.f_ptr 4 1 3 /\
  exists st',
    fconv2d_3x3 8 Example.keep Example.o_ptr Example.i_ptr Example.f_ptr 4 1 3
                Example.smallest = Some st' /\
    In (EvLane V8 3) (log st') /\
    ~ Forall (in_bounds_strict Example.o_ptr Example.i_ptr Example.f_ptr 4 1)
             (log st').
Proof.
  split; [exact smallest_valid|].
  assert (H : option_map
                (fun st' => filter (fun e => match e with
                                             | EvLane _ l => (3 <=? l)%nat
                                             | _ => false
                                             end) (log st'))
                (fconv2d_3x3 8 Example.keep Example.o_ptr Example.i_ptr
                             Example.f_ptr 4 1 3 Example.smallest)
              = Some [EvLane V8 3]) by (vm_compute; reflexivity).
  destruct (fconv2d_3x3 8 Example.keep Example.o_ptr Example.i_ptr
                        Example.f_ptr 4 1 3 Example.smallest) as [st'|];
    [|discriminate H].
  cbn [option_map] in H. apply some_inj in H.
  assert (Hin : In (EvLane V8 3) (log st')).
  { assert (Hf : In (EvLane V8 3) [EvLane V8 3]) by (left; reflexivity).
    rewrite <- H in Hf. apply filter_In in Hf. exact (proj1 Hf). }
  exists st'. split; [reflexivity|]. split; [exact Hin|].
  intros HF. rewrite Forall_forall in HF. specialize (HF _ Hin).
  cbn in HF. lia.
Qed.

(** ** C6: scaling the filter or the input *)

(** Case split on an index of a 3 x 3 or of a small matrix. *)
Ltac small_index x Hx :=
  let H := fresh in
  assert (H : x = 0 \/ x = 1 \/ x = 2 \/ x = 3 \/ x = 4 \/ x = 5) by lia;
  clear Hx; destruct H as [-> | [-> | [-> | [-> | [-> | ->]]]]].

Section ScalingBinary64.

Import Binary64.

(** *** The digits of a mantissa *)

Lemma digits2_pos_bounds p :
  2 ^ (Zpos (digits2_pos p) - 1) <= Zpos p < 2 ^ Zpos (digits2_pos p).
Proof.
  induction p as [p IH|p IH|]; cbn [digits2_pos].
  - rewrite Pos2Z.inj_succ.
    replace (Z.succ (Z.pos (digits2_pos p)) - 1) with (Z.succ (Z.pos (digits2_pos p) - 1)) by lia.
    rewrite !Z.pow_succ_r by lia. lia.
  - rewrite Pos2Z.inj_succ.
    replace (Z.succ (Z.pos (digits2_pos p)) - 1) with (Z.succ (Z.pos (digits2_pos p) - 1)) by lia.
    rewrite !Z.pow_succ_r by lia. lia.
  - cbn. lia.
Qed.

Lemma Zdigits2_bounds m :
  0 < m -> 2 ^ (Zdigits2 m - 1) <= m < 2 ^ Zdigits2 m.
Proof.
  destruct m as [|p|p]; try lia. intros _. apply digits2_pos_bounds.
Qed.

Lemma Zdigits2_pos m : 0 < m -> 0 < Zdigits2 m.
Proof. destruct m; cbn; lia. Qed.

Lemma Zdigits2_mul a b :
  0 < a -> 0 < b ->
  Zdigits2 a + Zdigits2 b - 1 <= Zdigits2 (a * b) <= Zdigits2 a + Zdigits2 b.
Proof.
  intros Ha Hb.
  pose proof (Zdigits2_bounds a Ha) as [La Ua].
  pose proof (Zdigits2_bounds b Hb) as [Lb Ub].
  pose proof (Zdigits2_pos a Ha). pose proof (Zdigits2_pos b Hb).
  assert (Hab : 0 < a * b) by nia.
  pose proof (Zdigits2_bounds (a * b) Hab) as [L U].
  pose proof (Zdigits2_pos (a * b) Hab).
  set (da := Zdigits2 a) in *. set (db := Zdigits2 b) in *.
  set (dab := Zdigits2 (a * b)) in *.
  assert (P1 : 2 ^ (da - 1) * 2 ^ (db - 1) = 2 ^ (da + db - 2)).
  { rewrite <- Z.pow_add_r by lia. f_equal. lia. }
  assert (P2 : 2 ^ da * 2 ^ db = 2 ^ (da + db)).
  { rewrite <- Z.pow_add_r by lia. reflexivity. }
  assert (0 < 2 ^ (da - 1)) by (apply Z.pow_pos_nonneg; lia).
  assert (0 < 2 ^ (db - 1)) by (apply Z.pow_pos_nonneg; lia).
  split.
  - destruct (Z_lt_le_dec dab (da + db - 1)) as [Hlt|]; [exfalso|lia].
    assert (2 ^ dab <= 2 ^ (da + db - 2)) by (apply Z.pow_le_mono_r; lia).
    nia.
  - destruct (Z_lt_le_dec (da + db) dab) as [Hlt|]; [exfalso|lia].
    assert (2 ^ (da + db) <= 2 ^ (dab - 1)) by (apply Z.pow_le_mono_r; lia).
    nia.
Qed.

(** One more can add at most one digit. *)
Lemma Zdigits2_succ m :
  0 < m -> Zdigits2 m <= Zdigits2 (m + 1) <= Zdigits2 m + 1.
Proof.
  intros Hm.
  pose proof (Zdigits2_bounds m Hm) as [L U].
  pose proof (Zdigits2_bounds (m + 1) ltac:(lia)) as [L' U'].
  pose proof (Zdigits2_pos m Hm). pose proof (Zdigits2_pos (m + 1) ltac:(lia)).
  set (d := Zdigits2 m) in *. set (d' := Zdigits2 (m + 1)) in *.
  split.
  - destruct (Z_lt_le_dec d' d) as [Hlt|]; [exfalso|lia].
    assert (2 ^ d' <= 2 ^ (d - 1)) by (apply Z.pow_le_mono_r; lia). lia.
  - destruct (Z_lt_le_dec (d + 1) d') as [Hlt|]; [exfalso|lia].
    assert (2 ^ (d + 1) <= 2 ^ (d' - 1)) by (apply Z.pow_le_mono_r; lia).
    rewrite Z.pow_add_r in * by lia. lia.
Qed.

(** One right shift of the rounding record. *)
Lemma shr_1_digits r :
  0 < shr_m r ->
  0 <= shr_m (shr_1 r) /\ Zdigits2 (shr_m (shr_1 r)) = Zdigits2 (shr_m r) - 1.
Proof.
  destruct r as [m rb sb]. cbn [shr_m]. intros Hm.
  destruct m as [|p|p]; try lia.
  destruct p as [p|p|]; cbn [shr_1 shr_m Zdigits2 digits2_pos]; split; lia.
Qed.

Lemma shr_1_zero r : shr_m r = 0 -> shr_m (shr_1 r) = 0.
Proof. destruct r as [m rb sb]. cbn [shr_m]. intros ->. reflexivity. Qed.

(** [p] right shifts of a record whose mantissa has more than [p] digits. *)
Lemma iter_shr_1_digits p : forall r,
  0 <= shr_m r ->
  0 <= shr_m (iter_pos shr_1 p r) /\
  Zdigits2 (shr_m (iter_pos shr_1 p r)) = Z.max 0 (Zdigits2 (shr_m r) - Zpos p).
Proof.
  assert (step : forall r, 0 <= shr_m r ->
            0 <= shr_m (shr_1 r) /\
            Zdigits2 (shr_m (shr_1 r)) = Z.max 0 (Zdigits2 (shr_m r) - 1)).
  { intros r Hr. destruct (Z.eq_dec (shr_m r) 0) as [E|N].
    - rewrite (shr_1_zero r E), E. cbn. lia.
    - destruct (shr_1_digits r ltac:(lia)) as [A B].
      pose proof (Zdigits2_pos (shr_m r) ltac:(lia)). split; [exact A|]. lia. }
  induction p as [p IH|p IH|]; intros r Hr; cbn [iter_pos].
  - destruct (step r Hr) as [A1 B1].
    destruct (IH _ A1) as [A2 B2]. destruct (IH _ A2) as [A3 B3].
    split; [exact A3|]. rewrite B3, B2, B1. lia.
  - destruct (IH _ Hr) as [A2 B2]. destruct (IH _ A2) as [A3 B3].
    split; [exact A3|]. rewrite B3, B2. lia.
  - exact (step r Hr).
Qed.

Lemma round_nearest_even_bounds m l :
  m <= round_nearest_even m l <= m + 1.
Proof.
  unfold round_nearest_even.
  destruct l as [|[]]; try lia. destruct (Z.even m); lia.
Qed.

Lemma iter_xO_digits d m :
  Zpos (digits2_pos (Pos.iter xO m d)) = Zpos (digits2_pos m) + Zpos d.
Proof.
  induction d as [|d IH] using Pos.peano_ind.
  - cbn [Pos.iter digits2_pos]. lia.
  - rewrite Pos.iter_succ. cbn [digits2_pos]. lia.
Qed.

(** *** Rounding to binary64 in the normal range *)


Lemma shr_n_digits n r :
  0 <= n -> 0 < shr_m r -> n < Zdigits2 (shr_m r) ->
  0 < shr_m (shr_n n r) /\ Zdigits2 (shr_m (shr_n n r)) = Zdigits2 (shr_m r) - n.
Proof.
  intros Hn Hr Hd. destruct n as [|p|p]; cbn [shr_n]; [split; lia| |lia].
  destruct (iter_shr_1_digits p r ltac:(lia)) as [A B].
  assert (E : Zdigits2 (shr_m (iter_pos shr_1 p r)) = Zdigits2 (shr_m r) - Z.pos p) by lia.
  split; [|exact E].
  destruct (Z.eq_dec (shr_m (iter_pos shr_1 p r)) 0) as [Z0|]; [|lia].
  rewrite Z0 in E. cbn in E. lia.
Qed.

Lemma shr_m_of_loc m l : shr_m (shr_record_of_loc m l) = m.
Proof. destruct l as [|[]]; reflexivity. Qed.

(** In the normal range the first shift of a rounding depends on the
    mantissa only, and moves the exponent by the same amount. *)
Lemma shr_fexp_normal m e l :
  53 <= Zdigits2 m -> -1021 <= Zdigits2 m + e ->
  shr_fexp 53 1024 m e l =
  (shr_n (Zdigits2 m - 53) (shr_record_of_loc m l), e + (Zdigits2 m - 53)).
Proof.
  intros HD Hr. unfold shr_fexp, shr.
  replace (fexp 53 1024 (Zdigits2 m + e) - e) with (Zdigits2 m - 53)
    by (unfold fexp, emin; lia).
  destruct (Zdigits2 m - 53) as [|p|p] eqn:E; cbn [shr_n].
  - rewrite Z.add_0_r. reflexivity.
  - reflexivity.
  - lia.
Qed.

(** Rounding a mantissa of at least 53 digits whose value is in the normal
    range: the mantissa of the result and the carry [k] depend on the
    mantissa only. *)
Lemma binary_round_aux_normal s (m : positive) :
  53 <= Zdigits2 (Zpos m) ->
  exists m' k, (k = 0 \/ k = 1) /\ Zdigits2 (Zpos m') = 53 /\
    forall e, -1021 <= Zdigits2 (Zpos m) + e <= 1023 ->
      binary_round_aux 53 1024 s (Zpos m) e loc_Exact =
      S754_finite s m' (Zdigits2 (Zpos m) + e - 53 + k).
Proof.
  intros HD. set (D := Zdigits2 (Zpos m)) in *.
  set (r1 := shr_n (D - 53) (shr_record_of_loc (Zpos m) loc_Exact)).
  destruct (shr_n_digits (D - 53) (shr_record_of_loc (Zpos m) loc_Exact))
    as [P1 D1]; [lia | cbn; lia | cbn [shr_record_of_loc shr_m]; fold D; lia|].
  fold r1 in P1, D1. cbn [shr_record_of_loc shr_m] in D1. fold D in D1.
  set (m1 := round_nearest_even (shr_m r1) (loc_of_shr_record r1)).
  pose proof (round_nearest_even_bounds (shr_m r1) (loc_of_shr_record r1)) as B1.
  fold m1 in B1.
  pose proof (Zdigits2_succ (shr_m r1) P1) as S1.
  assert (Hm1 : 0 < m1) by lia.
  assert (Dm1 : Zdigits2 m1 = 53 \/ Zdigits2 m1 = 54).
  { assert (m1 = shr_m r1 \/ m1 = shr_m r1 + 1) as [-> | ->] by lia; lia. }
  set (k := Zdigits2 m1 - 53).
  set (r2 := shr_n k (shr_record_of_loc m1 loc_Exact)).
  destruct (shr_n_digits k (shr_record_of_loc m1 loc_Exact))
    as [P2 D2]; [subst k; lia | cbn; lia | cbn [shr_record_of_loc shr_m]; subst k; lia|].
  fold r2 in P2, D2. cbn [shr_record_of_loc shr_m] in D2.
  destruct (shr_m r2) as [|m'|] eqn:E2; try lia.
  exists m', k. split; [subst k; lia|]. split; [subst k; lia|].
  intros e He. unfold binary_round_aux.
  rewrite shr_fexp_normal by (fold D; lia). fold D. fold r1. fold m1.
  rewrite shr_fexp_normal by lia. fold k. fold r2. rewrite E2.
  replace (e + (D - 53) + k <=? 1024 - 53) with true
    by (symmetry; apply Z.leb_le; subst k; lia).
  f_equal. lia.
Qed.

Lemma binary_round_normal s (m : positive) :
  exists m' k, (k = 0 \/ k = 1) /\ Zdigits2 (Zpos m') = 53 /\
    forall e, -1021 <= Zdigits2 (Zpos m) + e <= 1023 ->
      binary_round 53 1024 s m e =
      S754_finite s m' (Zdigits2 (Zpos m) + e - 53 + k).
Proof.
  set (D := Zdigits2 (Zpos m)).
  destruct (Z_lt_le_dec D 53) as [Hlt|Hge].
  - assert (Hd : exists d, D - 53 = Zneg d).
    { destruct (D - 53) as [|p|p] eqn:E; try lia. now exists p. }
    destruct Hd as [d Hd].
    pose proof (iter_xO_digits d m) as Hi.
    destruct (binary_round_aux_normal s (Pos.iter xO m d)) as (m' & k & Hk & Hm' & H).
    { cbn [Zdigits2]. rewrite Hi. fold (Zdigits2 (Zpos m)). fold D. lia. }
    exists m', k. split; [exact Hk|]. split; [exact Hm'|].
    intros e He. unfold binary_round, shl_align.
    replace (fexp 53 1024 (Z.pos (digits2_pos m) + e) - e) with (D - 53)
      by (unfold fexp, emin; subst D; cbn [Zdigits2] in *; lia).
    rewrite Hd.
    replace (fexp 53 1024 (Z.pos (digits2_pos m) + e)) with (D + e - 53)
      by (unfold fexp, emin; subst D; cbn [Zdigits2] in *; lia).
    rewrite H.
    + f_equal. cbn [Zdigits2]. rewrite Hi. fold (Zdigits2 (Zpos m)). fold D. lia.
    + cbn [Zdigits2]. rewrite Hi. fold (Zdigits2 (Zpos m)). fold D. lia.
  - destruct (binary_round_aux_normal s m Hge) as (m' & k & Hk & Hm' & H).
    exists m', k. split; [exact Hk|]. split; [exact Hm'|].
    intros e He. unfold binary_round, shl_align.
    replace (fexp 53 1024 (Z.pos (digits2_pos m) + e) - e) with (D - 53)
      by (unfold fexp, emin; subst D; cbn [Zdigits2] in *; lia).
    destruct (D - 53) as [|p|p] eqn:E; try lia; apply H; exact He.
Qed.

(** *** Scaling a product and a fused multiply-add *)

Lemma scalable_finite d s m e :
  scalable d (S754_finite s m e) = true ->
  Zdigits2 (Zpos m) = 53 /\ -1074 <= e <= 971 /\ -1074 <= e + d <= 971.
Proof.
  unfold scalable. rewrite !andb_true_iff, Z.eqb_eq, !Z.leb_le. lia.
Qed.

Lemma scalable_intro d s m e :
  Zdigits2 (Zpos m) = 53 -> -1074 <= e <= 971 -> -1074 <= e + d <= 971 ->
  scalable d (S754_finite s m e) = true.
Proof.
  intros. unfold scalable. rewrite !andb_true_iff, Z.eqb_eq, !Z.leb_le. lia.
Qed.

Lemma in_range_spec d m e :
  in_range d m e = true ->
  -1021 <= Zdigits2 m + e <= 1023 /\ -1021 <= Zdigits2 m + (e + d) <= 1023.
Proof.
  unfold in_range. cbv zeta. rewrite !andb_true_iff, !Z.leb_le. lia.
Qed.

(** The product of two normal mantissas has at least 105 digits. *)
Lemma product_digits (mx my : positive) :
  Zdigits2 (Zpos mx) = 53 -> Zdigits2 (Zpos my) = 53 ->
  53 <= Zdigits2 (Zpos (mx * my)).
Proof.
  intros Hx Hy.
  pose proof (Zdigits2_mul (Zpos mx) (Zpos my) ltac:(lia) ltac:(lia)) as H.
  rewrite Hx, Hy in H. change (Z.pos mx * Z.pos my) with (Z.pos (mx * my)) in H. lia.
Qed.

(** A product in range is rounded the same way whatever its exponent. *)
Lemma mul_scale d x y :
  scalable d x = true -> scalable d y = true -> mul_in_range d x y = true ->
  b64_mul x (scale d y) = scale d (b64_mul x y) /\
  b64_mul (scale d x) y = scale d (b64_mul x y) /\
  scalable d (b64_mul x y) = true.
Proof.
  intros Hx Hy Hr.
  destruct x as [sx|sx| |sx mx ex], y as [sy|sy| |sy my ey];
    try (repeat split; reflexivity).
  apply scalable_finite in Hx. apply scalable_finite in Hy.
  cbn [mul_in_range] in Hr. apply in_range_spec in Hr.
  destruct (binary_round_aux_normal (xorb sx sy) (mx * my)
              (product_digits mx my (proj1 Hx) (proj1 Hy)))
    as (m' & k & Hk & Hm' & H).
  unfold b64_mul, scale, SFmul, prec, emax.
  rewrite !H by lia.
  split; [f_equal; lia|]. split; [f_equal; lia|].
  apply scalable_intro; [exact Hm' | lia | lia].
Qed.

Lemma shl_align_shift m a b d :
  shl_align m (a + d) (b + d) = (fst (shl_align m a b), snd (shl_align m a b) + d).
Proof.
  unfold shl_align. replace (b + d - (a + d)) with (b - a) by lia.
  destruct (b - a); reflexivity.
Qed.

Lemma binary_normalize_scale d M e :
  M = 0 \/ in_range d M e = true ->
  binary_normalize 53 1024 M (e + d) false = scale d (binary_normalize 53 1024 M e false) /\
  scalable d (binary_normalize 53 1024 M e false) = true.
Proof.
  intros [-> | Hr]; [split; reflexivity|].
  apply in_range_spec in Hr.
  destruct M as [|p|p]; [split; reflexivity| |]; cbn [binary_normalize Zdigits2] in *.
  - destruct (binary_round_normal false p) as (m' & k & Hk & Hm' & H).
    cbn [Zdigits2] in H. rewrite !H by lia. cbn [scale].
    split; [f_equal; lia|]. apply scalable_intro; [exact Hm' | lia | lia].
  - destruct (binary_round_normal true p) as (m' & k & Hk & Hm' & H).
    cbn [Zdigits2] in H. rewrite !H by lia. cbn [scale].
    split; [f_equal; lia|]. apply scalable_intro; [exact Hm' | lia | lia].
Qed.

(** A fused multiply-add in range is rounded the same way when the
    coefficient and the accumulator, or the input and the accumulator, are
    multiplied by [2^d]. *)
Lemma fma_scale d a x z :
  scalable d a = true -> scalable d x = true -> scalable d z = true ->
  fma_in_range d a x z = true ->
  b64_fma (scale d a) x (scale d z) = scale d (b64_fma a x z) /\
  b64_fma a (scale d x) (scale d z) = scale d (b64_fma a x z) /\
  scalable d (b64_fma a x z) = true.
Proof.
  intros Ha Hx Hz Hr.
  destruct a as [sa|sa| |sa ma ea], x as [sx|sx| |sx mx ex];
    try solve [destruct z as [sz|sz| |sz mz ez]; cbn [b64_fma scale];
               repeat split; try reflexivity; try exact Hz;
               destruct (Bool.eqb _ _); reflexivity].
  destruct z as [sz|sz| |sz mz ez].
  - cbn [fma_in_range] in Hr.
    destruct (mul_scale d (S754_finite sa ma ea) (S754_finite sx mx ex) Ha Hx Hr)
      as (A & B & S).
    cbn [b64_fma scale] in *. unfold b64_mul in A, B, S. auto.
  - repeat split; reflexivity.
  - repeat split; reflexivity.
  - cbn [fma_in_range] in Hr. cbv zeta in Hr.
    apply orb_true_iff in Hr. rewrite Z.eqb_eq in Hr.
    destruct (binary_normalize_scale d _ _ Hr) as [N S].
    cbn [b64_fma scale]. cbv zeta. unfold prec, emax.
    replace (ea + d + ex) with (ea + ex + d) by lia.
    replace (ea + (ex + d)) with (ea + ex + d) by lia.
    rewrite Z.add_min_distr_r, !shl_align_shift. cbn [fst].
    rewrite N. split; [reflexivity|]. split; [reflexivity | exact S].
Qed.

(** *** Multiplication by a power of two *)

(** A mantissa that is already on its exponent is not shifted. *)
Lemma shr_fexp_exact m e l :
  fexp 53 1024 (Zdigits2 m + e) = e ->
  shr_fexp 53 1024 m e l = (shr_record_of_loc m l, e).
Proof.
  intros H. unfold shr_fexp. rewrite H, Z.sub_diag. reflexivity.
Qed.

Lemma binary_round_aux_exact s (m : positive) e :
  fexp 53 1024 (Zdigits2 (Zpos m) + e) = e -> e <= 971 ->
  binary_round_aux 53 1024 s (Zpos m) e loc_Exact = S754_finite s m e.
Proof.
  intros H He. unfold binary_round_aux.
  rewrite (shr_fexp_exact _ _ _ H).
  cbn [shr_record_of_loc shr_m loc_of_shr_record round_nearest_even].
  rewrite (shr_fexp_exact _ _ _ H). cbn [shr_record_of_loc shr_m].
  replace (e <=? 1024 - 53) with true by (symmetry; apply Z.leb_le; lia).
  reflexivity.
Qed.

Lemma shiftl_digits m n :
  Zpos (digits2_pos (Pos.shiftl m n)) = Zpos (digits2_pos m) + Z.of_N n.
Proof.
  destruct n as [|p]; cbn [Pos.shiftl Z.of_N]; [lia | apply iter_xO_digits].
Qed.

(** The double [2^d]: the mantissa is a power of two, on the exponent
    [d - 52] of a normal number or on the least exponent. *)
Lemma pow2_finite d :
  -1074 <= d <= 1023 ->
  pow2 d = S754_finite false (Pos.shiftl 1 (Z.to_N (d - Z.max (d - 52) (-1074))))
                       (Z.max (d - 52) (-1074)).
Proof.
  intros Hd. unfold pow2, binary_normalize, binary_round, shl_align, prec, emax.
  cbn [digits2_pos].
  replace (fexp 53 1024 (1 + d)) with (Z.max (d - 52) (-1074))
    by (unfold fexp, emin; lia).
  set (ek := Z.max (d - 52) (-1074)).
  destruct (ek - d) as [|p|p] eqn:E; try lia.
  - replace (d - ek) with 0 by lia. cbn [Z.to_N Pos.shiftl].
    replace ek with d by lia.
    apply binary_round_aux_exact; [cbn [Zdigits2 digits2_pos]; unfold fexp, emin; lia | lia].
  - replace (d - ek) with (Zpos p) by lia. cbn [Z.to_N Pos.shiftl].
    apply binary_round_aux_exact; [|lia].
    cbn [Zdigits2]. rewrite iter_xO_digits. cbn [digits2_pos].
    unfold fexp, emin. lia.
Qed.

Lemma mul_iter_xO p : forall m, (Pos.iter xO 1 p * m = Pos.iter xO m p)%positive.
Proof.
  induction p as [|p IH] using Pos.peano_ind; intros m.
  - reflexivity.
  - rewrite !Pos.iter_succ. cbn [Pos.mul]. now rewrite IH.
Qed.

Lemma mul_shiftl n m : (Pos.shiftl 1 n * m = Pos.shiftl m n)%positive.
Proof. destruct n; [reflexivity | apply mul_iter_xO]. Qed.

(** Shifting out the zeros that were shifted in is exact. *)
Lemma iter_shr_1_xO p : forall m,
  iter_pos shr_1 p (Build_shr_record (Zpos (Pos.iter xO m p)) false false) =
  Build_shr_record (Zpos m) false false.
Proof.
  induction p as [p IH|p IH|]; intros m; cbn [iter_pos Pos.iter shr_1 orb].
  - rewrite !IH. reflexivity.
  - rewrite !IH. reflexivity.
  - reflexivity.
Qed.

Lemma shr_n_shiftl n m :
  shr_n (Z.of_N n) (Build_shr_record (Zpos (Pos.shiftl m n)) false false) =
  Build_shr_record (Zpos m) false false.
Proof.
  destruct n as [|p]; cbn [Z.of_N shr_n Pos.shiftl]; [reflexivity|].
  apply iter_shr_1_xO.
Qed.

(** Multiplying a normal double by [2^d] moves its exponent, when the
    result is a normal double as well. *)
Lemma mul_pow2 d x :
  -1074 <= d <= 1023 -> scalable d x = true -> b64_mul (pow2 d) x = scale d x.
Proof.
  intros Hd Hx. rewrite (pow2_finite d Hd).
  destruct x as [s|s| |s m e]; try reflexivity.
  apply scalable_finite in Hx. destruct Hx as (Hm & He & Hed).
  set (ek := Z.max (d - 52) (-1074)).
  set (n := Z.to_N (d - ek)).
  assert (Hn : Z.of_N n = d - ek) by (subst n; rewrite Z2N.id; lia).
  unfold b64_mul, SFmul, scale, prec, emax, binary_round_aux.
  change (xorb false s) with s.
  rewrite mul_shiftl.
  assert (HD : Zdigits2 (Zpos (Pos.shiftl m n)) = 53 + Z.of_N n).
  { cbn [Zdigits2]. rewrite shiftl_digits. cbn [Zdigits2] in Hm. lia. }
  rewrite shr_fexp_normal by (rewrite HD; lia).
  rewrite HD. replace (53 + Z.of_N n - 53) with (Z.of_N n) by lia.
  cbn [shr_record_of_loc]. rewrite shr_n_shiftl.
  cbn [shr_m loc_of_shr_record round_nearest_even].
  rewrite shr_fexp_exact by (rewrite Hm; unfold fexp, emin; lia).
  cbn [shr_record_of_loc shr_m].
  replace (ek + e + Z.of_N n <=? 1024 - 53) with true
    by (symmetry; apply Z.leb_le; lia).
  f_equal. lia.
Qed.

(** *** The accumulation of an output element *)

Lemma ref_step_b64 (flt inp : Z -> Z -> spec_float) r c acc t :
  ref_step flt inp r c acc t =
  b64_fma (flt (fst t) (snd t)) (inp (r + fst t) (c + snd t)) acc.
Proof. reflexivity. Qed.

Lemma steps_scale d flt inp r c ts : forall acc,
  (forall t, In t ts ->
     scalable d (flt (fst t) (snd t)) = true /\
     scalable d (inp (r + fst t) (c + snd t)) = true) ->
  scalable d acc = true ->
  steps_in_range d flt inp r c ts acc = true ->
  fold_left (ref_step (fun a b => scale d (flt a b)) inp r c) ts (scale d acc) =
    scale d (fold_left (ref_step flt inp r c) ts acc) /\
  fold_left (ref_step flt (fun a b => scale d (inp a b)) r c) ts (scale d acc) =
    scale d (fold_left (ref_step flt inp r c) ts acc) /\
  scalable d (fold_left (ref_step flt inp r c) ts acc) = true.
Proof.
  induction ts as [|t ts IH]; intros acc Hd Ha Hs.
  - cbn [fold_left]. auto.
  - cbn [steps_in_range] in Hs. apply andb_true_iff in Hs. destruct Hs as [H1 H2].
    destruct (Hd t (or_introl eq_refl)) as [Hf Hi].
    destruct (fma_scale d _ _ _ Hf Hi Ha H1) as (A & B & S).
    rewrite <- ref_step_b64 in S.
    destruct (IH (ref_step flt inp r c acc t)
                (fun t' Ht' => Hd t' (or_intror Ht')) S H2) as (IA & IB & IS).
    cbn [fold_left].
    rewrite (ref_step_b64 (fun a b => scale d (flt a b)) inp r c (scale d acc) t).
    rewrite (ref_step_b64 flt (fun a b => scale d (inp a b)) r c (scale d acc) t).
    cbv beta. rewrite A, B, <- ref_step_b64.
    split; [exact IA|]. split; [exact IB | exact IS].
Qed.

(** Scaling the filter, or the input, by [2^d] scales the reference, when
    nothing leaves the normal range. *)
Lemma conv_ref_scale d flt inp r c :
  (forall a b, 0 <= a < 3 -> 0 <= b < 3 ->
     scalable d (flt a b) = true /\ scalable d (inp (r + a) (c + b)) = true) ->
  accumulation_in_range d flt inp r c = true ->
  conv_ref (fun a b => scale d (flt a b)) inp r c = scale d (conv_ref flt inp r c) /\
  conv_ref flt (fun a b => scale d (inp a b)) r c = scale d (conv_ref flt inp r c) /\
  scalable d (conv_ref flt inp r c) = true.
Proof.
  intros Hd Hr. unfold accumulation_in_range in Hr.
  apply andb_true_iff in Hr. destruct Hr as [H0 Hs].
  destruct (Hd 0 0 ltac:(lia) ltac:(lia)) as [Hf0 Hi0].
  replace (r + 0) with r in Hi0 by lia. replace (c + 0) with c in Hi0 by lia.
  destruct (mul_scale d _ _ Hi0 Hf0 H0) as (A & B & S).
  assert (Ht : forall t, In t (tl taps) ->
            scalable d (flt (fst t) (snd t)) = true /\
            scalable d (inp (r + fst t) (c + snd t)) = true).
  { intros t Ht. apply Hd;
      unfold taps in Ht; cbn in Ht;
      repeat (destruct Ht as [<- | Ht]; [cbn; lia|]); destruct Ht. }
  destruct (steps_scale d flt inp r c (tl taps) _ Ht S Hs) as (IA & IB & IS).
  unfold conv_ref. cbn [fmul b64_ops] in *.
  rewrite A, B. auto.
Qed.

(** C6, as amended.  Take a valid invocation on binary64 data whose padded
    row fits one register group, a power of two [2^d] that is a double
    ([-1074 <= d <= 1023]) and, next to the original state, one whose
    filter is [2^d * filter] element by element (same input) and one whose
    input is [2^d * input] element by element (same filter).  If nothing
    overflows or underflows -- every finite filter and input element is a
    normal double and so is its multiple by [2^d], and the exact value of
    the first product and of every fused multiply-add of every output
    element is zero or of magnitude at least [2^-1022] and below [2^1023],
    as it is and multiplied by [2^d] -- then every output element of the two
    scaled runs is [2^d] times the output element of the original run, bit
    for bit. *)
Theorem C6_scaling_by_power_of_two_is_exact_in_the_normal_range
    (VLMAX : nat) (tail : vreg -> nat -> spec_float -> spec_float)
    (o i f R C F_ : Z) (d : Z) (st st_f st_i : state spec_float) :
  valid_invocation o i f R C F_ ->
  C + 2 <= Z.of_nat VLMAX ->
  -1074 <= d <= 1023 ->
  (forall a b, 0 <= a < 3 -> 0 <= b < 3 ->
     filter_at (mem st_f) f a b = fmul (pow2 d) (filter_at (mem st) f a b)) ->
  (forall r c, 0 <= r < R + 2 -> 0 <= c < C + 2 ->
     input_at (mem st_f) i C r c = input_at (mem st) i C r c) ->
  (forall a b, 0 <= a < 3 -> 0 <= b < 3 ->
     filter_at (mem st_i) f a b = filter_at (mem st) f a b) ->
  (forall r c, 0 <= r < R + 2 -> 0 <= c < C + 2 ->
     input_at (mem st_i) i C r c = fmul (pow2 d) (input_at (mem st) i C r c)) ->
  (forall a b, 0 <= a < 3 -> 0 <= b < 3 ->
     scalable d (filter_at (mem st) f a b) = true) ->
  (forall r c, 0 <= r < R + 2 -> 0 <= c < C + 2 ->
     scalable d (input_at (mem st) i C r c) = true) ->
  (forall r c, 0 <= r < R -> 0 <= c < C ->
     accumulation_in_range d (filter_at (mem st) f) (input_at (mem st) i C) r c
     = true) ->
  exists st' st_f' st_i',
    fconv2d_3x3 VLMAX tail o i f R C F_ st = Some st' /\
    fconv2d_3x3 VLMAX tail o i f R C F_ st_f = Some st_f' /\
    fconv2d_3x3 VLMAX tail o i f R C F_ st_i = Some st_i' /\
    forall r c, 0 <= r < R -> 0 <= c < C ->
      output_at (mem st_f') o C r c = fmul (pow2 d) (output_at (mem st') o C r c) /\
      output_at (mem st_i') o C r c = fmul (pow2 d) (output_at (mem st') o C r c).
Proof.
  intros Hv Hfit Hd Hff Hfi Hif Hii Sf Si Hr.
  destruct (reference_when_rows_fit VLMAX tail o i f R C F_ st Hv Hfit)
    as (st' & E & H).
  destruct (reference_when_rows_fit VLMAX tail o i f R C F_ st_f Hv Hfit)
    as (st_f' & Ef & Hf).
  destruct (reference_when_rows_fit VLMAX tail o i f R C F_ st_i Hv Hfit)
    as (st_i' & Ei & Hi).
  exists st', st_f', st_i'. repeat (split; [assumption|]).
  intros r c Hrr Hc.
  destruct (conv_ref_scale d (filter_at (mem st) f) (input_at (mem st) i C) r c)
    as (A & B & S).
  { intros a b Ha Hb. split; [apply Sf | apply Si]; lia. }
  { apply Hr; assumption. }
  rewrite H, Hf, Hi by assumption.
  cbn [fmul b64_ops] in *. rewrite (mul_pow2 d _ Hd S). split.
  - rewrite <- A. apply conv_ref_ext; intros a b Ha Hb.
    + rewrite Hff by lia. apply mul_pow2; [exact Hd | apply Sf; lia].
    + apply Hfi; lia.
  - rewrite <- B. apply conv_ref_ext; intros a b Ha Hb.
    + apply Hif; lia.
    + cbv beta. rewrite Hii by lia. apply mul_pow2; [exact Hd | apply Si; lia].
Qed.

Lemma smallest_filter_scaled_filter a b :
  0 <= a < 3 -> 0 <= b < 3 ->
  filter_at (mem Example.smallest_filter_scaled) Example.f_ptr a b =
  fmul (pow2 1) (filter_at (mem Example.smallest) Example.f_ptr a b).
Proof.
  intros Ha Hb. small_index a Ha; try lia; small_index b Hb; try lia;
    vm_compute; reflexivity.
Defined.

Lemma smallest_filter_scaled_input r c :
  0 <= r < 4 + 2 -> 0 <= c < 1 + 2 ->
  input_at (mem Example.smallest_filter_scaled) Example.i_ptr 1 r c =
  input_at (mem Example.smallest) Example.i_ptr 1 r c.
Proof.
  intros Hr Hc. small_index r Hr; try lia; small_index c Hc; try lia;
    vm_compute; reflexivity.
Defined.

Lemma smallest_input_scaled_filter a b :
  0 <= a < 3 -> 0 <= b < 3 ->
  filter_at (mem Example.smallest_input_scaled) Example.f_ptr a b =
  filter_at (mem Example.smallest) Example.f_ptr a b.
Proof.
  intros Ha Hb. small_index a Ha; try lia; small_index b Hb; try lia;
    vm_compute; reflexivity.
Defined.

Lemma smallest_input_scaled_input r c :
  0 <= r < 4 + 2 -> 0 <= c < 1 + 2 ->
  input_at (mem Example.smallest_input_scaled) Example.i_ptr 1 r c =
  fmul (pow2 1) (input_at (mem Example.smallest) Example.i_ptr 1 r c).
Proof.
  intros Hr Hc. small_index r Hr; try lia; small_index c Hc; try lia;
    vm_compute; reflexivity.
Defined.

Lemma smallest_filter_scalable a b :
  0 <= a < 3 -> 0 <= b < 3 ->
  scalable 1 (filter_at (mem Example.smallest) Example.f_ptr a b) = true.
Proof.
  intros Ha Hb. small_index a Ha; try lia; small_index b Hb; try lia;
    vm_compute; reflexivity.
Defined.

Lemma smallest_input_scalable r c :
  0 <= r < 4 + 2 -> 0 <= c < 1 + 2 ->
  scalable 1 (input_at (mem Example.smallest) Example.i_ptr 1 r c) = true.
Proof.
  intros Hr Hc. small_index r Hr; try lia; small_index c Hc; try lia;
    vm_compute; reflexivity.
Defined.

Lemma smallest_in_range r c :
  0 <= r < 4 -> 0 <= c < 1 ->
  accumulation_in_range 1 (filter_at (mem Example.smallest) Example.f_ptr)
                        (input_at (mem Example.smallest) Example.i_ptr 1) r c
  = true.
Proof.
  intros Hr Hc. small_index r Hr; try lia; small_index c Hc; try lia;
    vm_compute; reflexivity.
Defined.

Lemma C6_scaling_by_power_of_two_is_exact_in_the_normal_range_witness :
  valid_invocation Example.o_ptr Example.i_ptr Example.f_ptr 4 1 3 /\
  1 + 2 <= Z.of_nat 8 /\
  -1074 <= 1 <= 1023 /\
  exists st' st_f' st_i',
    fconv2d_3x3 8 Example.keep Example.o_ptr Example.i_ptr Example.f_ptr 4 1 3
                Example.smallest = Some st' /\
    fconv2d_3x3 8 Example.keep Example.o_ptr Example.i_ptr Example.f_ptr 4 1 3
                Example.smallest_filter_scaled = Some st_f' /\
    fconv2d_3x3 8 Example.keep Example.o_ptr Example.i_ptr Example.f_ptr 4 1 3
                Example.smallest_input_scaled = Some st_i' /\
    forall r c, 0 <= r < 4 -> 0 <= c < 1 ->
      output_at (mem st_f') Example.o_ptr 1 r c =
        fmul (pow2 1) (output_at (mem st') Example.o_ptr 1 r c) /\
      output_at (mem st_i') Example.o_ptr 1 r c =
        fmul (pow2 1) (output_at (mem st') Example.o_ptr 1 r c).
Proof.
  split; [exact smallest_valid|]. split; [cbn; lia|]. split; [lia|].
  exact (C6_scaling_by_power_of_two_is_exact_in_the_normal_range 8 Example.keep
           Example.o_ptr Example.i_ptr Example.f_ptr 4 1 3 1
           Example.smallest Example.smallest_filter_scaled
           Example.smallest_input_scaled smallest_valid ltac:(cbn; lia)
           ltac:(lia)
           smallest_filter_scaled_filter smallest_filter_scaled_input
           smallest_input_scaled_filter smallest_input_scaled_input
           smallest_filter_scalable smallest_input_scalable
           smallest_in_range).
Defined.

End ScalingBinary64.

Lemma big_tap_scaled_filter a b :
  0 <= a < 3 -> 0 <= b < 3 ->
  filter_at (mem Example.big_tap_scaled) Example.f_ptr a b =
  fmul Example.two (filter_at (mem Example.big_tap) Example.f_ptr a b).
Proof.
  intros Ha Hb. small_index a Ha; try lia; small_index b Hb; try lia;
    vm_compute; reflexivity.
Qed.

Lemma big_tap_scaled_input r c :
  0 <= r < 4 + 2 -> 0 <= c < 1 + 2 ->
  input_at (mem Example.big_tap_scaled) Example.i_ptr 1 r c =
  input_at (mem Example.big_tap) Example.i_ptr 1 r c.
Proof.
  intros Hr Hc. small_index r Hr; try lia; small_index c Hc; try lia;
    vm_compute; reflexivity.
Qed.

Lemma big_input_scaled_filter a b :
  0 <= a < 3 -> 0 <= b < 3 ->
  filter_at (mem Example.big_input_scaled) Example.f_ptr a b =
  filter_at (mem Example.big_input) Example.f_ptr a b.
Proof.
  intros Ha Hb. small_index a Ha; try lia; small_index b Hb; try lia;
    vm_compute; reflexivity.
Qed.

Lemma big_input_scaled_input r c :
  0 <= r < 4 + 2 -> 0 <= c < 1 + 2 ->
  input_at (mem Example.big_input_scaled) Example.i_ptr 1 r c =
  fmul Example.two (input_at (mem Example.big_input) Example.i_ptr 1 r c).
Proof.
  intros Hr Hc. small_index r Hr; try lia; small_index c Hc; try lia;
    vm_compute; reflexivity.
Qed.

Lemma tiny_tap_scaled_filter a b :
  0 <= a < 3 -> 0 <= b < 3 ->
  filter_at (mem Example.tiny_tap_scaled) Example.f_ptr a b =
  fmul (Binary64.pow2 (-1)) (filter_at (mem Example.tiny_tap) Example.f_ptr a b).
Proof.
  intros Ha Hb. small_index a Ha; try lia; small_index b Hb; try lia;
    vm_compute; reflexivity.
Qed.

Lemma tiny_tap_scaled_input r c :
  0 <= r < 4 + 2 -> 0 <= c < 1 + 2 ->
  input_at (mem Example.tiny_tap_scaled) Example.i_ptr 1 r c =
  input_at (mem Example.tiny_tap) Example.i_ptr 1 r c.
Proof.
  intros Hr Hc. small_index r Hr; try lia; small_index c Hc; try lia;
    vm_compute; reflexivity.
Qed.

Lemma wide_dirty_scaled_filter a b :
  0 <= a < 3 -> 0 <= b < 3 ->
  filter_at (mem Example.wide_dirty_scaled) Example.f_ptr a b =
  fmul Example.two (filter_at (mem Example.wide_dirty) Example.f_ptr a b).
Proof.
  intros Ha Hb. small_index a Ha; try lia; small_index b Hb; try lia;
    vm_compute; reflexivity.
Qed.

Lemma wide_dirty_scaled_input r c :
  0 <= r < 4 + 2 -> 0 <= c < 8 + 2 ->
  input_at (mem Example.wide_dirty_scaled) Example.i_ptr 8 r c =
  input_at (mem Example.wide_dirty) Example.i_ptr 8 r c.
Proof.
  intros Hr Hc.
  unfold input_at, Example.wide_dirty_scaled, Example.wide_dirty, Example.start.
  cbn [mem]. unfold Example.image.
  replace (ptr_add Example.i_ptr (r * (8 + 2) + c) <? Example.f_ptr) with true;
    [reflexivity|].
  symmetry. apply Z.ltb_lt. unfold ptr_add, Example.i_ptr, Example.f_ptr. lia.
Qed.

(** Output element [(r, c)] of a run from [st], if it returns. *)
Lemma output_of_run (VLMAX : nat) (R C r c : Z) (st : state spec_float)
    (x : spec_float) :
  option_map (fun st' => output_at (mem st') Example.o_ptr C r c)
             (fconv2d_3x3 VLMAX Example.keep Example.o_ptr Example.i_ptr
                          Example.f_ptr R C 3 st) = Some x ->
  exists st',
    fconv2d_3x3 VLMAX Example.keep Example.o_ptr Example.i_ptr Example.f_ptr
                R C 3 st = Some st' /\
    output_at (mem st') Example.o_ptr C r c = x.
Proof.
  destruct (fconv2d_3x3 VLMAX Example.keep Example.o_ptr Example.i_ptr
                        Example.f_ptr R C 3 st) as [st'|]; intros H;
    [|discriminate H].
  exists st'. split; [reflexivity|]. cbn [option_map] in H.
  apply some_inj in H. exact H.
Qed.

Lemma scaling_by_half_underflows :
  exists st' st_f',
     fconv2d_3x3 8 Example.keep Example.o_ptr Example.i_ptr Example.f_ptr 4 1 3
                 Example.tiny_tap = Some st' /\
     fconv2d_3x3 8 Example.keep Example.o_ptr Example.i_ptr Example.f_ptr 4 1 3
                 Example.tiny_tap_scaled = Some st_f' /\
     output_at (mem st') Example.o_ptr 1 0 0 =
       S754_finite false 4503599627370497 (-1073) /\
     output_at (mem st_f') Example.o_ptr 1 0 0 = Binary64.pow2 (-1022) /\
     output_at (mem st_f') Example.o_ptr 1 0 0 <>
     fmul (Binary64.pow2 (-1)) (output_at (mem st') Example.o_ptr 1 0 0).
Proof.
  destruct (output_of_run 8 4 1 0 0 Example.tiny_tap
              (S754_finite false 4503599627370497 (-1073))
              ltac:(vm_compute; reflexivity)) as (st' & E & H).
  destruct (output_of_run 8 4 1 0 0 Example.tiny_tap_scaled (Binary64.pow2 (-1022))
              ltac:(vm_compute; reflexivity)) as (st_f' & Ef & Hf).
  exists st', st_f'. repeat (split; [assumption|]).
  rewrite H, Hf. vm_compute. discriminate.
Qed.

Lemma scaling_misses_unwritten_cells :
  exists st' st_f',
     fconv2d_3x3 4 Example.keep Example.o_ptr Example.i_ptr Example.f_ptr 4 8 3
                 Example.wide_dirty = Some st' /\
     fconv2d_3x3 4 Example.keep Example.o_ptr Example.i_ptr Example.f_ptr 4 8 3
                 Example.wide_dirty_scaled = Some st_f' /\
     output_at (mem st') Example.o_ptr 8 0 4 = Example.one /\
     output_at (mem st_f') Example.o_ptr 8 0 4 = Example.one /\
     output_at (mem st_f') Example.o_ptr 8 0 4 <>
     fmul Example.two (output_at (mem st') Example.o_ptr 8 0 4).
Proof.
  destruct (output_of_run 4 4 8 0 4 Example.wide_dirty Example.one
              ltac:(vm_compute; reflexivity)) as (st' & E & H).
  destruct (output_of_run 4 4 8 0 4 Example.wide_dirty_scaled Example.one
              ltac:(vm_compute; reflexivity)) as (st_f' & Ef & Hf).
  exists st', st_f'. repeat (split; [assumption|]).
  rewrite H, Hf. vm_compute. discriminate.
Qed.

(** C6 as stated fails in three ways, on a unit that holds the rows of the
    smallest invocation ([VLMAX = 8], [R = 4], [C = 1]) for the first two.

    Overflow, for the power of two [k = 2].  With the filter tap (0,0) equal
    to [2^1023], the other taps zero and an input of quarters,
    [output[0][0]] is [2^1021]; doubling every filter element overflows the
    tap to infinity and the output is infinite, not [2^1022].  With an input
    of [2^1023]s under the filter tap (0,0) a half, [output[0][0]] is
    [2^1022]; doubling every input element makes the input infinite and the
    output a NaN, not [2^1023].

    Underflow, for the power of two [k = 1/2].  With the filter tap (0,0)
    equal to [(2^52 + 1) * 2^-1074], the other taps zero and an input of
    twos, [output[0][0]] is [(2^52 + 1) * 2^-1073]; halving the tap rounds
    it to [2^-1023] and the output is [2^-1022], not
    [(2^52 + 1) * 2^-1074].

    Cells that are not stored, for [k = 2].  On a unit with [VLMAX = 4] a
    valid 4 x 8 invocation does not store [output[0][4]]: it is what the
    buffer held, whether the filter is doubled or not. *)
Lemma C6_counterexample_scaling_overflows_underflows_or_misses_cells :
  (Example.two = Binary64.pow2 1 /\
  valid_invocation Example.o_ptr Example.i_ptr Example.f_ptr 4 1 3 /\
  (forall a b, 0 <= a < 3 -> 0 <= b < 3 ->
     filter_at (mem Example.big_tap_scaled) Example.f_ptr a b =
     fmul Example.two (filter_at (mem Example.big_tap) Example.f_ptr a b)) /\
  (forall r c, 0 <= r < 4 + 2 -> 0 <= c < 1 + 2 ->
     input_at (mem Example.big_tap_scaled) Example.i_ptr 1 r c =
     input_at (mem Example.big_tap) Example.i_ptr 1 r c) /\
  (forall a b, 0 <= a < 3 -> 0 <= b < 3 ->
     filter_at (mem Example.big_input_scaled) Example.f_ptr a b =
     filter_at (mem Example.big_input) Example.f_ptr a b) /\
  (forall r c, 0 <= r < 4 + 2 -> 0 <= c < 1 + 2 ->
     input_at (mem Example.big_input_scaled) Example.i_ptr 1 r c =
     fmul Example.two (input_at (mem Example.big_input) Example.i_ptr 1 r c)) /\
  (exists st' st_f',
     fconv2d_3x3 8 Example.keep Example.o_ptr Example.i_ptr Example.f_ptr 4 1 3
                 Example.big_tap = Some st' /\
     fconv2d_3x3 8 Example.keep Example.o_ptr Example.i_ptr Example.f_ptr 4 1 3
                 Example.big_tap_scaled = Some st_f' /\
     output_at (mem st') Example.o_ptr 1 0 0 = Binary64.pow2 1021 /\
     output_at (mem st_f') Example.o_ptr 1 0 0 = S754_infinity false /\
     output_at (mem st_f') Example.o_ptr 1 0 0 <>
     fmul Example.two (output_at (mem st') Example.o_ptr 1 0 0)) /\
  (exists st' st_i',
     fconv2d_3x3 8 Example.keep Example.o_ptr Example.i_ptr Example.f_ptr 4 1 3
                 Example.big_input = Some st' /\
     fconv2d_3x3 8 Example.keep Example.o_ptr Example.i_ptr Example.f_ptr 4 1 3
                 Example.big_input_scaled = Some st_i' /\
     output_at (mem st') Example.o_ptr 1 0 0 = Binary64.pow2 1022 /\
     output_at (mem st_i') Example.o_ptr 1 0 0 = S754_nan /\
     output_at (mem st_i') Example.o_ptr 1 0 0 <>
     fmul Example.two (output_at (mem st') Example.o_ptr 1 0 0))) /\
  ((forall a b, 0 <= a < 3 -> 0 <= b < 3 ->
      filter_at (mem Example.tiny_tap_scaled) Example.f_ptr a b =
      fmul (Binary64.pow2 (-1)) (filter_at (mem Example.tiny_tap) Example.f_ptr a b)) /\
   (forall r c, 0 <= r < 4 + 2 -> 0 <= c < 1 + 2 ->
      input_at (mem Example.tiny_tap_scaled) Example.i_ptr 1 r c =
      input_at (mem Example.tiny_tap) Example.i_ptr 1 r c) /\
   exists st' st_f',
     fconv2d_3x3 8 Example.keep Example.o_ptr Example.i_ptr Example.f_ptr 4 1 3
                 Example.tiny_tap = Some st' /\
     fconv2d_3x3 8 Example.keep Example.o_ptr Example.i_ptr Example.f_ptr 4 1 3
                 Example.tiny_tap_scaled = Some st_f' /\
     output_at (mem st') Example.o_ptr 1 0 0 =
       S754_finite false 4503599627370497 (-1073) /\
     output_at (mem st_f') Example.o_ptr 1 0 0 = Binary64.pow2 (-1022) /\
     output_at (mem st_f') Example.o_ptr 1 0 0 <>
     fmul (Binary64.pow2 (-1)) (output_at (mem st') Example.o_ptr 1 0 0)) /\
  (valid_invocation Example.o_ptr Example.i_ptr Example.f_ptr 4 8 3 /\
   (forall a b, 0 <= a < 3 -> 0 <= b < 3 ->
      filter_at (mem Example.wide_dirty_scaled) Example.f_ptr a b =
      fmul Example.two (filter_at (mem Example.wide_dirty) Example.f_ptr a b)) /\
   (forall r c, 0 <= r < 4 + 2 -> 0 <= c < 8 + 2 ->
      input_at (mem Example.wide_dirty_scaled) Example.i_ptr 8 r c =
      input_at (mem Example.wide_dirty) Example.i_ptr 8 r c) /\
   exists st' st_f',
     fconv2d_3x3 4 Example.keep Example.o_ptr Example.i_ptr Example.f_ptr 4 8 3
                 Example.wide_dirty = Some st' /\
     fconv2d_3x3 4 Example.keep Example.o_ptr Example.i_ptr Example.f_ptr 4 8 3
                 Example.wide_dirty_scaled = Some st_f' /\
     output_at (mem st') Example.o_ptr 8 0 4 = Example.one /\
     output_at (mem st_f') Example.o_ptr 8 0 4 = Example.one /\
     output_at (mem st_f') Example.o_ptr 8 0 4 <>
     fmul Example.two (output_at (mem st') Example.o_ptr 8 0 4)).
Proof.
  split; [|split].
  - split; [vm_compute; reflexivity|]. split; [exact smallest_valid|].
    split; [exact big_tap_scaled_filter|]. split; [exact big_tap_scaled_input|].
    split; [exact big_input_scaled_filter|]. split; [exact big_input_scaled_input|].
    split.
    + destruct (output_of_run 8 4 1 0 0 Example.big_tap (Binary64.pow2 1021)
                  ltac:(vm_compute; reflexivity)) as (st' & E & H).
      destruct (output_of_run 8 4 1 0 0 Example.big_tap_scaled (S754_infinity false)
                  ltac:(vm_compute; reflexivity)) as (st_f' & Ef & Hf).
      exists st', st_f'. repeat (split; [assumption|]).
      rewrite H, Hf. vm_compute. discriminate.
    + destruct (output_of_run 8 4 1 0 0 Example.big_input (Binary64.pow2 1022)
                  ltac:(vm_compute; reflexivity)) as (st' & E & H).
      destruct (output_of_run 8 4 1 0 0 Example.big_input_scaled S754_nan
                  ltac:(vm_compute; reflexivity)) as (st_i' & Ei & Hi).
      exists st', st_i'. repeat (split; [assumption|]).
      rewrite H, Hi. vm_compute. discriminate.
  - split; [exact tiny_tap_scaled_filter|]. split; [exact tiny_tap_scaled_input|].
    exact scaling_by_half_underflows.
  - split; [exact wide_valid|].
    split; [exact wide_dirty_scaled_filter|].
    split; [exact wide_dirty_scaled_input|].
    exact scaling_misses_unwritten_cells.
Qed.

(** * Further properties of the code *)

(** ** The row count is rounded up to whole blocks *)

Lemma rows_done_block R : 4 <= rows_done R /\ rows_done R mod 4 = 0.
Proof.
  unfold rows_done. split; [lia|].
  rewrite Z.mul_comm. apply Z.mod_mul. lia.
Qed.

Lemma rows_done_valid R : 0 < R -> R mod 4 = 0 -> rows_done R = R.
Proof.
  intros H0 H4. unfold rows_done.
  destruct (blocks_of_R R H0 H4) as (HR & _ & _ & E). rewrite E.
  pose proof (Z.div_mod R 4 ltac:(lia)) as D. rewrite H4 in D. lia.
Qed.

Lemma rows_done_ge R : R <= rows_done R < R + 4 \/ (R <= 0 /\ rows_done R = 4).
Proof.
  unfold rows_done.
  pose proof (Z.div_mod (R + 3) 4 ltac:(lia)) as D.
  pose proof (Z.mod_pos_bound (R + 3) 4 ltac:(lia)) as B.
  lia.
Qed.

(** The loop test [r < R] on a multiple of four. *)
Lemma loop_test_rounded R r :
  r mod 4 = 0 -> 4 <= r -> (r <? R) = (r <? rows_done R).
Proof.
  intros Hm Hr. unfold rows_done.
  pose proof (Z.div_mod (R + 3) 4 ltac:(lia)) as D.
  pose proof (Z.mod_pos_bound (R + 3) 4 ltac:(lia)) as B.
  pose proof (Z.div_mod r 4 ltac:(lia)) as Dr. rewrite Hm in Dr.
  destruct (Z.ltb_spec r R), (Z.ltb_spec r (4 * Z.max 1 ((R + 3) / 4)));
    try reflexivity; exfalso; lia.
Qed.

Section Rounded.

Context {F : Type} {ops : FloatOps F}.
Variable VLMAX : nat.
Variable tail : vreg -> nat -> F -> F.

(** The loop with the bound [R] and the loop with the bound rounded up run
    the same iterations, whatever fuel is left over. *)
Lemma steady_state_rounded o i f R C F_ ldi ldf t0 t1 t2 n :
  forall fuel fuel' r i__ (st : state F),
    r mod 4 = 0 -> 4 <= r -> r + 4 * Z.of_nat n = rows_done R ->
    (n <= fuel)%nat -> (n <= fuel')%nat ->
    steady_state VLMAX tail o i f R C F_ 4 ldi ldf t0 t1 t2 fuel r i__ st =
    steady_state VLMAX tail o i f (rows_done R) C F_ 4 ldi ldf t0 t1 t2 fuel' r i__ st.
Proof.
  induction n as [|n IH]; intros fuel fuel' r i__ st Hm Hr Hn Hf Hf'.
  - assert (E : r = rows_done R) by lia.
    assert (T : (r <? R) = false)
      by (rewrite (loop_test_rounded R r Hm Hr), E; apply Z.ltb_irrefl).
    assert (T' : (r <? rows_done R) = false) by (rewrite E; apply Z.ltb_irrefl).
    destruct fuel, fuel'; cbn [steady_state]; rewrite T, T'; reflexivity.
  - destruct fuel as [|fuel]; [lia|]. destruct fuel' as [|fuel']; [lia|].
    cbn [steady_state]. rewrite (loop_test_rounded R r Hm Hr).
    destruct (r <? rows_done R); [|reflexivity].
    destruct (loop_body VLMAX tail o i f C F_ 4 ldi ldf t0 t1 t2 r i__ st)
      as [i' st'].
    apply IH; try lia.
    rewrite <- Z.add_mod_idemp_l by lia. rewrite Hm. reflexivity.
Qed.

End Rounded.

Lemma fconv2d_3x3_rounded
    {F : Type} {ops : FloatOps F} (VLMAX : nat) (tail : vreg -> nat -> F -> F)
    (o i f R C F_ : Z) (st : state F) :
  fconv2d_3x3 VLMAX tail o i f R C F_ st =
  fconv2d_3x3 VLMAX tail o i f (rows_done R) C F_ st.
Proof.
  unfold fconv2d_3x3, fconv2d_3x3_fuel.
  destruct (prologue VLMAX tail o i f C F_ 4 st) as [[i__ [[t0 t1] t2]] s1].
  f_equal.
  destruct (rows_done_block R) as [H4 Hm].
  pose proof (Z.div_mod (rows_done R) 4 ltac:(lia)) as D. rewrite Hm in D.
  pose proof (rows_done_ge R) as G.
  apply (steady_state_rounded VLMAX tail o i f R C F_ _ _ t0 t1 t2
           (Z.to_nat (rows_done R / 4 - 1))); try reflexivity; lia.
Qed.

(** X1.  The kernel computes whole blocks of four rows: a call with any
    row count [R] (zero, negative, or not a multiple of four) runs exactly
    as the call with [R] rounded up to the next multiple of four, and to
    four at least. *)
Theorem X1_row_count_is_rounded_up_to_whole_blocks
    {F : Type} {ops : FloatOps F} (VLMAX : nat) (tail : vreg -> nat -> F -> F)
    (o i f R C F_ : Z) (st : state F) :
  fconv2d_3x3 VLMAX tail o i f R C F_ st =
  fconv2d_3x3 VLMAX tail o i f (rows_done R) C F_ st.
Proof. apply fconv2d_3x3_rounded. Qed.

(** ** The accesses of a call, for every row count *)

Section CallLog.

Context {F : Type} {ops : FloatOps F}.
Variable VLMAX : nat.
Variable tail : vreg -> nat -> F -> F.
Variables (o i f C : Z).

(** [n] loop iterations entered with the cursor on row [r + 2] log
    [loops_trace]; no assumption on the buffers is needed. *)
Lemma run_blocks_log t0 t1 t2 n : forall r (st : state F),
  log (snd (run_blocks VLMAX tail o i f C 3 t0 t1 t2 n r (cursor i C r) st)) =
  log st ++ loops_trace (F := F) VLMAX o i f C n r.
Proof.
  induction n as [|n IH]; intros r st.
  - cbn [run_blocks snd loops_trace]. now rewrite app_nil_r.
  - cbn [run_blocks loops_trace].
    pose proof (loop_body_log VLMAX tail o i f C 3 t0 t1 t2 r (cursor i C r) st) as L.
    pose proof (loop_body_cursor VLMAX tail o i f C 3 4 (shl3 (C + 3 - 1)) (shl3 3)
                  t0 t1 t2 r (cursor i C r) st) as K.
    destruct (loop_body VLMAX tail o i f C 3 4 (shl3 (C + 3 - 1)) (shl3 3)
                t0 t1 t2 r (cursor i C r) st) as [i' st'].
    cbn [fst snd] in L, K.
    replace i' with (cursor i C (r + 4))
      by (rewrite K; unfold cursor, ptr_add; lia).
    rewrite IH, L, <- app_assoc. reflexivity.
Qed.

Lemma prologue_cursor F_ bs (st : state F) :
  fst (fst (prologue VLMAX tail o i f C F_ bs st)) =
  ptr_add (ptr_add i (bs * (C + F_ - 1))) ((F_ - 1) * (C + F_ - 1)).
Proof. expose st. run. reflexivity. Qed.

(** Every call returns, and its accesses are those of the prologue and of
    [rows_done R / 4 - 1] loop iterations. *)
Lemma kernel_log R (st : state F) :
  exists st',
    fconv2d_3x3 VLMAX tail o i f R C 3 st = Some st' /\
    log st' = log st ++ kernel_trace (F := F) VLMAX o i f (rows_done R) C.
Proof.
  rewrite fconv2d_3x3_rounded.
  destruct (rows_done_block R) as [H4 Hm].
  pose proof (Z.div_mod (rows_done R) 4 ltac:(lia)) as D. rewrite Hm in D.
  set (R' := rows_done R) in *.
  set (n := Z.to_nat (R' / 4 - 1)).
  unfold fconv2d_3x3, fconv2d_3x3_fuel.
  pose proof (prologue_cursor 3 4 st) as Ep.
  pose proof (prologue_log VLMAX tail o i f C 3 st) as Hl.
  destruct (prologue VLMAX tail o i f C 3 4 st) as [[i__ [[t0 t1] t2]] s1].
  cbn [fst snd] in Ep, Hl.
  assert (Ei : i__ = cursor i C 4)
    by (rewrite Ep; unfold cursor, ptr_add; lia).
  clear Ep. subst i__.
  rewrite (steady_state_run VLMAX tail o i f R' C t0 t1 t2 n) by lia.
  eexists. split; [reflexivity|].
  cbn [snd]. rewrite run_blocks_log, Hl.
  unfold kernel_trace. fold n. now rewrite <- app_assoc.
Qed.

End CallLog.

Lemma in_row_addrs a n k :
  0 <= k < Z.of_nat n -> In (ptr_add a k) (row_addrs a n).
Proof.
  intros Hk. unfold row_addrs. apply in_map_iff. exists (Z.to_nat k). split.
  - unfold lane_addr, ptr_add. lia.
  - apply in_seq. lia.
Qed.

Lemma load_addrs_app a b : load_addrs (a ++ b) = load_addrs a ++ load_addrs b.
Proof. apply flat_map_app. Qed.

Lemma load_addrs_loads a n :
  load_addrs (map (fun l => EvLoad (lane_addr a l)) (seq 0 n)) = row_addrs a n.
Proof.
  unfold row_addrs. induction (seq 0 n) as [|x xs IH]; [reflexivity|].
  cbn [map load_addrs flat_map app]. f_equal. exact IH.
Qed.

Lemma load_addrs_stores {A} (g : A -> Z) xs :
  load_addrs (map (fun l => EvStore (g l)) xs) = [].
Proof. induction xs; [reflexivity | exact IHxs]. Qed.

Lemma load_addrs_lanes {A} r (g : A -> nat) xs :
  load_addrs (map (fun l => EvLane r (g l)) xs) = [].
Proof. induction xs; [reflexivity | exact IHxs]. Qed.

Lemma fld_addrs_app a b : fld_addrs (a ++ b) = fld_addrs a ++ fld_addrs b.
Proof. apply flat_map_app. Qed.

Lemma fld_addrs_loads {A} (g : A -> Z) xs :
  fld_addrs (map (fun l => EvLoad (g l)) xs) = [].
Proof. induction xs; [reflexivity | exact IHxs]. Qed.

Lemma fld_addrs_stores {A} (g : A -> Z) xs :
  fld_addrs (map (fun l => EvStore (g l)) xs) = [].
Proof. induction xs; [reflexivity | exact IHxs]. Qed.

Lemma fld_addrs_lanes {A} r (g : A -> nat) xs :
  fld_addrs (map (fun l => EvLane r (g l)) xs) = [].
Proof. induction xs; [reflexivity | exact IHxs]. Qed.

Section LoadTrace.

Context {F : Type} {ops : FloatOps F}.
Variable VLMAX : nat.
Variables (o i f C : Z).

Ltac loads :=
  cbn [app];
  rewrite ?load_addrs_app, ?load_addrs_loads, ?load_addrs_lanes,
          ?load_addrs_stores;
  cbn [load_addrs flat_map app]; rewrite ?app_nil_r.

Ltac flds :=
  cbn [app];
  rewrite ?fld_addrs_app, ?fld_addrs_loads, ?fld_addrs_lanes,
          ?fld_addrs_stores;
  cbn [fld_addrs flat_map app]; rewrite ?app_nil_r.

(** The vector loads of the prologue: input rows 0 to 5. *)
Lemma prologue_trace_loads :
  load_addrs (prologue_trace (F := F) VLMAX o i f C 3) =
  row_addrs (ptr_add i (0 * (C + 2))) (grant VLMAX (C + 3 - 1)) ++
  row_addrs (ptr_add i (1 * (C + 2))) (grant VLMAX (C + 3 - 1)) ++
  row_addrs (ptr_add i (2 * (C + 2))) (grant VLMAX (C + 3 - 1)) ++
  row_addrs (ptr_add i (3 * (C + 2))) (grant VLMAX (C + 3 - 1)) ++
  row_addrs (ptr_add i (4 * (C + 2))) (grant VLMAX (C + 3 - 1)) ++
  row_addrs (ptr_add i (5 * (C + 2))) (grant VLMAX (C + 3 - 1)).
Proof.
  unfold prologue_trace, blank. run. loads.
  rewrite <- !app_assoc.
  repeat (f_equal; try (apply row_addrs_eq; rewrite ?shl3_eq; unfold ptr_add; lia)).
Qed.

(** The vector loads of one loop iteration: the four rows at the cursor. *)
Lemma loop_trace_loads r :
  load_addrs (loop_trace (F := F) VLMAX o i f C 3 r (cursor i C r)) =
  row_addrs (ptr_add i ((r + 2) * (C + 2))) (grant VLMAX (C + 3 - 1)) ++
  row_addrs (ptr_add i ((r + 3) * (C + 2))) (grant VLMAX (C + 3 - 1)) ++
  row_addrs (ptr_add i ((r + 4) * (C + 2))) (grant VLMAX (C + 3 - 1)) ++
  row_addrs (ptr_add i ((r + 5) * (C + 2))) (grant VLMAX (C + 3 - 1)).
Proof.
  unfold loop_trace, blank. run. loads.
  rewrite <- !app_assoc.
  repeat (f_equal; try (apply row_addrs_eq; rewrite ?shl3_eq;
                        unfold cursor, ptr_add; lia)).
Qed.

(** The scalar loads of the prologue: the block helper reads the filter
    column by column, then column 0 is read again for the loop. *)
Lemma prologue_trace_flds :
  fld_addrs (prologue_trace (F := F) VLMAX o i f C 3) =
  filter_column f 0 ++ filter_column f 1 ++ filter_column f 2 ++ filter_column f 0.
Proof.
  unfold prologue_trace, blank. run. flds.
  unfold filter_column. cbn [app]. rewrite ?shl3_eq.
  repeat (f_equal; try (unfold ptr_add; lia)).
Qed.

(** The scalar loads of one loop iteration: columns 1 and 2 only. *)
Lemma loop_trace_flds r i__ :
  fld_addrs (loop_trace (F := F) VLMAX o i f C 3 r i__) =
  filter_column f 1 ++ filter_column f 2.
Proof.
  unfold loop_trace, blank. run. flds.
  unfold filter_column. cbn [app]. rewrite ?shl3_eq.
  repeat (f_equal; try (unfold ptr_add; lia)).
Qed.

Lemma loops_trace_flds n : forall r,
  fld_addrs (loops_trace (F := F) VLMAX o i f C n r) =
  concat (repeat (filter_column f 1 ++ filter_column f 2) n).
Proof.
  induction n as [|n IH]; intros r; [reflexivity|].
  cbn [loops_trace repeat concat].
  rewrite fld_addrs_app, loop_trace_flds, IH. reflexivity.
Qed.

Hypothesis HC : 0 <= C.
Hypothesis Hfit : C + 2 <= Z.of_nat VLMAX.

(** Consecutive full rows of the padded input are consecutive cells. *)
Lemma input_rows_concat r n :
  row_addrs (ptr_add i (r * (C + 2))) (grant VLMAX (C + 3 - 1)) ++
  row_addrs (ptr_add i ((r + 1) * (C + 2))) n =
  row_addrs (ptr_add i (r * (C + 2))) (Z.to_nat (C + 2) + n).
Proof.
  rewrite grant_fits by lia.
  replace (C + 3 - 1) with (C + 2) by lia. rewrite row_addrs_app.
  f_equal. apply row_addrs_eq. unfold ptr_add. lia.
Qed.

Lemma loops_trace_loads n : forall r,
  load_addrs (loops_trace (F := F) VLMAX o i f C n r) =
  row_addrs (ptr_add i ((r + 2) * (C + 2))) (n * (4 * Z.to_nat (C + 2))).
Proof.
  induction n as [|n IH]; intros r; [reflexivity|].
  cbn [loops_trace]. rewrite load_addrs_app, loop_trace_loads, IH.
  rewrite <- !app_assoc.
  replace (r + 4 + 2) with (r + 5 + 1) by lia.
  rewrite input_rows_concat.
  replace (r + 5) with (r + 4 + 1) by lia. rewrite input_rows_concat.
  replace (r + 4) with (r + 3 + 1) by lia. rewrite input_rows_concat.
  replace (r + 3) with (r + 2 + 1) by lia. rewrite input_rows_concat.
  apply f_equal. lia.
Qed.

(** With [C + 2 <= VLMAX] the vector loads of a call are the cells of the
    padded input, each once, in address order. *)
Lemma kernel_trace_loads R :
  0 < R -> R mod 4 = 0 ->
  load_addrs (kernel_trace (F := F) VLMAX o i f R C) =
  row_addrs i (Z.to_nat ((R + 2) * (C + 2))).
Proof.
  intros HR0 HR4.
  destruct (blocks_of_R R HR0 HR4) as (HR & Hn & _ & _).
  unfold kernel_trace.
  rewrite load_addrs_app, prologue_trace_loads, loops_trace_loads.
  rewrite <- !app_assoc.
  replace (4 + 2) with (5 + 1) by lia. rewrite input_rows_concat.
  change 5 with (4 + 1) at 1. rewrite input_rows_concat.
  change 4 with (3 + 1) at 1. rewrite input_rows_concat.
  change 3 with (2 + 1) at 1. rewrite input_rows_concat.
  change 2 with (1 + 1) at 1. rewrite input_rows_concat.
  change 1 with (0 + 1) at 1. rewrite input_rows_concat.
  replace (ptr_add i (0 * (C + 2))) with i by (unfold ptr_add; lia).
  apply f_equal. nia.
Qed.

End LoadTrace.

(** X2.  Output rows are stored in whole blocks whatever [R] is: when a row
    fits the register group the stores of a call are the first
    [rows_done R * C] cells from [o] on, each once and in address order.
    For a positive [R] that is not a multiple of four this passes the end of
    the [R x C] matrix: the cell right after it is stored to. *)
Theorem X2_stores_cover_the_row_count_rounded_up
    {F : Type} {ops : FloatOps F} (VLMAX : nat) (tail : vreg -> nat -> F -> F)
    (o i f R C : Z) (st : state F) :
  1 <= C -> C <= Z.of_nat VLMAX ->
  exists st' evs,
    fconv2d_3x3 VLMAX tail o i f R C 3 st = Some st' /\
    log st' = log st ++ evs /\
    store_addrs evs = row_addrs o (Z.to_nat (rows_done R * C)) /\
    (0 < R -> R mod 4 <> 0 -> In (ptr_add o (R * C)) (store_addrs evs)).
Proof.
  intros HC Hfit.
  destruct (kernel_log VLMAX tail o i f C R st) as (st' & E & Hl).
  destruct (rows_done_block R) as [H4 Hm].
  exists st', (kernel_trace (F := F) VLMAX o i f (rows_done R) C).
  split; [exact E|]. split; [exact Hl|].
  assert (Hs : store_addrs (kernel_trace (F := F) VLMAX o i f (rows_done R) C) =
               row_addrs o (Z.to_nat (rows_done R * C)))
    by (apply kernel_trace_stores; lia).
  split; [exact Hs|].
  intros HR0 HR4. rewrite Hs. apply in_row_addrs.
  assert (R < rows_done R).
  { destruct (rows_done_ge R) as [G|G]; [|lia].
    destruct (Z.eq_dec R (rows_done R)) as [Eq|]; [|lia].
    rewrite Eq in HR4. contradiction. }
  nia.
Qed.

Lemma X2_stores_cover_the_row_count_rounded_up_witness :
  1 <= 4 /\ 4 <= Z.of_nat 8 /\
  exists st' evs,
    fconv2d_3x3 8 Example.keep Example.o_ptr Example.i_ptr Example.f_ptr 6 4 3
                Example.small = Some st' /\
    log st' = log Example.small ++ evs /\
    store_addrs evs = row_addrs Example.o_ptr (Z.to_nat (rows_done 6 * 4)) /\
    (0 < 6 -> 6 mod 4 <> 0 ->
     In (ptr_add Example.o_ptr (6 * 4)) (store_addrs evs)).
Proof.
  split; [lia|]. split; [cbn; lia|].
  apply X2_stores_cover_the_row_count_rounded_up; [lia | cbn; lia].
Defined.

(** X3.  The sliding window loads every input element once: when a padded
    row fits the register group, the vector loads of a call are the
    [(rows_done R + 2) * (C + 2)] cells of the padded input from [i] on, each
    once and in address order; no row is loaded twice. *)
Theorem X3_every_input_element_is_loaded_once
    {F : Type} {ops : FloatOps F} (VLMAX : nat) (tail : vreg -> nat -> F -> F)
    (o i f R C : Z) (st : state F) :
  0 <= C -> C + 2 <= Z.of_nat VLMAX ->
  exists st' evs,
    fconv2d_3x3 VLMAX tail o i f R C 3 st = Some st' /\
    log st' = log st ++ evs /\
    load_addrs evs = row_addrs i (Z.to_nat ((rows_done R + 2) * (C + 2))).
Proof.
  intros HC Hfit.
  destruct (kernel_log VLMAX tail o i f C R st) as (st' & E & Hl).
  destruct (rows_done_block R) as [H4 Hm].
  exists st', (kernel_trace (F := F) VLMAX o i f (rows_done R) C).
  split; [exact E|]. split; [exact Hl|].
  apply kernel_trace_loads; lia.
Qed.

Lemma X3_every_input_element_is_loaded_once_witness :
  0 <= 4 /\ 4 + 2 <= Z.of_nat 8 /\
  exists st' evs,
    fconv2d_3x3 8 Example.keep Example.o_ptr Example.i_ptr Example.f_ptr 8 4 3
                Example.small = Some st' /\
    log st' = log Example.small ++ evs /\
    load_addrs evs =
    row_addrs Example.i_ptr (Z.to_nat ((rows_done 8 + 2) * (4 + 2))).
Proof.
  split; [lia|]. split; [cbn; lia|].
  apply X3_every_input_element_is_loaded_once; [lia | cbn; lia].
Defined.

Lemma length_concat_repeat {A : Type} (l : list A) n :
  length (concat (repeat l n)) = (n * length l)%nat.
Proof.
  induction n as [|n IH]; [reflexivity|].
  cbn [repeat concat]. rewrite length_app, IH. reflexivity.
Qed.

(** X4.  The filter is read by scalar loads only, nine cells at a time and
    column by column.  The first block reads all three columns, column 0 is
    read once more before the loop, and every loop iteration reads columns 1
    and 2 only: a call makes [6 + 6 * (rows_done R / 4)] scalar loads. *)
Theorem X4_filter_column_0_is_not_reloaded_in_the_loop
    {F : Type} {ops : FloatOps F} (VLMAX : nat) (tail : vreg -> nat -> F -> F)
    (o i f R C : Z) (st : state F) :
  exists st' evs,
    fconv2d_3x3 VLMAX tail o i f R C 3 st = Some st' /\
    log st' = log st ++ evs /\
    fld_addrs evs =
      filter_column f 0 ++ filter_column f 1 ++ filter_column f 2 ++
      filter_column f 0 ++
      concat (repeat (filter_column f 1 ++ filter_column f 2)
                     (Z.to_nat (rows_done R / 4 - 1))) /\
    Z.of_nat (length (fld_addrs evs)) = 6 + 6 * (rows_done R / 4).
Proof.
  destruct (kernel_log VLMAX tail o i f C R st) as (st' & E & Hl).
  exists st', (kernel_trace (F := F) VLMAX o i f (rows_done R) C).
  split; [exact E|]. split; [exact Hl|].
  assert (Hf : fld_addrs (kernel_trace (F := F) VLMAX o i f (rows_done R) C) =
      filter_column f 0 ++ filter_column f 1 ++ filter_column f 2 ++
      filter_column f 0 ++
      concat (repeat (filter_column f 1 ++ filter_column f 2)
                     (Z.to_nat (rows_done R / 4 - 1)))).
  { unfold kernel_trace.
    rewrite fld_addrs_app, prologue_trace_flds, loops_trace_flds.
    rewrite <- !app_assoc. reflexivity. }
  split; [exact Hf|].
  rewrite Hf, !length_app, length_concat_repeat, length_app.
  destruct (rows_done_block R) as [H4 Hm].
  pose proof (Z.div_mod (rows_done R) 4 ltac:(lia)) as D. rewrite Hm in D.
  cbn [filter_column length]. lia.
Qed.

(** ** The output for rows of any width *)

Section GroupValues.

Context {F : Type} {ops : FloatOps F}.
Variable VLMAX : nat.

Ltac chain_eq :=
  repeat match goal with
         | |- ?x = ?x => reflexivity
         | |- fmacc _ _ _ = fmacc _ _ _ => apply f_equal3
         | |- fmul _ _ = fmul _ _ => apply f_equal2
         | |- ?m _ = ?m _ => apply f_equal; lia
         end.

(** In every stored lane the kernel's value is the reference on the input
    as the register group holds it. *)
Lemma kernel_val_group (m : memory F) i f C r c :
  (c < VLMAX)%nat ->
  kernel_val VLMAX m i f C r c =
  conv_ref (filter_at m f) (input_in_group VLMAX m i C) r (Z.of_nat c).
Proof.
  intros Hc. unfold kernel_val, mac3x3, win, conv_ref, taps.
  cbn [flat_map map app tl fold_left]. unfold ref_step, input_in_group.
  cbn [fst snd].
  assert (E0 : (Z.of_nat c <? Z.of_nat VLMAX) = true) by (apply Z.ltb_lt; lia).
  assert (E0' : (Z.of_nat c + 0 <? Z.of_nat VLMAX) = true) by (apply Z.ltb_lt; lia).
  assert (E1 : (Z.of_nat c + 1 <? Z.of_nat VLMAX) = (c + 1 <? VLMAX)%nat)
    by (destruct (Z.ltb_spec (Z.of_nat c + 1) (Z.of_nat VLMAX)),
                 (Nat.ltb_spec (c + 1) VLMAX); try reflexivity; lia).
  assert (E2 : (Z.of_nat c + 2 <? Z.of_nat VLMAX) = (c + 2 <? VLMAX)%nat)
    by (destruct (Z.ltb_spec (Z.of_nat c + 2) (Z.of_nat VLMAX)),
                 (Nat.ltb_spec (c + 2) VLMAX); try reflexivity; lia).
  rewrite E0, E0', E1, E2.
  unfold filter_at, input_at, row_lanes, ptr_add, lane_addr.
  destruct (c + 1 <? VLMAX)%nat, (c + 2 <? VLMAX)%nat; chain_eq.
Qed.

(** Whether [a] is a cell the row stores of the first [R] rows reach. *)
Lemma stored_cell_dec o C R a :
  1 <= C ->
  (exists r c, 0 <= r < R /\ (c < grant VLMAX C)%nat /\
               a = ptr_add o (r * C + Z.of_nat c)) \/
  (forall r c, 0 <= r < R -> (c < grant VLMAX C)%nat ->
               a <> ptr_add o (r * C + Z.of_nat c)).
Proof.
  intros HC. pose proof (vlc_le VLMAX C HC) as Hg.
  destruct (Z.eq_dec ((a - o) mod 8) 0) as [E8|N8].
  2:{ right. intros r c _ _ ->. apply N8. unfold ptr_add.
      replace (o + 8 * (r * C + Z.of_nat c) - o)
        with ((r * C + Z.of_nat c) * 8) by lia.
      apply Z.mod_mul. lia. }
  pose proof (Z.div_mod (a - o) 8 ltac:(lia)) as D8. rewrite E8 in D8.
  set (k := (a - o) / 8) in *.
  pose proof (Z.div_mod k C ltac:(lia)) as DC.
  pose proof (Z.mod_pos_bound k C ltac:(lia)) as BC.
  set (r0 := k / C) in *. set (c0 := k mod C) in *.
  assert (Hsame : forall r c, (c < grant VLMAX C)%nat ->
            a = ptr_add o (r * C + Z.of_nat c) -> r = r0 /\ Z.of_nat c = c0).
  { intros r c Hc Ea. unfold ptr_add in Ea.
    assert (Ek : r * C + Z.of_nat c = r0 * C + c0) by lia.
    apply out_index_inj in Ek; lia. }
  destruct (Z_lt_dec r0 0) as [Hn|Hn].
  { right. intros r c Hr Hc Ea. destruct (Hsame r c Hc Ea). lia. }
  destruct (Z_lt_dec r0 R) as [HR|HR].
  2:{ right. intros r c Hr Hc Ea. destruct (Hsame r c Hc Ea). lia. }
  destruct (lt_dec (Z.to_nat c0) (grant VLMAX C)) as [Hc0|Hc0].
  - left. exists r0, (Z.to_nat c0). split; [lia|]. split; [exact Hc0|].
    unfold ptr_add. lia.
  - right. intros r c Hr Hc Ea. destruct (Hsame r c Hc Ea). lia.
Qed.

(** The kernel's value for row [k + r] of the input at [i] is its value for
    row [r] of the input that starts [k] rows further down. *)
Lemma kernel_val_shift (m : memory F) i f C k r c :
  kernel_val VLMAX m (ptr_add i (k * (C + 2))) f C r c =
  kernel_val VLMAX m i f C (k + r) c.
Proof.
  unfold kernel_val.
  replace (ptr_add (ptr_add i (k * (C + 2))) (r * (C + 2)))
    with (ptr_add i ((k + r) * (C + 2))) by (unfold ptr_add; lia).
  replace (ptr_add (ptr_add i (k * (C + 2))) ((r + 1) * (C + 2)))
    with (ptr_add i ((k + r + 1) * (C + 2))) by (unfold ptr_add; lia).
  replace (ptr_add (ptr_add i (k * (C + 2))) ((r + 2) * (C + 2)))
    with (ptr_add i ((k + r + 2) * (C + 2))) by (unfold ptr_add; lia).
  reflexivity.
Qed.

End GroupValues.

Section AnyWidth.

Context {F : Type} {ops : FloatOps F}.
Variable VLMAX : nat.
Variables (o i f R C F_ : Z).
Hypothesis Hv : valid_invocation o i f R C F_.

(** What a valid call leaves in the output, for any register group. *)
Lemma output_in_group tail (st : state F) :
  exists st',
    fconv2d_3x3 VLMAX tail o i f R C F_ st = Some st' /\
    forall r c, 0 <= r < R -> 0 <= c < C ->
      output_at (mem st') o C r c =
      if c <? Z.of_nat VLMAX
      then conv_ref (filter_at (mem st) f) (input_in_group VLMAX (mem st) i C) r c
      else output_at (mem st) o C r c.
Proof.
  destruct (kernel_returns VLMAX tail o i f R C F_ st Hv) as (st' & E & _ & [Hs Hf] & _).
  exists st'. split; [exact E|].
  intros r c Hr Hc. destruct Hv as [_ _ _ HC _ _].
  pose proof (grant_le VLMAX C) as Hg.
  unfold output_at. destruct (Z.ltb_spec c (Z.of_nat VLMAX)) as [Hl|Hl].
  - replace c with (Z.of_nat (Z.to_nat c)) by lia.
    rewrite Hs by (try exact Hr; rewrite grant_nonneg by lia; lia).
    apply kernel_val_group. lia.
  - apply Hf. intros r' c' Hr' Hc' Ea. unfold ptr_add in Ea.
    assert (Ek : r * C + c = r' * C + Z.of_nat c') by lia.
    pose proof (vlc_le VLMAX C HC).
    apply out_index_inj in Ek; lia.
Qed.

(** The memory after a valid call is a function of the memory before it. *)
Lemma memory_after_call tail1 tail2 (st1 st2 : state F) :
  (forall k, 0 <= k < (R + 2) * (C + 2) ->
     mem st1 (ptr_add i k) = mem st2 (ptr_add i k)) ->
  (forall k, 0 <= k < 9 -> mem st1 (ptr_add f k) = mem st2 (ptr_add f k)) ->
  exists st1' st2',
    fconv2d_3x3 VLMAX tail1 o i f R C F_ st1 = Some st1' /\
    fconv2d_3x3 VLMAX tail2 o i f R C F_ st2 = Some st2' /\
    forall a, mem st1 a = mem st2 a ->  mem st1' a = mem st2' a.
Proof.
  intros Hi Hf.
  destruct (kernel_returns VLMAX tail1 o i f R C F_ st1 Hv)
    as (st1' & E1 & _ & [Hs1 Hf1] & _).
  destruct (kernel_returns VLMAX tail2 o i f R C F_ st2 Hv)
    as (st2' & E2 & _ & [Hs2 Hf2] & _).
  exists st1', st2'. split; [exact E1|]. split; [exact E2|].
  intros a Ha. destruct Hv as [_ HR0 _ HC _ _].
  pose proof (vlc_le VLMAX C HC) as Hg.
  destruct (stored_cell_dec VLMAX o C R a HC) as [(r & c & Hr & Hc & ->)|Hn].
  - rewrite Hs1, Hs2 by assumption.
    apply (kernel_val_ext VLMAX _ _ i f i f R); try assumption; lia.
  - rewrite Hf1, Hf2 by assumption. exact Ha.
Qed.

End AnyWidth.

(** X5.  The output of a valid call on any register group.  In the columns
    the group holds, an element is the reference on the input as the group
    sees it (columns past the group read as zero); the columns past the
    group are left as they were.  With [C + 2 <= VLMAX] this is the
    reference on the whole input. *)
Theorem X5_output_columns_for_any_row_width
    {F : Type} {ops : FloatOps F} (VLMAX : nat) (tail : vreg -> nat -> F -> F)
    (o i f R C F_ : Z) (st : state F) :
  valid_invocation o i f R C F_ ->
  exists st',
    fconv2d_3x3 VLMAX tail o i f R C F_ st = Some st' /\
    forall r c, 0 <= r < R -> 0 <= c < C ->
      output_at (mem st') o C r c =
      if c <? Z.of_nat VLMAX
      then conv_ref (filter_at (mem st) f) (input_in_group VLMAX (mem st) i C) r c
      else output_at (mem st) o C r c.
Proof. intros Hv. apply output_in_group. exact Hv. Qed.

Lemma X5_output_columns_for_any_row_width_witness :
  valid_invocation Example.o_ptr Example.i_ptr Example.f_ptr 4 8 3 /\
  exists st',
    fconv2d_3x3 4 Example.keep Example.o_ptr Example.i_ptr Example.f_ptr 4 8 3
                Example.wide_dirty = Some st' /\
    forall r c, 0 <= r < 4 -> 0 <= c < 8 ->
      output_at (mem st') Example.o_ptr 8 r c =
      if c <? Z.of_nat 4
      then conv_ref (filter_at (mem Example.wide_dirty) Example.f_ptr)
                    (input_in_group 4 (mem Example.wide_dirty) Example.i_ptr 8) r c
      else output_at (mem Example.wide_dirty) Example.o_ptr 8 r c.
Proof.
  split; [exact wide_valid|].
  apply X5_output_columns_for_any_row_width. exact wide_valid.
Defined.

(** X6.  An output element depends on the filter and on the 3 x 3 input
    window under it, and on nothing else: two valid calls whose memories
    agree on those eighteen cells store the same value there, whatever the
    rest of the memory, the registers and the tail lanes hold. *)
Theorem X6_output_element_depends_on_its_window_only
    {F : Type} {ops : FloatOps F} (VLMAX : nat)
    (tail1 tail2 : vreg -> nat -> F -> F)
    (o i f R C F_ : Z) (st1 st2 : state F) (r c : Z) :
  valid_invocation o i f R C F_ ->
  0 <= r < R -> 0 <= c < C -> c < Z.of_nat VLMAX ->
  (forall a b, 0 <= a < 3 -> 0 <= b < 3 ->
     filter_at (mem st1) f a b = filter_at (mem st2) f a b) ->
  (forall a b, 0 <= a < 3 -> 0 <= b < 3 ->
     input_at (mem st1) i C (r + a) (c + b) = input_at (mem st2) i C (r + a) (c + b)) ->
  exists st1' st2',
    fconv2d_3x3 VLMAX tail1 o i f R C F_ st1 = Some st1' /\
    fconv2d_3x3 VLMAX tail2 o i f R C F_ st2 = Some st2' /\
    output_at (mem st1') o C r c = output_at (mem st2') o C r c.
Proof.
  intros Hv Hr Hc Hl Hf Hi.
  destruct (output_in_group VLMAX o i f R C F_ Hv tail1 st1) as (st1' & E1 & H1).
  destruct (output_in_group VLMAX o i f R C F_ Hv tail2 st2) as (st2' & E2 & H2).
  exists st1', st2'. split; [exact E1|]. split; [exact E2|].
  rewrite H1, H2 by assumption.
  rewrite (proj2 (Z.ltb_lt c (Z.of_nat VLMAX)) Hl).
  apply conv_ref_ext; [exact Hf|].
  intros a b Ha Hb. unfold input_in_group. rewrite Hi by assumption. reflexivity.
Qed.

Lemma X6_output_element_depends_on_its_window_only_witness :
  valid_invocation Example.o_ptr Example.i_ptr Example.f_ptr 4 8 3 /\
  0 <= 0 < 4 /\ 0 <= 0 < 8 /\ 0 < Z.of_nat 4 /\
  (forall a b, 0 <= a < 3 -> 0 <= b < 3 ->
     filter_at (mem Example.wide) Example.f_ptr a b =
     filter_at (mem Example.wide_dirty) Example.f_ptr a b) /\
  (forall a b, 0 <= a < 3 -> 0 <= b < 3 ->
     input_at (mem Example.wide) Example.i_ptr 8 (0 + a) (0 + b) =
     input_at (mem Example.wide_dirty) Example.i_ptr 8 (0 + a) (0 + b)) /\
  exists st1' st2',
    fconv2d_3x3 4 Example.keep Example.o_ptr Example.i_ptr Example.f_ptr 4 8 3
                Example.wide = Some st1' /\
    fconv2d_3x3 4 Example.ones Example.o_ptr Example.i_ptr Example.f_ptr 4 8 3
                Example.wide_dirty = Some st2' /\
    output_at (mem st1') Example.o_ptr 8 0 0 =
    output_at (mem st2') Example.o_ptr 8 0 0.
Proof.
  assert (Hf : forall a b, 0 <= a < 3 -> 0 <= b < 3 ->
     filter_at (mem Example.wide) Example.f_ptr a b =
     filter_at (mem Example.wide_dirty) Example.f_ptr a b).
  { intros a b Ha Hb.
    assert (a = 0 \/ a = 1 \/ a = 2) as [-> | [-> | ->]] by lia;
    assert (b = 0 \/ b = 1 \/ b = 2) as [-> | [-> | ->]] by lia;
    vm_compute; reflexivity. }
  assert (Hi : forall a b, 0 <= a < 3 -> 0 <= b < 3 ->
     input_at (mem Example.wide) Example.i_ptr 8 (0 + a) (0 + b) =
     input_at (mem Example.wide_dirty) Example.i_ptr 8 (0 + a) (0 + b)).
  { intros a b Ha Hb.
    assert (a = 0 \/ a = 1 \/ a = 2) as [-> | [-> | ->]] by lia;
    assert (b = 0 \/ b = 1 \/ b = 2) as [-> | [-> | ->]] by lia;
    vm_compute; reflexivity. }
  split; [exact wide_valid|]. split; [lia|]. split; [lia|]. split; [cbn; lia|].
  split; [exact Hf|]. split; [exact Hi|].
  apply X6_output_element_depends_on_its_window_only;
    [exact wide_valid | lia | lia | cbn; lia | exact Hf | exact Hi].
Defined.

(** X7.  The memory a valid call leaves is a function of the memory it
    starts in: the contents of the vector registers, the vector length set
    by earlier code and what the unit does to tail lanes have no influence,
    for rows of any width. *)
Theorem X7_memory_after_a_call_depends_on_memory_only
    {F : Type} {ops : FloatOps F} (VLMAX : nat)
    (tail1 tail2 : vreg -> nat -> F -> F)
    (o i f R C F_ : Z) (st1 st2 : state F) :
  valid_invocation o i f R C F_ ->
  (forall a, mem st1 a = mem st2 a) ->
  exists st1' st2',
    fconv2d_3x3 VLMAX tail1 o i f R C F_ st1 = Some st1' /\
    fconv2d_3x3 VLMAX tail2 o i f R C F_ st2 = Some st2' /\
    forall a, mem st1' a = mem st2' a.
Proof.
  intros Hv Hm.
  destruct (memory_after_call VLMAX o i f R C F_ Hv tail1 tail2 st1 st2)
    as (st1' & st2' & E1 & E2 & H); try (intros; apply Hm).
  exists st1', st2'. split; [exact E1|]. split; [exact E2|].
  intros a. apply H. apply Hm.
Qed.

Lemma X7_memory_after_a_call_depends_on_memory_only_witness :
  valid_invocation Example.o_ptr Example.i_ptr Example.f_ptr 4 8 3 /\
  (forall a, mem Example.wide a =
             mem (mkState (mem Example.wide) (vregs (@blank _ Binary64.b64_ops))
                          7 [EvFld 0]) a) /\
  exists st1' st2',
    fconv2d_3x3 4 Example.keep Example.o_ptr Example.i_ptr Example.f_ptr 4 8 3
                Example.wide = Some st1' /\
    fconv2d_3x3 4 Example.ones Example.o_ptr Example.i_ptr Example.f_ptr 4 8 3
                (mkState (mem Example.wide) (vregs (@blank _ Binary64.b64_ops))
                         7 [EvFld 0]) = Some st2' /\
    forall a, mem st1' a = mem st2' a.
Proof.
  split; [exact wide_valid|]. split; [intros a; reflexivity|].
  apply X7_memory_after_a_call_depends_on_memory_only;
    [exact wide_valid | intros a; reflexivity].
Defined.

Section Composition.

Context {F : Type} {ops : FloatOps F}.
Variable VLMAX : nat.


(** A second call on the same arguments finds the output already in place:
    the input and the filter are as before, so every stored value is the
    one the cell holds. *)
Lemma second_call_keeps_memory tail1 tail2 o i f R C F_ (st : state F) :
  valid_invocation o i f R C F_ ->
  exists st1 st2,
    fconv2d_3x3 VLMAX tail1 o i f R C F_ st = Some st1 /\
    fconv2d_3x3 VLMAX tail2 o i f R C F_ st1 = Some st2 /\
    forall a, mem st2 a = mem st1 a.
Proof.
  intros Hv.
  destruct (kernel_returns VLMAX tail1 o i f R C F_ st Hv)
    as (st1 & E1 & _ & S1 & _).
  destruct (kernel_returns VLMAX tail2 o i f R C F_ st1 Hv)
    as (st2 & E2 & _ & [Hs2 Hf2] & _).
  exists st1, st2. split; [exact E1|]. split; [exact E2|].
  intros a. destruct Hv as [_ HR0 _ HC Hin Hflt].
  pose proof (vlc_le VLMAX C HC) as Hg.
  destruct (stored_cell_dec VLMAX o C R a HC) as [(r & c & Hr & Hc & ->)|Hn].
  - rewrite Hs2 by assumption. pose proof S1 as [Hs1 _].
    rewrite Hs1 by assumption.
    apply (kernel_val_ext VLMAX _ _ i f i f R); try assumption; try lia.
    + intros k Hk.
      apply (frame_input VLMAX o i f R C (mem st) HC Hin R);
        [exact S1 | lia | exact Hk].
    + intros k Hk.
      apply (frame_filter VLMAX o i f R C (mem st) HC Hflt R);
        [exact S1 | lia | exact Hk].
  - apply Hf2. exact Hn.
Qed.

(** The rows of a call can be split between two calls: the first [R1] rows,
    then the other [R2] rows on the buffers moved down by [R1] rows. *)
Lemma split_rows tail0 tail1 tail2 o i f R1 R2 C (st : state F) :
  valid_invocation o i f (R1 + R2) C 3 ->
  0 < R1 -> R1 mod 4 = 0 -> 0 < R2 -> R2 mod 4 = 0 ->
  exists st' st1 st2,
    fconv2d_3x3 VLMAX tail0 o i f (R1 + R2) C 3 st = Some st' /\
    fconv2d_3x3 VLMAX tail1 o i f R1 C 3 st = Some st1 /\
    fconv2d_3x3 VLMAX tail2 (ptr_add o (R1 * C)) (ptr_add i (R1 * (C + 2))) f
                R2 C 3 st1 = Some st2 /\
    forall a, mem st2 a = mem st' a.
Proof.
  intros Hv H1 H14 H2 H24.
  pose proof Hv as [_ HR0 HR4 HC Hin Hflt].
  assert (Hv1 : valid_invocation o i f R1 C 3).
  { split; try assumption; try reflexivity.
    - unfold separate in *. nia.
    - unfold separate in *. nia. }
  assert (Hv2 : valid_invocation (ptr_add o (R1 * C)) (ptr_add i (R1 * (C + 2))) f
                                 R2 C 3).
  { split; try assumption; try reflexivity.
    - unfold separate, ptr_add in *. nia.
    - unfold separate, ptr_add in *. nia. }
  destruct (kernel_returns VLMAX tail0 o i f (R1 + R2) C 3 st Hv)
    as (st' & E & _ & [Hs Hf] & _).
  destruct (kernel_returns VLMAX tail1 o i f R1 C 3 st Hv1)
    as (st1 & E1 & _ & S1 & _).
  destruct (kernel_returns VLMAX tail2 _ _ f R2 C 3 st1 Hv2)
    as (st2 & E2 & _ & [Hs2 Hf2] & _).
  exists st', st1, st2. split; [exact E|]. split; [exact E1|]. split; [exact E2|].
  intros a. pose proof (vlc_le VLMAX C HC) as Hg.
  pose proof S1 as [Hs1 Hf1].
  assert (Hlow : forall r c, 0 <= r < R1 -> (c < grant VLMAX C)%nat ->
            forall r' c', 0 <= r' < R2 -> (c' < grant VLMAX C)%nat ->
            ptr_add o (r * C + Z.of_nat c) <>
            ptr_add (ptr_add o (R1 * C)) (r' * C + Z.of_nat c')).
  { intros r c Hr Hc r' c' Hr' Hc' Ea. unfold ptr_add in Ea.
    assert (Ek : r * C + Z.of_nat c = (R1 + r') * C + Z.of_nat c') by lia.
    apply out_index_inj in Ek; lia. }
  destruct (stored_cell_dec VLMAX o C (R1 + R2) a HC) as [(r & c & Hr & Hc & ->)|Hn].
  - rewrite Hs by assumption.
    destruct (Z_lt_ge_dec r R1) as [Hlt|Hge].
    + rewrite Hf2 by (intros r' c' Hr' Hc'; apply Hlow; (lia || assumption)).
      apply Hs1; (lia || assumption).
    + replace (ptr_add o (r * C + Z.of_nat c))
        with (ptr_add (ptr_add o (R1 * C)) ((r - R1) * C + Z.of_nat c))
        by (unfold ptr_add; lia).
      rewrite Hs2 by (lia || assumption).
      rewrite kernel_val_shift.
      replace (R1 + (r - R1)) with r by lia.
      apply (kernel_val_ext VLMAX _ _ i f i f (R1 + R2)); try assumption; try lia.
      * intros k Hk.
        apply (frame_input VLMAX o i f (R1 + R2) C (mem st) HC Hin R1);
          [exact S1 | lia | exact Hk].
      * intros k Hk.
        apply (frame_filter VLMAX o i f (R1 + R2) C (mem st) HC Hflt R1);
          [exact S1 | lia | exact Hk].
  - rewrite Hf by exact Hn.
    rewrite Hf2, Hf1; [reflexivity | |].
    + intros r c Hr Hc. apply Hn; (lia || assumption).
    + intros r' c' Hr' Hc' Ea. apply (Hn (R1 + r') c'); [lia | assumption |].
      rewrite Ea. unfold ptr_add. lia.
Qed.

End Composition.

(** X8.  Calling the kernel again on the same buffers changes nothing: the
    second call leaves every memory cell as the first one left it. *)
Theorem X8_second_call_on_the_same_buffers_changes_nothing
    {F : Type} {ops : FloatOps F} (VLMAX : nat)
    (tail1 tail2 : vreg -> nat -> F -> F)
    (o i f R C F_ : Z) (st : state F) :
  valid_invocation o i f R C F_ ->
  exists st1 st2,
    fconv2d_3x3 VLMAX tail1 o i f R C F_ st = Some st1 /\
    fconv2d_3x3 VLMAX tail2 o i f R C F_ st1 = Some st2 /\
    forall a, mem st2 a = mem st1 a.
Proof. intros Hv. apply second_call_keeps_memory. exact Hv. Qed.

Lemma X8_second_call_on_the_same_buffers_changes_nothing_witness :
  valid_invocation Example.o_ptr Example.i_ptr Example.f_ptr 8 4 3 /\
  exists st1 st2,
    fconv2d_3x3 8 Example.keep Example.o_ptr Example.i_ptr Example.f_ptr 8 4 3
                Example.small = Some st1 /\
    fconv2d_3x3 8 Example.ones Example.o_ptr Example.i_ptr Example.f_ptr 8 4 3
                st1 = Some st2 /\
    forall a, mem st2 a = mem st1 a.
Proof.
  split; [exact small_valid|].
  apply X8_second_call_on_the_same_buffers_changes_nothing. exact small_valid.
Defined.

(** X9.  The rows of a call can be divided between two calls.  For [R1]
    and [R2] positive multiples of four, the call on the first [R1] rows
    followed by the call on the other [R2] rows, with the output moved down
    by [R1] rows of [C] and the input by [R1] rows of [C + 2], leaves the
    memory of the one call on all [R1 + R2] rows. *)
Theorem X9_call_splits_into_calls_on_row_blocks
    {F : Type} {ops : FloatOps F} (VLMAX : nat)
    (tail0 tail1 tail2 : vreg -> nat -> F -> F)
    (o i f R1 R2 C : Z) (st : state F) :
  valid_invocation o i f (R1 + R2) C 3 ->
  0 < R1 -> R1 mod 4 = 0 -> 0 < R2 -> R2 mod 4 = 0 ->
  exists st' st1 st2,
    fconv2d_3x3 VLMAX tail0 o i f (R1 + R2) C 3 st = Some st' /\
    fconv2d_3x3 VLMAX tail1 o i f R1 C 3 st = Some st1 /\
    fconv2d_3x3 VLMAX tail2 (ptr_add o (R1 * C)) (ptr_add i (R1 * (C + 2))) f
                R2 C 3 st1 = Some st2 /\
    forall a, mem st2 a = mem st' a.
Proof. intros. apply split_rows; assumption. Qed.

Lemma X9_call_splits_into_calls_on_row_blocks_witness :
  valid_invocation Example.o_ptr Example.i_ptr Example.f_ptr (4 + 4) 4 3 /\
  0 < 4 /\ 4 mod 4 = 0 /\ 0 < 4 /\ 4 mod 4 = 0 /\
  exists st' st1 st2,
    fconv2d_3x3 8 Example.keep Example.o_ptr Example.i_ptr Example.f_ptr
                (4 + 4) 4 3 Example.small = Some st' /\
    fconv2d_3x3 8 Example.keep Example.o_ptr Example.i_ptr Example.f_ptr
                4 4 3 Example.small = Some st1 /\
    fconv2d_3x3 8 Example.keep (ptr_add Example.o_ptr (4 * 4))
                (ptr_add Example.i_ptr (4 * (4 + 2))) Example.f_ptr
                4 4 3 st1 = Some st2 /\
    forall a, mem st2 a = mem st' a.
Proof.
  split; [exact small_valid|].
  split; [lia|]. split; [reflexivity|]. split; [lia|]. split; [reflexivity|].
  apply X9_call_splits_into_calls_on_row_blocks;
    [exact small_valid | lia | reflexivity | lia | reflexivity].
Defined.

(** ** The block helper on its own *)

Section Helper.

Context {F : Type} {ops : FloatOps F}.
Variable VLMAX : nat.
Variable tail : vreg -> nat -> F -> F.

(** An accumulator lane against the reference on any view of the rows. *)
Lemma mac3x3_ref (flt inp : Z -> Z -> F) (k : Z -> F) (x0 x1 x2 : lanes F) r l :
  (l + 2 < VLMAX)%nat ->
  (forall a b, 0 <= a < 3 -> 0 <= b < 3 -> k (3 * a + b) = flt a b) ->
  (forall b, (b <= 2)%nat ->
     x0 (l + b)%nat = inp (r + 0) (Z.of_nat l + Z.of_nat b) /\
     x1 (l + b)%nat = inp (r + 1) (Z.of_nat l + Z.of_nat b) /\
     x2 (l + b)%nat = inp (r + 2) (Z.of_nat l + Z.of_nat b)) ->
  mac3x3 VLMAX k x0 x1 x2 l = conv_ref flt inp r (Z.of_nat l).
Proof.
  intros Hl Hk Hx. unfold mac3x3, win, conv_ref, taps.
  cbn [flat_map map app tl fold_left]. unfold ref_step. cbn [fst snd].
  rewrite (proj2 (Nat.ltb_lt (l + 1) VLMAX)) by lia.
  rewrite (proj2 (Nat.ltb_lt (l + 2) VLMAX)) by lia.
  destruct (Hx 0%nat ltac:(lia)) as (A0 & A1 & A2).
  destruct (Hx 1%nat ltac:(lia)) as (B0 & B1 & B2).
  destruct (Hx 2%nat ltac:(lia)) as (D0 & D1 & D2).
  rewrite Nat.add_0_r in A0, A1, A2.
  change (Z.of_nat 0) with 0 in *. change (Z.of_nat 1) with 1 in *.
  change (Z.of_nat 2) with 2 in *.
  rewrite A0, A1, A2, B0, B1, B2, D0, D1, D2.
  rewrite <- !Hk by lia.
  replace (inp r (Z.of_nat l)) with (inp (r + 0) (Z.of_nat l + 0))
    by (f_equal; lia).
  reflexivity.
Qed.

Variables (o i f C : Z) (st : state F).
Hypothesis HC : 1 <= C.
Hypothesis Hfit : C + 2 <= Z.of_nat VLMAX.

Let st' := snd (fconv2d_vec_4xC_3x3 VLMAX tail o i f C 3 st).

(** The rows under output row [j] of the block, as [window_at] has them. *)
Ltac window_rows :=
  let b := fresh "b" in let Hb := fresh "Hb" in
  intros b Hb; unfold window_at; cbn [Z.add Z.eqb Z.sub Z.opp Pos.eqb Z.pos_sub
                                      Pos.add Pos.succ Z.succ_double Z.pred_double
                                      Z.double Pos.pred_double];
  rewrite ?shl3_eq; unfold row_lanes, lane_addr, ptr_add;
  repeat split; f_equal; lia.

Lemma block_helper_cells j c :
  0 <= j < 4 -> 0 <= c < C ->
  mem st' (ptr_add o (j * C + c)) =
  conv_ref (filter_at (mem st) f) (window_at st i C) j c.
Proof.
  intros Hj Hc. subst st'. rewrite block_mem.
  assert (Hg : grant VLMAX C = Z.to_nat C) by (apply grant_fits; lia).
  replace c with (Z.of_nat (Z.to_nat c)) by lia.
  set (l := Z.to_nat c).
  assert (Hl : (l < grant VLMAX C)%nat) by (rewrite Hg; subst l; lia).
  rewrite (block_stores_hit C HC) by (try exact Hl; try exact Hj; rewrite Hg; lia).
  assert (Hk : forall a b, 0 <= a < 3 -> 0 <= b < 3 ->
            (fun k => mem st (ptr_add f k)) (3 * a + b) = filter_at (mem st) f a b)
    by reflexivity.
  assert (j = 0 \/ j = 1 \/ j = 2 \/ j = 3) as [-> | [-> | [-> | ->]]] by lia;
    cbn [Z.eqb Pos.eqb].
  - rewrite block_v0 by (lia || exact Hl).
    apply mac3x3_ref; [subst l; lia | exact Hk | window_rows].
  - rewrite block_v2 by (lia || exact Hl).
    apply mac3x3_ref; [subst l; lia | exact Hk | window_rows].
  - rewrite block_v4 by (lia || exact Hl).
    apply mac3x3_ref; [subst l; lia | exact Hk | window_rows].
  - rewrite block_v6 by (lia || exact Hl).
    apply mac3x3_ref; [subst l; lia | exact Hk | window_rows].
Qed.

Lemma block_helper_rows j c :
  0 <= j < 4 -> 0 <= c < C ->
  output_at (mem st') o C j c =
  conv_ref (filter_at (mem st) f) (window_at st i C) j c.
Proof. apply block_helper_cells. Qed.

Lemma block_helper_frame a :
  ~ cell o (4 * C) a -> mem st' a = mem st a.
Proof.
  intros Ha. subst st'. rewrite block_mem. apply block_stores_miss.
  intros j l Hj Hl E. apply Ha.
  rewrite grant_fits in Hl by lia.
  exists (j * C + Z.of_nat l). split; [nia | exact E].
Qed.

End Helper.

(** X10.  The block helper, called on any state and any three pointers:
    it stores four output rows, each element the reference on the window
    rows 0 and 1 it finds in [v8] and [v10] and the rows 2 to 5 it loads
    from [i], and changes no other cell.  All reads come before the first
    store, so this holds also when the output overlaps the input or the
    filter. *)
Theorem X10_block_helper_computes_four_rows_from_the_state_it_finds
    {F : Type} {ops : FloatOps F} (VLMAX : nat) (tail : vreg -> nat -> F -> F)
    (o i f C : Z) (st : state F) :
  1 <= C -> C + 2 <= Z.of_nat VLMAX ->
  (forall j c, 0 <= j < 4 -> 0 <= c < C ->
     output_at (mem (snd (fconv2d_vec_4xC_3x3 VLMAX tail o i f C 3 st))) o C j c =
     conv_ref (filter_at (mem st) f) (window_at st i C) j c) /\
  (forall a, ~ cell o (4 * C) a ->
     mem (snd (fconv2d_vec_4xC_3x3 VLMAX tail o i f C 3 st)) a = mem st a).
Proof.
  intros HC Hfit. split.
  - intros j c. apply block_helper_rows; assumption.
  - intros a. apply block_helper_frame; assumption.
Qed.

Lemma X10_block_helper_computes_four_rows_from_the_state_it_finds_witness :
  1 <= 4 /\ 4 + 2 <= Z.of_nat 8 /\
  (forall j c, 0 <= j < 4 -> 0 <= c < 4 ->
     output_at (mem (snd (fconv2d_vec_4xC_3x3 8 Example.keep Example.i_ptr
                            Example.i_ptr Example.f_ptr 4 3 Example.small)))
               Example.i_ptr 4 j c =
     conv_ref (filter_at (mem Example.small) Example.f_ptr)
              (window_at Example.small Example.i_ptr 4) j c) /\
  (forall a, ~ cell Example.i_ptr (4 * 4) a ->
     mem (snd (fconv2d_vec_4xC_3x3 8 Example.keep Example.i_ptr
                 Example.i_ptr Example.f_ptr 4 3 Example.small)) a =
     mem Example.small a).
Proof.
  split; [lia|]. split; [cbn; lia|].
  apply X10_block_helper_computes_four_rows_from_the_state_it_finds; [lia | cbn; lia].
Defined.

(** ** One block, in place *)

Lemma rows_done_one_block R : R <= 4 -> rows_done R = 4.
Proof.
  intros H. unfold rows_done.
  pose proof (Z.div_mod (R + 3) 4 ltac:(lia)) as D.
  pose proof (Z.mod_pos_bound (R + 3) 4 ltac:(lia)) as B.
  lia.
Qed.

Section OneBlock.

Context {F : Type} {ops : FloatOps F}.
Variable VLMAX : nat.
Variable tail : vreg -> nat -> F -> F.
Variables (o i f R C : Z) (st : state F).
Hypothesis HR : R <= 4.

(** With at most four rows the call is its prologue, and the memory the
    prologue leaves is the one the first block left. *)
Lemma one_block_call :
  exists st',
    fconv2d_3x3 VLMAX tail o i f R C 3 st = Some st' /\
    mem st' =
    mem (snd (fconv2d_vec_4xC_3x3 VLMAX tail o (ptr_add i ((3 - 1) * (C + 3 - 1)))
                f C 3
                (snd (fconv2d_vec_4xC_slice_preload_3x3 VLMAX tail i C 3 st)))).
Proof.
  rewrite fconv2d_3x3_rounded, (rows_done_one_block R HR), smallest_case_returns.
  eexists. split; [reflexivity|].
  destruct (prologue_state VLMAX tail o i f C 3 4 st) as (_ & Em & _).
  exact Em.
Qed.

Hypothesis HC : 1 <= C.
Hypothesis Hfit : C + 2 <= Z.of_nat VLMAX.

Let sP := snd (fconv2d_vec_4xC_slice_preload_3x3 VLMAX tail i C 3 st).
Let sB := snd (fconv2d_vec_4xC_3x3 VLMAX tail o
                 (ptr_add i ((3 - 1) * (C + 3 - 1))) f C 3 sP).

(** The bootstrap and the first block: four output rows from the memory
    they started in, with no assumption on where the buffers lie. *)
Lemma first_block_cells r c :
  0 <= r < 4 -> 0 <= c < C ->
  mem sB (ptr_add o (r * C + c)) =
  conv_ref (filter_at (mem st) f) (input_at (mem st) i C) r c.
Proof.
  intros Hr Hc.
  assert (Hm : mem sP = mem st) by apply preload_mem.
  unfold sB.
  rewrite (block_helper_cells VLMAX tail o (ptr_add i ((3 - 1) * (C + 3 - 1)))
             f C sP HC Hfit r c Hr Hc).
  rewrite Hm. apply conv_ref_ext; [reflexivity|].
  intros a b Ha Hb'. unfold window_at, input_at.
  assert (Hl : (Z.to_nat (c + b) < grant VLMAX (C + 3 - 1))%nat)
    by (rewrite grant_fits by lia; lia).
  destruct (preload_window VLMAX tail i C 3 st _ Hl) as [A8 A10].
  fold sP in A8, A10.
  destruct (Z.eqb_spec (r + a) 0) as [E0|N0];
    [|destruct (Z.eqb_spec (r + a) 1) as [E1|N1]].
  - rewrite A8. unfold row_lanes, lane_addr, ptr_add. f_equal. nia.
  - rewrite A10, shl3_eq. unfold row_lanes, lane_addr, ptr_add. f_equal. nia.
  - rewrite Hm. f_equal. unfold ptr_add. lia.
Qed.

Lemma first_block_frame a :
  ~ cell o (4 * C) a -> mem sB a = mem st a.
Proof.
  intros Ha. unfold sB.
  rewrite (block_helper_frame VLMAX tail o _ f C sP HC Hfit a Ha).
  unfold sP. now rewrite preload_mem.
Qed.

Lemma one_block_in_place :
  exists st',
    fconv2d_3x3 VLMAX tail o i f R C 3 st = Some st' /\
    (forall r c, 0 <= r < 4 -> 0 <= c < C ->
       output_at (mem st') o C r c =
       conv_ref (filter_at (mem st) f) (input_at (mem st) i C) r c) /\
    (forall a, ~ cell o (4 * C) a -> mem st' a = mem st a).
Proof.
  destruct one_block_call as (st' & E & Em).
  exists st'. split; [exact E|]. rewrite Em. fold sP sB. split.
  - intros r c Hr Hc. unfold output_at. apply first_block_cells; assumption.
  - apply first_block_frame.
Qed.

End OneBlock.

(** X11.  A call on at most four rows reads everything before it writes
    anything: the bootstrap and the first block load their rows and
    coefficients before the first row store.  The four output rows are
    therefore the reference on the memory before the call whatever the
    three buffers overlap, and no other cell changes. *)
Theorem X11_one_block_call_is_correct_on_overlapping_buffers
    {F : Type} {ops : FloatOps F} (VLMAX : nat) (tail : vreg -> nat -> F -> F)
    (o i f R C : Z) (st : state F) :
  R <= 4 -> 1 <= C -> C + 2 <= Z.of_nat VLMAX ->
  exists st',
    fconv2d_3x3 VLMAX tail o i f R C 3 st = Some st' /\
    (forall r c, 0 <= r < 4 -> 0 <= c < C ->
       output_at (mem st') o C r c =
       conv_ref (filter_at (mem st) f) (input_at (mem st) i C) r c) /\
    (forall a, ~ cell o (4 * C) a -> mem st' a = mem st a).
Proof. intros. apply one_block_in_place; assumption. Qed.

Lemma X11_one_block_call_is_correct_on_overlapping_buffers_witness :
  4 <= 4 /\ 1 <= 4 /\ 4 + 2 <= Z.of_nat 8 /\
  exists st',
    fconv2d_3x3 8 Example.keep Example.i_ptr Example.i_ptr Example.f_ptr 4 4 3
                Example.small = Some st' /\
    (forall r c, 0 <= r < 4 -> 0 <= c < 4 ->
       output_at (mem st') Example.i_ptr 4 r c =
       conv_ref (filter_at (mem Example.small) Example.f_ptr)
                (input_at (mem Example.small) Example.i_ptr 4) r c) /\
    (forall a, ~ cell Example.i_ptr (4 * 4) a -> mem st' a = mem Example.small a).
Proof.
  split; [lia|]. split; [lia|]. split; [cbn; lia|].
  apply X11_one_block_call_is_correct_on_overlapping_buffers; [lia | lia | cbn; lia].
Defined.

(** ** Rows of no width, and the bounds for every row count *)

Section EmptyRows.

Context {F : Type} {ops : FloatOps F}.
Variable VLMAX : nat.
Variable tail : vreg -> nat -> F -> F.
Variables (o i f C : Z).

(** The row stores have no lane to write. *)
Hypothesis Hg : grant VLMAX C = 0%nat.

Lemma loop_body_empty_mem F_ bs ldi ldf t0 t1 t2 r i__ (st : state F) :
  mem (snd (loop_body VLMAX tail o i f C F_ bs ldi ldf t0 t1 t2 r i__ st)) = mem st.
Proof. expose st. run. rewrite Hg. reflexivity. Qed.

Lemma prologue_empty_mem F_ bs (st : state F) :
  mem (snd (prologue VLMAX tail o i f C F_ bs st)) = mem st.
Proof. expose st. run. rewrite Hg. reflexivity. Qed.

Lemma steady_state_empty_mem R F_ ldi ldf t0 t1 t2 fuel :
  forall r i__ (st : state F) res,
    steady_state VLMAX tail o i f R C F_ 4 ldi ldf t0 t1 t2 fuel r i__ st = Some res ->
    mem (snd res) = mem st.
Proof.
  induction fuel as [|fuel IH]; intros r i__ st res; cbn [steady_state];
    destruct (r <? R).
  - intros E. discriminate E.
  - intros E. apply some_inj in E. subst res. reflexivity.
  - pose proof (loop_body_empty_mem F_ 4 ldi ldf t0 t1 t2 r i__ st) as Hm.
    destruct (loop_body VLMAX tail o i f C F_ 4 ldi ldf t0 t1 t2 r i__ st)
      as [i' st'].
    cbn [snd] in Hm. intros E. rewrite (IH _ _ _ _ E). exact Hm.
  - intros E. apply some_inj in E. subst res. reflexivity.
Qed.

Lemma fuel_empty_mem fuel R F_ (st : state F) res :
  fconv2d_3x3_fuel VLMAX tail fuel o i f R C F_ st = Some res ->
  mem (snd res) = mem st.
Proof.
  unfold fconv2d_3x3_fuel.
  pose proof (prologue_empty_mem F_ 4 st) as Hp.
  destruct (prologue VLMAX tail o i f C F_ 4 st) as [[i__ [[t0 t1] t2]] s1].
  cbn [snd] in Hp. intros E.
  apply steady_state_empty_mem in E. rewrite E. exact Hp.
Qed.

Lemma empty_rows_stores n : forall r,
  store_addrs (loops_trace (F := F) VLMAX o i f C n r) = [].
Proof.
  induction n as [|n IH]; intros r; [reflexivity|].
  cbn [loops_trace]. rewrite store_addrs_app, loop_trace_stores, IH, Hg.
  reflexivity.
Qed.

Lemma empty_rows_call R (st : state F) :
  exists st' evs,
    fconv2d_3x3 VLMAX tail o i f R C 3 st = Some st' /\
    mem st' = mem st /\
    log st' = log st ++ evs /\
    store_addrs evs = [].
Proof.
  destruct (kernel_log VLMAX tail o i f C R st) as (st' & E & Hl).
  exists st', (kernel_trace (F := F) VLMAX o i f (rows_done R) C).
  split; [exact E|]. split; [|split; [exact Hl|]].
  - rewrite fconv2d_3x3_unfold in E.
    destruct (fconv2d_3x3_fuel VLMAX tail (Z.to_nat R) o i f R C 3 st)
      as [res|] eqn:Ef; [|discriminate E].
    cbn [option_map] in E. apply some_inj in E. subst st'.
    apply (fuel_empty_mem _ _ _ _ _ Ef).
  - unfold kernel_trace.
    rewrite store_addrs_app, prologue_trace_stores, empty_rows_stores, Hg.
    reflexivity.
Qed.

End EmptyRows.

(** X12.  With [C = 0] there is nothing to compute: for every row count
    the call returns with the memory exactly as it was and without a single
    store. *)
Theorem X12_rows_of_no_width_store_nothing
    {F : Type} {ops : FloatOps F} (VLMAX : nat) (tail : vreg -> nat -> F -> F)
    (o i f R : Z) (st : state F) :
  exists st' evs,
    fconv2d_3x3 VLMAX tail o i f R 0 3 st = Some st' /\
    mem st' = mem st /\
    log st' = log st ++ evs /\
    store_addrs evs = [].
Proof. apply empty_rows_call. reflexivity. Qed.

(** X13.  For every row count, also one that is not a positive multiple of
    four, all accesses of a call stay inside buffers that have room for
    [rows_done R] output rows: vector loads in the
    [(rows_done R + 2) * (C + 2)] cells from [i], scalar loads in the nine
    cells from [f], stores in the [rows_done R * C] cells from [o]. *)
Theorem X13_accesses_stay_in_buffers_for_whole_blocks
    {F : Type} {ops : FloatOps F} (VLMAX : nat) (tail : vreg -> nat -> F -> F)
    (o i f R C : Z) (st : state F) :
  1 <= C ->
  exists st' evs,
    fconv2d_3x3 VLMAX tail o i f R C 3 st = Some st' /\
    log st' = log st ++ evs /\
    Forall (in_bounds o i f (rows_done R) C) evs.
Proof.
  intros HC.
  destruct (kernel_log VLMAX tail o i f C R st) as (st' & E & Hl).
  destruct (rows_done_block R) as [H4 Hm].
  exists st', (kernel_trace (F := F) VLMAX o i f (rows_done R) C).
  split; [exact E|]. split; [exact Hl|].
  apply kernel_trace_bounds; [exact HC | lia | exact Hm].
Qed.

Lemma X13_accesses_stay_in_buffers_for_whole_blocks_witness :
  1 <= 4 /\
  exists st' evs,
    fconv2d_3x3 8 Example.keep Example.o_ptr Example.i_ptr Example.f_ptr 6 4 3
                Example.small = Some st' /\
    log st' = log Example.small ++ evs /\
    Forall (in_bounds Example.o_ptr Example.i_ptr Example.f_ptr (rows_done 6) 4) evs.
Proof.
  split; [lia|].
  apply X13_accesses_stay_in_buffers_for_whole_blocks. lia.
Defined.

(** ** The filter dimension [F] *)

Section FilterDimension.

Context {F : Type} {ops : FloatOps F}.
Variable VLMAX : nat.
Variables (o i f C F_ : Z).

Ltac loads :=
  cbn [app];
  rewrite ?load_addrs_app, ?load_addrs_loads, ?load_addrs_lanes,
          ?load_addrs_stores;
  cbn [load_addrs flat_map app]; rewrite ?app_nil_r.

Ltac flds :=
  cbn [app];
  rewrite ?fld_addrs_app, ?fld_addrs_loads, ?fld_addrs_lanes,
          ?fld_addrs_stores;
  cbn [fld_addrs flat_map app]; rewrite ?app_nil_r.

(** The input rows the bootstrap and the first block load, for any [F]. *)
Lemma prologue_trace_loads_any_F :
  load_addrs (prologue_trace (F := F) VLMAX o i f C F_) =
  flat_map (fun k => row_addrs (ptr_add i (k * (C + F_ - 1)))
                               (grant VLMAX (C + F_ - 1)))
           [0; 1; F_ - 1; F_; F_ + 1; F_ + 2].
Proof.
  unfold prologue_trace, blank. run. loads.
  cbn [flat_map app]. rewrite ?app_nil_r, <- ?app_assoc.
  repeat (f_equal; try (apply row_addrs_eq; rewrite ?shl3_eq; unfold ptr_add; lia)).
Qed.

(** The filter cells the first block and the lines before the loop read,
    for any [F]. *)
Lemma prologue_trace_flds_any_F :
  fld_addrs (prologue_trace (F := F) VLMAX o i f C F_) =
  map (fun t => ptr_add f (fst t * F_ + snd t)) (taps ++ [(0, 0); (1, 0); (2, 0)]).
Proof.
  unfold prologue_trace, blank. run. flds.
  unfold taps. cbn [flat_map map app fst snd]. rewrite ?shl3_eq.
  repeat (f_equal; try (unfold ptr_add; lia)).
Qed.

End FilterDimension.

(** X14.  The argument [F] is used as a stride and nowhere else.  For any
    [F], a call on one block reads nine filter coefficients, [f[a * F + b]]
    for [a, b < 3] in column-major order (and column 0 once more), and loads
    the six input rows 0, 1, F-1, F, F+1 and F+2 of [C + F - 1] elements:
    with [F = 3] these are the rows 0 to 5, with a larger [F] the rows 2 to
    F-2 and all coefficients outside the top-left 3 x 3 corner are never
    read. *)
Theorem X14_filter_dimension_is_only_a_stride
    {F : Type} {ops : FloatOps F} (VLMAX : nat) (tail : vreg -> nat -> F -> F)
    (o i f R C F_ : Z) (st : state F) :
  R <= 4 ->
  exists st' evs,
    fconv2d_3x3 VLMAX tail o i f R C F_ st = Some st' /\
    log st' = log st ++ evs /\
    fld_addrs evs =
      map (fun t => ptr_add f (fst t * F_ + snd t))
          (taps ++ [(0, 0); (1, 0); (2, 0)]) /\
    load_addrs evs =
      flat_map (fun k => row_addrs (ptr_add i (k * (C + F_ - 1)))
                                   (grant VLMAX (C + F_ - 1)))
               [0; 1; F_ - 1; F_; F_ + 1; F_ + 2].
Proof.
  intros HR.
  rewrite fconv2d_3x3_rounded, (rows_done_one_block R HR), smallest_case_returns.
  eexists. exists (prologue_trace (F := F) VLMAX o i f C F_).
  split; [reflexivity|]. split; [apply prologue_log|].
  split; [apply prologue_trace_flds_any_F | apply prologue_trace_loads_any_F].
Qed.

Lemma X14_filter_dimension_is_only_a_stride_witness :
  4 <= 4 /\
  exists st' evs,
    fconv2d_3x3 8 Example.keep Example.o_ptr Example.i_ptr Example.f_ptr 4 4 5
                Example.small = Some st' /\
    log st' = log Example.small ++ evs /\
    fld_addrs evs =
      map (fun t => ptr_add Example.f_ptr (fst t * 5 + snd t))
          (taps ++ [(0, 0); (1, 0); (2, 0)]) /\
    load_addrs evs =
      flat_map (fun k => row_addrs (ptr_add Example.i_ptr (k * (4 + 5 - 1)))
                                   (grant 8 (4 + 5 - 1)))
               [0; 1; 5 - 1; 5; 5 + 1; 5 + 2].
Proof.
  split; [lia|].
  apply X14_filter_dimension_is_only_a_stride. lia.
Defined.

(** ** One loop iteration on its own *)

Section LoopIteration.

Context {F : Type} {ops : FloatOps F}.
Variable VLMAX : nat.
Variable tail : vreg -> nat -> F -> F.

Ltac slide_guard l j :=
  let P := fresh "P" in
  let E := fresh "E" in
  destruct (Nat.ltb_spec (l + j) VLMAX) as [P|P];
  [ assert (E : (l + j <? VLMAX)%nat = true) by (apply Nat.ltb_lt; exact P)
  | assert (E : (l + j <? VLMAX)%nat = false) by (apply Nat.ltb_ge; exact P) ].

Ltac lanes :=
  repeat (first [ rewrite vec_op_lt by lia
                | match goal with
                  | E : (_ <? VLMAX)%nat = _ |- _ => rewrite E
                  end ];
          cbv beta iota).

Ltac addr_eq :=
  unfold ptr_add, row_lanes, lane_addr; rewrite ?shl3_eq;
  repeat (f_equal; try lia).

(** Lane [l] of an accumulator on the left against [mac3x3] on the right. *)
Ltac acc_lane C l HC Hl :=
  pose proof (grant_window VLMAX C l 1 HC Hl ltac:(lia));
  pose proof (grant_window VLMAX C l 2 HC Hl ltac:(lia));
  pose proof (grant_window VLMAX C l 0 HC Hl ltac:(lia));
  pose proof (grant_le VLMAX C);
  unfold mac3x3, win; cbn [Z.eqb Pos.eqb];
  slide_guard l 1%nat; slide_guard l 2%nat; try (exfalso; lia);
  lanes; addr_eq.

Variables (o i f C : Z) (t0 t1 t2 : F) (r i__ : Z) (st : state F).

Let st' := snd (loop_body VLMAX tail o i f C 3 4 (shl3 (C + 3 - 1)) (shl3 3)
                          t0 t1 t2 r i__ st).
Let ldi := shl3 (C + 3 - 1).
Let ldo := shl3 C.
Let flt := fun k => if k =? 0 then t0 else if k =? 3 then t1
                    else if k =? 6 then t2 else mem st (ptr_add f k).
Let x0 := v16 (vregs st).
Let x1 := v18 (vregs st).
Let x2 := row_lanes (mem st) i__.
Let x3 := row_lanes (mem st) (i__ + ldi).
Let x4 := row_lanes (mem st) (i__ + ldi + ldi).
Let x5 := row_lanes (mem st) (i__ + ldi + ldi + ldi).

Lemma loop_mem :
  mem st' =
  store_lanes (store_lanes (store_lanes (store_lanes (mem st)
    (ptr_add o (r * C)) (v0 (vregs st')) (grant VLMAX C))
    (ptr_add o (r * C) + ldo) (v2 (vregs st')) (grant VLMAX C))
    (ptr_add o (r * C) + ldo + ldo) (v4 (vregs st')) (grant VLMAX C))
    (ptr_add o (r * C) + ldo + ldo + ldo) (v6 (vregs st')) (grant VLMAX C).
Proof. subst st' ldo. expose st. run. reflexivity. Qed.

Lemma loop_window l :
  (l < grant VLMAX (C + 3 - 1))%nat ->
  v16 (vregs st') l = x4 l /\ v18 (vregs st') l = x5 l.
Proof.
  intros Hl. subst st' x4 x5 ldi. expose st. run.
  rewrite !vec_op_lt by lia. unfold row_lanes. cbv [mem]. auto.
Qed.

Lemma loop_v0 l :
  0 <= C -> (l < grant VLMAX C)%nat -> v0 (vregs st') l = mac3x3 VLMAX flt x0 x1 x2 l.
Proof.
  intros HC Hl. subst st' flt x0 x1 x2 ldi. expose st. run.
  acc_lane C l HC Hl.
Qed.

Lemma loop_v2 l :
  0 <= C -> (l < grant VLMAX C)%nat -> v2 (vregs st') l = mac3x3 VLMAX flt x1 x2 x3 l.
Proof.
  intros HC Hl. subst st' flt x1 x2 x3 ldi. expose st. run.
  acc_lane C l HC Hl.
Qed.

Lemma loop_v4 l :
  0 <= C -> (l < grant VLMAX C)%nat -> v4 (vregs st') l = mac3x3 VLMAX flt x2 x3 x4 l.
Proof.
  intros HC Hl. subst st' flt x2 x3 x4 ldi. expose st. run.
  acc_lane C l HC Hl.
Qed.

Lemma loop_v6 l :
  0 <= C -> (l < grant VLMAX C)%nat -> v6 (vregs st') l = mac3x3 VLMAX flt x3 x4 x5 l.
Proof.
  intros HC Hl. subst st' flt x3 x4 x5 ldi. expose st. run.
  acc_lane C l HC Hl.
Qed.

Hypothesis HC : 1 <= C.
Hypothesis Hfit : C + 2 <= Z.of_nat VLMAX.

Ltac slid_rows :=
  let b := fresh "b" in let Hb := fresh "Hb" in
  intros b Hb; unfold slid_window_at;
  cbv delta [x0 x1 x2 x3 x4 x5 ldi];
  cbn [Z.add Z.eqb Z.sub Z.opp Pos.eqb Z.pos_sub Pos.add Pos.succ
       Z.succ_double Z.pred_double Z.double Pos.pred_double];
  rewrite ?shl3_eq; unfold row_lanes, lane_addr, ptr_add;
  repeat split; f_equal; lia.

Lemma loop_iteration_cells j c :
  0 <= j < 4 -> 0 <= c < C ->
  mem st' (ptr_add o ((r + j) * C + c)) =
  conv_ref (filter_with_column_0 t0 t1 t2 (mem st) f) (slid_window_at st i__ C) j c.
Proof.
  intros Hj Hc. rewrite loop_mem.
  assert (Hg : grant VLMAX C = Z.to_nat C) by (apply grant_fits; lia).
  replace c with (Z.of_nat (Z.to_nat c)) by lia.
  set (l := Z.to_nat c).
  assert (Hl : (l < grant VLMAX C)%nat) by (rewrite Hg; subst l; lia).
  replace (ptr_add o ((r + j) * C + Z.of_nat l))
    with (ptr_add (ptr_add o (r * C)) (j * C + Z.of_nat l))
    by (unfold ptr_add; lia).
  unfold ldo.
  rewrite (block_stores_hit C HC) by (try exact Hl; try exact Hj; rewrite Hg; lia).
  assert (Hk : forall a b, 0 <= a < 3 -> 0 <= b < 3 ->
            flt (3 * a + b) = filter_with_column_0 t0 t1 t2 (mem st) f a b).
  { intros a b Ha Hb.
    assert (a = 0 \/ a = 1 \/ a = 2) as [-> | [-> | ->]] by lia;
    assert (b = 0 \/ b = 1 \/ b = 2) as [-> | [-> | ->]] by lia;
    reflexivity. }
  assert (j = 0 \/ j = 1 \/ j = 2 \/ j = 3) as [-> | [-> | [-> | ->]]] by lia;
    cbn [Z.eqb Pos.eqb].
  - rewrite loop_v0 by (lia || exact Hl).
    apply mac3x3_ref; [subst l; lia | exact Hk | slid_rows].
  - rewrite loop_v2 by (lia || exact Hl).
    apply mac3x3_ref; [subst l; lia | exact Hk | slid_rows].
  - rewrite loop_v4 by (lia || exact Hl).
    apply mac3x3_ref; [subst l; lia | exact Hk | slid_rows].
  - rewrite loop_v6 by (lia || exact Hl).
    apply mac3x3_ref; [subst l; lia | exact Hk | slid_rows].
Qed.

Lemma loop_iteration_rows j c :
  0 <= j < 4 -> 0 <= c < C ->
  output_at (mem st') o C (r + j) c =
  conv_ref (filter_with_column_0 t0 t1 t2 (mem st) f) (slid_window_at st i__ C) j c.
Proof. apply loop_iteration_cells. Qed.

Lemma loop_iteration_frame a :
  ~ cell (ptr_add o (r * C)) (4 * C) a -> mem st' a = mem st a.
Proof.
  intros Ha. rewrite loop_mem. unfold ldo. apply block_stores_miss.
  intros j l Hj Hl E. apply Ha.
  rewrite grant_fits in Hl by lia.
  exists (j * C + Z.of_nat l). split; [nia | exact E].
Qed.

End LoopIteration.

(** X15.  One iteration of the loop, entered on any state for the rows
    [r .. r+3]: it stores these four output rows, each element the
    reference on the window rows 0 and 1 it finds in [v16] and [v18] and
    the rows 2 to 5 it loads from the cursor, with the filter's column 0
    taken from the coefficients loaded before the loop and not from the
    memory; it changes no other cell, and it leaves the cursor on input row
    [r + 6] whatever the cursor was. *)
Theorem X15_loop_iteration_computes_four_rows_from_the_state_it_finds
    {F : Type} {ops : FloatOps F} (VLMAX : nat) (tail : vreg -> nat -> F -> F)
    (o i f C : Z) (t0 t1 t2 : F) (r i__ : Z) (st : state F) :
  1 <= C -> C + 2 <= Z.of_nat VLMAX ->
  (forall j c, 0 <= j < 4 -> 0 <= c < C ->
     output_at (mem (snd (loop_body VLMAX tail o i f C 3 4 (shl3 (C + 3 - 1))
                                    (shl3 3) t0 t1 t2 r i__ st))) o C (r + j) c =
     conv_ref (filter_with_column_0 t0 t1 t2 (mem st) f)
              (slid_window_at st i__ C) j c) /\
  (forall a, ~ cell (ptr_add o (r * C)) (4 * C) a ->
     mem (snd (loop_body VLMAX tail o i f C 3 4 (shl3 (C + 3 - 1))
                         (shl3 3) t0 t1 t2 r i__ st)) a = mem st a) /\
  fst (loop_body VLMAX tail o i f C 3 4 (shl3 (C + 3 - 1)) (shl3 3)
                 t0 t1 t2 r i__ st) = ptr_add i ((r + 6) * (C + 2)).
Proof.
  intros HC Hfit. split; [|split].
  - intros j c. apply loop_iteration_rows; assumption.
  - intros a. apply loop_iteration_frame; assumption.
  - rewrite loop_body_cursor. unfold ptr_add. lia.
Qed.

Lemma X15_loop_iteration_computes_four_rows_from_the_state_it_finds_witness :
  1 <= 4 /\ 4 + 2 <= Z.of_nat 8 /\
  (forall j c, 0 <= j < 4 -> 0 <= c < 4 ->
     output_at (mem (snd (loop_body 8 Example.keep Example.o_ptr Example.i_ptr
                            Example.f_ptr 4 3 4 (shl3 (4 + 3 - 1)) (shl3 3)
                            Example.one Example.one Example.one 4 0
                            Example.small)))
               Example.o_ptr 4 (4 + j) c =
     conv_ref (filter_with_column_0 Example.one Example.one Example.one
                                    (mem Example.small) Example.f_ptr)
              (slid_window_at Example.small 0 4) j c) /\
  (forall a, ~ cell (ptr_add Example.o_ptr (4 * 4)) (4 * 4) a ->
     mem (snd (loop_body 8 Example.keep Example.o_ptr Example.i_ptr
                 Example.f_ptr 4 3 4 (shl3 (4 + 3 - 1)) (shl3 3)
                 Example.one Example.one Example.one 4 0 Example.small)) a =
     mem Example.small a) /\
  fst (loop_body 8 Example.keep Example.o_ptr Example.i_ptr
         Example.f_ptr 4 3 4 (shl3 (4 + 3 - 1)) (shl3 3)
         Example.one Example.one Example.one 4 0 Example.small) =
  ptr_add Example.i_ptr ((4 + 6) * (4 + 2)).
Proof.
  split; [lia|]. split; [cbn; lia|].
  apply X15_loop_iteration_computes_four_rows_from_the_state_it_finds;
    [lia | cbn; lia].
Defined.

(** ** The slide before the loop *)

(** Stores of lanes that agree, into memories that agree at a cell. *)
Lemma store_lanes_ext {F : Type} (m1 m2 : memory F) a (x y : lanes F) n b :
  m1 b = m2 b -> (forall l, (l < n)%nat -> x l = y l) ->
  store_lanes m1 a x n b = store_lanes m2 a y n b.
Proof.
  intros Hm. induction n as [|n IH]; intros Hx; [exact Hm|].
  cbn [store_lanes]. destruct (b =? lane_addr a n).
  - apply Hx. lia.
  - apply IH. intros l Hl. apply Hx. lia.
Qed.

Section SlideBeforeLoop.

Context {F : Type} {ops : FloatOps F}.
Variable VLMAX : nat.
Variable tail : vreg -> nat -> F -> F.
Variables (o i f C : Z) (t0 t1 t2 : F) (r i__ : Z).
Hypothesis HC : 0 <= C.

(** What a loop iteration stores depends on the state it is entered in
    only through the memory and the registers [v16] and [v18]. *)
Lemma iteration_stores_from_memory_v16_v18 (st1 st2 : state F) a :
  mem st1 = mem st2 ->
  v16 (vregs st1) = v16 (vregs st2) -> v18 (vregs st1) = v18 (vregs st2) ->
  mem (snd (loop_body VLMAX tail o i f C 3 4 (shl3 (C + 3 - 1)) (shl3 3)
                      t0 t1 t2 r i__ st1)) a =
  mem (snd (loop_body VLMAX tail o i f C 3 4 (shl3 (C + 3 - 1)) (shl3 3)
                      t0 t1 t2 r i__ st2)) a.
Proof.
  intros Hm H16 H18. rewrite !loop_mem.
  repeat apply store_lanes_ext; [now rewrite Hm | | | | ]; intros l Hl.
  - rewrite !loop_v0 by assumption. now rewrite Hm, H16, H18.
  - rewrite !loop_v2 by assumption. now rewrite Hm, H18.
  - rewrite !loop_v4 by assumption. now rewrite Hm.
  - rewrite !loop_v6 by assumption. now rewrite Hm.
Qed.

End SlideBeforeLoop.

(** X16.  The call of the slide helper before the loop changes nothing
    of what the loop stores.  For every row width [C >= 0] and every size
    of the register group, a loop iteration entered right after the slide
    helper leaves the memory, the cursor and the accesses of the iteration
    entered without it: the iteration begins with the same two register
    moves from [v16] and [v18], which the helper leaves as they are. *)
Theorem X16_slide_before_the_loop_is_repeated_by_the_loop
    {F : Type} {ops : FloatOps F} (VLMAX : nat) (tail : vreg -> nat -> F -> F)
    (o i f C : Z) (t0 t1 t2 : F) (r i__ : Z) (st : state F) :
  0 <= C ->
  (forall a,
     mem (snd (loop_body VLMAX tail o i f C 3 4 (shl3 (C + 3 - 1)) (shl3 3)
                 t0 t1 t2 r i__
                 (snd (fconv2d_vec_4xC_slice_move_3x3 VLMAX tail C 3 st)))) a =
     mem (snd (loop_body VLMAX tail o i f C 3 4 (shl3 (C + 3 - 1)) (shl3 3)
                 t0 t1 t2 r i__ st)) a) /\
  fst (loop_body VLMAX tail o i f C 3 4 (shl3 (C + 3 - 1)) (shl3 3)
         t0 t1 t2 r i__
         (snd (fconv2d_vec_4xC_slice_move_3x3 VLMAX tail C 3 st))) =
  fst (loop_body VLMAX tail o i f C 3 4 (shl3 (C + 3 - 1)) (shl3 3)
         t0 t1 t2 r i__ st) /\
  log (snd (loop_body VLMAX tail o i f C 3 4 (shl3 (C + 3 - 1)) (shl3 3)
              t0 t1 t2 r i__
              (snd (fconv2d_vec_4xC_slice_move_3x3 VLMAX tail C 3 st)))) =
  log (snd (loop_body VLMAX tail o i f C 3 4 (shl3 (C + 3 - 1)) (shl3 3)
              t0 t1 t2 r i__ st)).
Proof.
  intros HC. split; [|split].
  - intros a.
    destruct (slide_keeps VLMAX tail C 3 st) as (_ & _ & K16 & K18).
    apply iteration_stores_from_memory_v16_v18;
      [exact HC | apply slide_mem | exact K16 | exact K18].
  - rewrite !loop_body_cursor. reflexivity.
  - rewrite !loop_body_log, slide_log. reflexivity.
Qed.

Lemma X16_slide_before_the_loop_is_repeated_by_the_loop_witness :
  0 <= 4 /\
  (forall a,
     mem (snd (loop_body 8 Example.keep Example.o_ptr Example.i_ptr Example.f_ptr
                 4 3 4 (shl3 (4 + 3 - 1)) (shl3 3)
                 Example.one Example.one Example.one 4 0
                 (snd (fconv2d_vec_4xC_slice_move_3x3 8 Example.keep 4 3
                         Example.small)))) a =
     mem (snd (loop_body 8 Example.keep Example.o_ptr Example.i_ptr Example.f_ptr
                 4 3 4 (shl3 (4 + 3 - 1)) (shl3 3)
                 Example.one Example.one Example.one 4 0 Example.small)) a) /\
  fst (loop_body 8 Example.keep Example.o_ptr Example.i_ptr Example.f_ptr
         4 3 4 (shl3 (4 + 3 - 1)) (shl3 3)
         Example.one Example.one Example.one 4 0
         (snd (fconv2d_vec_4xC_slice_move_3x3 8 Example.keep 4 3
                 Example.small))) =
  fst (loop_body 8 Example.keep Example.o_ptr Example.i_ptr Example.f_ptr
         4 3 4 (shl3 (4 + 3 - 1)) (shl3 3)
         Example.one Example.one Example.one 4 0 Example.small) /\
  log (snd (loop_body 8 Example.keep Example.o_ptr Example.i_ptr Example.f_ptr
              4 3 4 (shl3 (4 + 3 - 1)) (shl3 3)
              Example.one Example.one Example.one 4 0
              (snd (fconv2d_vec_4xC_slice_move_3x3 8 Example.keep 4 3
                      Example.small)))) =
  log (snd (loop_body 8 Example.keep Example.o_ptr Example.i_ptr Example.f_ptr
              4 3 4 (shl3 (4 + 3 - 1)) (shl3 3)
              Example.one Example.one Example.one 4 0 Example.small)).
Proof.
  split; [lia|].
  apply X16_slide_before_the_loop_is_repeated_by_the_loop. lia.
Defined.

(** ** Streaming over the input in place *)

(** The reference on two views that agree on the nine taps. *)
Lemma conv_ref_rows {F : Type} {ops : FloatOps F}
    (flt1 inp1 flt2 inp2 : Z -> Z -> F) r1 r2 c :
  (forall a b, 0 <= a < 3 -> 0 <= b < 3 -> flt1 a b = flt2 a b) ->
  (forall a b, 0 <= a < 3 -> 0 <= b < 3 ->
     inp1 (r1 + a) (c + b) = inp2 (r2 + a) (c + b)) ->
  conv_ref flt1 inp1 r1 c = conv_ref flt2 inp2 r2 c.
Proof.
  intros Hf Hi. unfold conv_ref, taps.
  cbn [flat_map map app tl fold_left]. unfold ref_step. cbn [fst snd].
  rewrite !Hf, !Hi by lia.
  replace (inp1 r1 c) with (inp1 (r1 + 0) (c + 0)) by (f_equal; lia).
  replace (inp2 r2 c) with (inp2 (r2 + 0) (c + 0)) by (f_equal; lia).
  rewrite Hi by lia. reflexivity.
Qed.

(** The stores of the block at row [r] miss the input rows from [r + 6]
    on, the filter, and the output rows of the other blocks. *)
Lemma block_misses_unread_input o i R C r k :
  1 <= C -> output_behind_input o i R C ->
  0 <= r -> (r + 6) * (C + 2) <= k < (R + 2) * (C + 2) ->
  ~ cell (ptr_add o (r * C)) (4 * C) (ptr_add i k).
Proof.
  intros HC Hb Hr Hk (q & Hq & E). unfold ptr_add in E.
  destruct Hb as [B|B]; unfold ptr_add in B; nia.
Qed.

Lemma block_misses_filter o f R C r k :
  1 <= C -> separate o (R * C) f 9 ->
  0 <= r -> r + 4 <= R -> 0 <= k < 9 ->
  ~ cell (ptr_add o (r * C)) (4 * C) (ptr_add f k).
Proof.
  intros HC Hs Hr Hr4 Hk (q & Hq & E). unfold ptr_add in E.
  destruct Hs as [B|B]; nia.
Qed.

Lemma block_misses_other_rows o C r r' c :
  1 <= C -> 0 <= c < C -> r' < r \/ r + 4 <= r' ->
  ~ cell (ptr_add o (r * C)) (4 * C) (ptr_add o (r' * C + c)).
Proof.
  intros HC Hc Hr' (q & Hq & E). unfold ptr_add in E.
  pose proof (Z.div_mod q C ltac:(lia)) as D.
  pose proof (Z.mod_pos_bound q C ltac:(lia)) as B.
  assert (Ek : r' * C + c = (r + q / C) * C + q mod C) by lia.
  apply out_index_inj in Ek; nia.
Qed.

Section Streaming.

Context {F : Type} {ops : FloatOps F}.
Variable VLMAX : nat.
Variable tail : vreg -> nat -> F -> F.
Variables (o i f R C : Z).
Variable m0 : memory F.

Hypothesis HC : 1 <= C.
Hypothesis Hfit : C + 2 <= Z.of_nat VLMAX.
Hypothesis Hflt : separate o (R * C) f 9.
Hypothesis Hbehind : output_behind_input o i R C.

(** One loop iteration keeps the invariant. *)
Lemma streaming_step r i__ (st : state F) :
  4 <= r -> r + 4 <= R ->
  streaming_inv VLMAX m0 o i f R C r i__ st ->
  let p := loop_body VLMAX tail o i f C 3 4 (shl3 (C + 3 - 1)) (shl3 3)
             (m0 (ptr_add f 0)) (m0 (ptr_add f 3)) (m0 (ptr_add f 6)) r i__ st in
  streaming_inv VLMAX m0 o i f R C (r + 4) (fst p) (snd p).
Proof.
  intros Hr Hr4 (Hi & H16 & H18 & Hin & Hf & Hout) p. subst p.
  assert (Hg : grant VLMAX (C + 3 - 1) = Z.to_nat (C + 2))
    by (rewrite grant_fits by lia; f_equal; lia).
  assert (Hld : shl3 (C + 3 - 1) = 8 * (C + 2)) by (rewrite shl3_eq; lia).
  unfold streaming_inv. repeat split.
  - rewrite loop_body_cursor. unfold cursor, ptr_add. lia.
  - intros l Hl.
    destruct (loop_window VLMAX tail o i f C (m0 (ptr_add f 0)) (m0 (ptr_add f 3))
                (m0 (ptr_add f 6)) r i__ st l Hl) as [A _].
    rewrite A. unfold row_lanes. rewrite Hld, Hi.
    replace (lane_addr (cursor i C r + 8 * (C + 2) + 8 * (C + 2)) l)
      with (ptr_add i ((r + 4) * (C + 2) + Z.of_nat l))
      by (unfold cursor, lane_addr, ptr_add; lia).
    replace (lane_addr (ptr_add i ((r + 4) * (C + 2))) l)
      with (ptr_add i ((r + 4) * (C + 2) + Z.of_nat l))
      by (unfold lane_addr, ptr_add; lia).
    apply Hin. rewrite Hg in Hl. nia.
  - intros l Hl.
    destruct (loop_window VLMAX tail o i f C (m0 (ptr_add f 0)) (m0 (ptr_add f 3))
                (m0 (ptr_add f 6)) r i__ st l Hl) as [_ A].
    rewrite A. unfold row_lanes. rewrite Hld, Hi.
    replace (lane_addr (cursor i C r + 8 * (C + 2) + 8 * (C + 2) + 8 * (C + 2)) l)
      with (ptr_add i ((r + 5) * (C + 2) + Z.of_nat l))
      by (unfold cursor, lane_addr, ptr_add; lia).
    replace (lane_addr (ptr_add i ((r + 4 + 1) * (C + 2))) l)
      with (ptr_add i ((r + 5) * (C + 2) + Z.of_nat l))
      by (unfold lane_addr, ptr_add; lia).
    apply Hin. rewrite Hg in Hl. nia.
  - intros k Hk.
    rewrite loop_iteration_frame
      by (try assumption; apply block_misses_unread_input with (R := R);
          (assumption || lia)).
    apply Hin. lia.
  - intros k Hk.
    rewrite loop_iteration_frame
      by (try assumption; apply block_misses_filter with (R := R);
          (assumption || lia)).
    apply Hf. exact Hk.
  - intros r' c Hr' Hc.
    destruct (Z_lt_ge_dec r' r) as [Hlt|Hge].
    + rewrite loop_iteration_frame
        by (try assumption; apply block_misses_other_rows; (assumption || lia)).
      apply Hout; lia.
    + replace (ptr_add o (r' * C + c)) with (ptr_add o ((r + (r' - r)) * C + c))
        by (f_equal; lia).
      rewrite loop_iteration_cells by (assumption || lia).
      apply conv_ref_rows.
      * intros a b Ha Hb. unfold filter_with_column_0, filter_at.
        assert (a = 0 \/ a = 1 \/ a = 2) as [-> | [-> | ->]] by lia;
        assert (b = 0 \/ b = 1 \/ b = 2) as [-> | [-> | ->]] by lia;
        cbn [Z.eqb Pos.eqb Z.mul Z.add Pos.mul Pos.add]; try reflexivity;
        apply Hf; lia.
      * intros a b Ha Hb. unfold slid_window_at, input_at.
        assert (Hl : (Z.to_nat (c + b) < grant VLMAX (C + 3 - 1))%nat)
          by (rewrite Hg; lia).
        destruct (Z.eqb_spec (r' - r + a) 0) as [E0|N0];
          [|destruct (Z.eqb_spec (r' - r + a) 1) as [E1|N1]].
        -- rewrite (H16 _ Hl). unfold row_lanes, lane_addr, ptr_add. f_equal. nia.
        -- rewrite (H18 _ Hl). unfold row_lanes, lane_addr, ptr_add. f_equal. nia.
        -- rewrite Hi.
           replace (ptr_add (cursor i C r) ((r' - r + a - 2) * (C + 2) + (c + b)))
             with (ptr_add i ((r' + a) * (C + 2) + (c + b)))
             by (unfold cursor, ptr_add; lia).
           apply Hin. nia.
Qed.

(** [n] iterations from the head for row [r]. *)
Lemma streaming_run n : forall r i__ (st : state F),
  4 <= r -> r + 4 * Z.of_nat n <= R ->
  streaming_inv VLMAX m0 o i f R C r i__ st ->
  let q := run_blocks VLMAX tail o i f C 3
             (m0 (ptr_add f 0)) (m0 (ptr_add f 3)) (m0 (ptr_add f 6)) n r i__ st in
  streaming_inv VLMAX m0 o i f R C (r + 4 * Z.of_nat n) (snd (fst q)) (snd q).
Proof.
  induction n as [|n IH]; intros r i__ st Hr Hn Hinv q.
  - subst q. cbn [run_blocks fst snd].
    replace (r + 4 * Z.of_nat 0) with r by lia. exact Hinv.
  - subst q. cbn [run_blocks].
    pose proof (streaming_step r i__ st Hr ltac:(lia) Hinv) as Hs. cbv zeta in Hs.
    destruct (loop_body VLMAX tail o i f C 3 4 (shl3 (C + 3 - 1)) (shl3 3)
                (m0 (ptr_add f 0)) (m0 (ptr_add f 3)) (m0 (ptr_add f 6)) r i__ st)
      as [i' st'].
    cbn [fst snd] in Hs.
    specialize (IH (r + 4) i' st' ltac:(lia) ltac:(lia) Hs). cbv zeta in IH.
    replace (r + 4 * Z.of_nat (S n)) with (r + 4 + 4 * Z.of_nat n) by lia.
    exact IH.
Qed.

End Streaming.

Section StreamingCall.

Context {F : Type} {ops : FloatOps F}.
Variable VLMAX : nat.
Variable tail : vreg -> nat -> F -> F.
Variables (o i f R C : Z).
Variable st0 : state F.

Hypothesis HC : 1 <= C.
Hypothesis HR : 4 <= R.
Hypothesis Hfit : C + 2 <= Z.of_nat VLMAX.
Hypothesis Hflt : separate o (R * C) f 9.
Hypothesis Hbehind : output_behind_input o i R C.

(** After the prologue the invariant holds for row 4, and the coefficients
    it loaded are the filter's column 0 as it was before the call. *)
Lemma streaming_prologue :
  let p := prologue VLMAX tail o i f C 3 4 st0 in
  streaming_inv VLMAX (mem st0) o i f R C 4 (fst (fst p)) (snd p) /\
  snd (fst p) = (mem st0 (ptr_add f 0), mem st0 (ptr_add f 3), mem st0 (ptr_add f 6)).
Proof.
  intros p.
  destruct (prologue_state VLMAX tail o i f C 3 4 st0) as (Ep & Em & Ev & _).
  fold p in Ep, Em, Ev.
  set (sP := snd (fconv2d_vec_4xC_slice_preload_3x3 VLMAX tail i C 3 st0)) in *.
  set (sB := snd (fconv2d_vec_4xC_3x3 VLMAX tail o
                    (ptr_add i ((3 - 1) * (C + 3 - 1))) f C 3 sP)) in *.
  assert (Hg : grant VLMAX (C + 3 - 1) = Z.to_nat (C + 2))
    by (rewrite grant_fits by lia; f_equal; lia).
  assert (Hld : shl3 (C + 3 - 1) = 8 * (C + 2)) by (rewrite shl3_eq; lia).
  assert (Hfr : forall a, ~ cell o (4 * C) a -> mem sB a = mem st0 a)
    by (intros a Ha; apply first_block_frame; assumption).
  assert (Ho : o = ptr_add o (0 * C)) by (unfold ptr_add; lia).
  assert (Hfl : forall k, 0 <= k < 9 -> mem sB (ptr_add f k) = mem st0 (ptr_add f k)).
  { intros k Hk. apply Hfr. rewrite Ho.
    apply block_misses_filter with (R := R); (assumption || lia). }
  destruct (slide_keeps VLMAX tail C 3 sB) as (_ & _ & K16 & K18).
  assert (Hm : mem sP = mem st0) by apply preload_mem.
  rewrite Ep. cbn [fst snd]. split.
  - unfold streaming_inv. rewrite Em, Ev, K16, K18. repeat split.
    + unfold cursor, ptr_add. ring.
    + intros l Hl.
      destruct (block_window VLMAX tail o (ptr_add i ((3 - 1) * (C + 3 - 1)))
                  f C sP l Hl) as (_ & _ & A & _).
      fold sB in A. rewrite A, Hm, Hld. unfold row_lanes. f_equal.
      unfold lane_addr, ptr_add. lia.
    + intros l Hl.
      destruct (block_window VLMAX tail o (ptr_add i ((3 - 1) * (C + 3 - 1)))
                  f C sP l Hl) as (_ & _ & _ & A).
      fold sB in A. rewrite A, Hm, Hld. unfold row_lanes. f_equal.
      unfold lane_addr, ptr_add. lia.
    + intros k Hk. apply Hfr. rewrite Ho.
      apply block_misses_unread_input with (R := R); (assumption || lia).
    + exact Hfl.
    + intros r' c Hr' Hc. apply first_block_cells; assumption.
  - rewrite shl3_eq.
    rewrite <- !Hfl by lia. unfold ptr_add.
    repeat match goal with |- (_, _) = (_, _) => apply f_equal2 end;
      apply f_equal; lia.
Qed.

(** The whole call, streaming. *)
Lemma streaming_call :
  R mod 4 = 0 ->
  exists st',
    fconv2d_3x3 VLMAX tail o i f R C 3 st0 = Some st' /\
    forall r c, 0 <= r < R -> 0 <= c < C ->
      output_at (mem st') o C r c =
      conv_ref (filter_at (mem st0) f) (input_at (mem st0) i C) r c.
Proof.
  intros HR4.
  destruct (blocks_of_R R ltac:(lia) HR4) as (_ & Hn & Hfuel & _).
  set (n := Z.to_nat (R / 4 - 1)) in *.
  pose proof streaming_prologue as Hp. cbv zeta in Hp.
  rewrite fconv2d_3x3_unfold. unfold fconv2d_3x3_fuel.
  destruct (prologue VLMAX tail o i f C 3 4 st0) as [[i__ [[t0 t1] t2]] s1].
  cbn [fst snd] in Hp. destruct Hp as [Hinv Hco]. injection Hco as -> -> ->.
  rewrite (steady_state_run VLMAX tail o i f R C _ _ _ n) by lia.
  rewrite option_map_snd_some.
  pose proof (streaming_run VLMAX tail o i f R C (mem st0) HC Hfit Hflt Hbehind n
                4 i__ s1 ltac:(lia) ltac:(lia) Hinv) as Hrun.
  cbv zeta in Hrun. destruct Hrun as (_ & _ & _ & _ & _ & Hout).
  eexists. split; [reflexivity|].
  intros r c Hr Hc. unfold output_at. apply Hout; lia.
Qed.

End StreamingCall.

(** X17.  The kernel streams over the input and can work in place.  Every
    block loads its input rows before it stores its output rows, and the
    stores of a block never reach a row that a later block loads as long as
    the output buffer starts at most [2 * C + 12] elements after the input
    buffer (at the same address, for instance) or after its end.  Then,
    with the filter apart from the output and [C + 2 <= VLMAX], every
    output element is the reference on the input as it was before the call,
    although the call overwrites that input. *)
Theorem X17_output_may_overwrite_the_consumed_input
    {F : Type} {ops : FloatOps F} (VLMAX : nat) (tail : vreg -> nat -> F -> F)
    (o i f R C : Z) (st : state F) :
  0 < R -> R mod 4 = 0 -> 1 <= C -> C + 2 <= Z.of_nat VLMAX ->
  separate o (R * C) f 9 ->
  output_behind_input o i R C ->
  exists st',
    fconv2d_3x3 VLMAX tail o i f R C 3 st = Some st' /\
    forall r c, 0 <= r < R -> 0 <= c < C ->
      output_at (mem st') o C r c =
      conv_ref (filter_at (mem st) f) (input_at (mem st) i C) r c.
Proof.
  intros HR0 HR4 HC Hfit Hflt Hb.
  destruct (blocks_of_R R HR0 HR4) as (HR & _).
  apply streaming_call; assumption.
Qed.

Lemma X17_output_may_overwrite_the_consumed_input_witness :
  0 < 8 /\ 8 mod 4 = 0 /\ 1 <= 4 /\ 4 + 2 <= Z.of_nat 8 /\
  separate Example.i_ptr (8 * 4) Example.f_ptr 9 /\
  output_behind_input Example.i_ptr Example.i_ptr 8 4 /\
  exists st',
    fconv2d_3x3 8 Example.keep Example.i_ptr Example.i_ptr Example.f_ptr 8 4 3
                Example.small = Some st' /\
    forall r c, 0 <= r < 8 -> 0 <= c < 4 ->
      output_at (mem st') Example.i_ptr 4 r c =
      conv_ref (filter_at (mem Example.small) Example.f_ptr)
               (input_at (mem Example.small) Example.i_ptr 4) r c.
Proof.
  assert (Hs : separate Example.i_ptr (8 * 4) Example.f_ptr 9)
    by (left; vm_compute; discriminate).
  assert (Hb : output_behind_input Example.i_ptr Example.i_ptr 8 4)
    by (left; vm_compute; discriminate).
  split; [lia|]. split; [reflexivity|]. split; [lia|]. split; [cbn; lia|].
  split; [exact Hs|]. split; [exact Hb|].
  apply X17_output_may_overwrite_the_consumed_input;
    [lia | reflexivity | lia | cbn; lia | exact Hs | exact Hb].
Defined.
